(** * windows-dev-setup: the provisioning engine of [setup.go]

    A shallow embedding of the Go program [setup.go]: the helpers
    ([runCmd], [commandExists], [writeFail], ...), the two package
    installers, the config deployer ([fileHash], [copyFile],
    [deployConfigFile]), [extractVersion] and [main], followed by the
    properties of the specification that concern them.

    The program is sequential and all of its state is the outside world:
    the file system, the console, the processes it spawns and the global
    [failures] slice.  A [World] record carries that state and every Go
    function becomes a function on worlds. *)

From Stdlib Require Import ZArith Lia Ascii String.
From stdpp Require Import base option list strings gmap fin_maps.

Local Open Scope Z_scope.

(** ** Bytes and hexadecimal

    A Go [string] is a sequence of bytes, and so is a Rocq [string]. *)

Definition byte_of (a : ascii) : Z := Z.of_N (Ascii.N_of_ascii a).

Definition bytes_of (s : string) : list Z := byte_of <$> String.list_ascii_of_string s.

Definition hex_digit (d : Z) : ascii :=
  Ascii.ascii_of_N (Z.to_N (if d <? 10 then 48 + d else 87 + d)).

(** [fmt.Sprintf("%x", b)] of one byte: two lowercase digits. *)
Definition hex_byte (b : Z) : string :=
  String (hex_digit (b / 16)) (String (hex_digit (b mod 16)) EmptyString).

Definition hex_bytes (bs : list Z) : string :=
  foldr (λ b acc, hex_byte b +:+ acc) EmptyString bs.

(** ** crypto/sha256

    FIPS 180-4, on 32-bit words held in [Z] with the wrap-around written
    out. *)

Module SHA256.

Definition w32 (x : Z) : Z := x mod 2 ^ 32.

Definition add32 (x y : Z) : Z := w32 (x + y).

Definition rotr (n x : Z) : Z :=
  w32 (Z.lor (Z.shiftr x n) (Z.shiftl x (32 - n))).

Definition not32 (x : Z) : Z := Z.lxor x 0xffffffff.

Definition Ch (x y z : Z) : Z := Z.lxor (Z.land x y) (Z.land (not32 x) z).
Definition Maj (x y z : Z) : Z :=
  Z.lxor (Z.lxor (Z.land x y) (Z.land x z)) (Z.land y z).
Definition Sigma0 (x : Z) : Z := Z.lxor (Z.lxor (rotr 2 x) (rotr 13 x)) (rotr 22 x).
Definition Sigma1 (x : Z) : Z := Z.lxor (Z.lxor (rotr 6 x) (rotr 11 x)) (rotr 25 x).
Definition sigma0 (x : Z) : Z := Z.lxor (Z.lxor (rotr 7 x) (rotr 18 x)) (Z.shiftr x 3).
Definition sigma1 (x : Z) : Z := Z.lxor (Z.lxor (rotr 17 x) (rotr 19 x)) (Z.shiftr x 10).

(** The constants are the first 32 bits of the fractional parts of the
    cube roots (the round constants) and of the square roots (the initial
    hash value) of the first prime numbers. *)
Fixpoint iroot (k n : Z) (bits : nat) (acc : Z) : Z :=
  match bits with
  | O => acc
  | S b =>
      let c := acc + 2 ^ Z.of_nat b in
      if c ^ k <=? n then iroot k n b c else iroot k n b acc
  end.

Definition frac_root (k p : Z) : Z := w32 (iroot k (p * 2 ^ (32 * k)) 40 0).

Definition is_prime (n : nat) : bool :=
  forallb (λ d, negb (Nat.eqb (n mod d) 0)) (seq 2 (n - 2)).

Definition primes (count : nat) : list Z :=
  Z.of_nat <$> take count (filter (λ n, is_prime n = true) (seq 2 400)).

Definition K : list Z := Eval vm_compute in frac_root 3 <$> primes 64.

Definition H0 : list Z := Eval vm_compute in frac_root 2 <$> primes 8.

(** Big-endian encoding of [x] on [n] bytes. *)
Fixpoint be_bytes (n : nat) (x : Z) : list Z :=
  match n with
  | O => []
  | S n' => (x / 256 ^ Z.of_nat n') mod 256 :: be_bytes n' x
  end.

Definition be_word (bs : list Z) : Z := foldl (λ acc b, acc * 256 + b) 0 bs.

(** The message, one [0x80] byte, zeros up to 56 modulo 64, and the
    bit length on 8 bytes. *)
Definition pad (msg : list Z) : list Z :=
  let len := Z.of_nat (length msg) in
  let zeros := Z.to_nat ((55 - len) mod 64) in
  msg ++ [0x80] ++ replicate zeros 0 ++ be_bytes 8 (8 * len).

Fixpoint chunks {A} (fuel size : nat) (l : list A) : list (list A) :=
  match fuel, l with
  | O, _ | _, [] => []
  | S fuel', _ => take size l :: chunks fuel' size (drop size l)
  end.

Definition words_of (block : list Z) : list Z :=
  be_word <$> chunks 16 4 block.

(** The message schedule, newest word first: [rw] holds W[t-1], W[t-2], ... *)
Fixpoint schedule (n : nat) (rw : list Z) : list Z :=
  match n with
  | O => rw
  | S n' =>
      let w := add32 (add32 (sigma1 (rw !!! 1%nat)) (rw !!! 6%nat))
                     (add32 (sigma0 (rw !!! 14%nat)) (rw !!! 15%nat)) in
      schedule n' (w :: rw)
  end.

Record regs := Regs { ra : Z; rb : Z; rc : Z; rd : Z; re : Z; rf : Z; rg : Z; rh : Z }.

Definition round (s : regs) (kw : Z * Z) : regs :=
  let t1 := add32 (add32 (add32 (rh s) (Sigma1 (re s)))
                         (add32 (Ch (re s) (rf s) (rg s)) kw.1)) kw.2 in
  let t2 := add32 (Sigma0 (ra s)) (Maj (ra s) (rb s) (rc s)) in
  Regs (add32 t1 t2) (ra s) (rb s) (rc s) (add32 (rd s) t1) (re s) (rf s) (rg s).

Definition regs_of (h : list Z) : regs :=
  Regs (h !!! 0%nat) (h !!! 1%nat) (h !!! 2%nat) (h !!! 3%nat)
       (h !!! 4%nat) (h !!! 5%nat) (h !!! 6%nat) (h !!! 7%nat).

Definition list_of (s : regs) : list Z :=
  [ra s; rb s; rc s; rd s; re s; rf s; rg s; rh s].

Definition compress (h : list Z) (block : list Z) : list Z :=
  let w := rev (schedule 48 (rev (words_of block))) in
  let s := foldl round (regs_of h) (zip K w) in
  zip_with add32 h (list_of s).

Definition digest (msg : list Z) : list Z :=
  let p := pad msg in
  let h := foldl compress H0 (chunks (length p) 64 p) in
  h ≫= be_bytes 4.

End SHA256.

(** [fmt.Sprintf("%x", h.Sum(nil))] after the whole content went through
    the hash. *)
Definition sha256_hex (content : string) : string :=
  hex_bytes (SHA256.digest (bytes_of content)).

Local Close Scope Z_scope.

(** ** strings *)

Definition is_space (c : ascii) : bool :=
  let n := nat_of_ascii c in
  (n =? 32) || ((9 <=? n) && (n <=? 13)).

(** The white space of [unicode.IsSpace] beyond ASCII, as the bytes of
    its UTF-8 encoding: U+0085 and U+00A0 on two bytes; U+1680, U+2000 to
    U+200A, U+2028, U+2029, U+202F, U+205F and U+3000 on three. *)
Definition is_space2 (a b : ascii) : bool :=
  (nat_of_ascii a =? 194) && ((nat_of_ascii b =? 133) || (nat_of_ascii b =? 160)).

Definition is_space3 (a b c : ascii) : bool :=
  let x := nat_of_ascii a in
  let y := nat_of_ascii b in
  let z := nat_of_ascii c in
  ((x =? 225) && (y =? 154) && (z =? 128))
  || ((x =? 226) && (y =? 128) &&
      (((128 <=? z) && (z <=? 138)) || (z =? 168) || (z =? 169) || (z =? 175)))
  || ((x =? 226) && (y =? 129) && (z =? 159))
  || ((x =? 227) && (y =? 128) && (z =? 128)).

(** The string is the encoding of one white space character. *)
Definition space_rune (s : string) : bool :=
  match s with
  | String a EmptyString => is_space a
  | String a (String b EmptyString) => is_space2 a b
  | String a (String b (String c EmptyString)) => is_space3 a b c
  | _ => false
  end.

(** [strings.TrimLeftFunc(s, unicode.IsSpace)]: the characters are
    decoded from the left; a byte that starts no valid encoding decodes
    to U+FFFD, which is no white space. *)
Fixpoint trim_left (s : string) : string :=
  match s with
  | String a s1 =>
      if is_space a then trim_left s1
      else
        match s1 with
        | String b s2 =>
            if is_space2 a b then trim_left s2
            else
              match s2 with
              | String c s3 => if is_space3 a b c then trim_left s3 else s
              | EmptyString => s
              end
        | EmptyString => s
        end
  | EmptyString => EmptyString
  end.

(** [strings.TrimRightFunc(s, unicode.IsSpace)]: the characters are
    decoded from the right.  What is left of [String c s'] is [c] before
    what is left of [s'], unless these bytes are one white space
    character. *)
Fixpoint trim_right (s : string) : string :=
  match s with
  | EmptyString => EmptyString
  | String c s' =>
      let t := String c (trim_right s') in
      if space_rune t then EmptyString else t
  end.

(** [strings.TrimSpace]: the white space of [unicode.IsSpace] is removed
    at both ends, first on the left. *)
Definition TrimSpace (s : string) : string := trim_right (trim_left s).

(** [strings.Contains(s, sub)]. *)
Fixpoint Contains (s sub : string) : bool :=
  String.prefix sub s ||
  match s with
  | EmptyString => false
  | String _ s' => Contains s' sub
  end.

(** ** Paths

    A path is the list of its components: [filepath.Join] appends
    components, [filepath.Dir] drops the last one, and a string appended
    to a path ([target + ".bak." + timestamp]) lands on the last
    component. *)

Abbreviation path := (list string).

Definition Join (p q : path) : path := p ++ q.

Definition Dir (p : path) : path := take (length p - 1) p.

Fixpoint add_suffix (p : path) (s : string) : path :=
  match p with
  | [] => [s]
  | [x] => [x +:+ s]
  | x :: p' => x :: add_suffix p' s
  end.

Definition show_path (p : path) : string := String.concat "\" p.

(** ** time *)

Record Time := mkTime {
  year : nat; month : nat; day : nat; hour : nat; minute : nat; second : nat
}.

Definition digit_char (d : nat) : ascii := ascii_of_nat (48 + d).

(** [n] in decimal on exactly [width] digits, zero padded. *)
Fixpoint dec (width n : nat) : string :=
  match width with
  | O => EmptyString
  | S k => dec k (n / 10) +:+ String (digit_char (n mod 10)) EmptyString
  end.

(** [t.Format("20060102-150405")]. *)
Definition Format (t : Time) : string :=
  dec 4 (year t) +:+ dec 2 (month t) +:+ dec 2 (day t) +:+ "-" +:+
  dec 2 (hour t) +:+ dec 2 (minute t) +:+ dec 2 (second t).

(** ** The file system *)

(** A file has a content, a modification time and the two permissions
    the program meets; a directory lets new entries be created or not. *)
Record file := File {
  content : string;
  mtime : Time;
  readable : bool;
  writable : bool
}.

Inductive node :=
  | NFile (f : file)
  | NDir (dir_writable : bool).

Abbreviation fsys := (gmap path node).

(** The error codes of the system the program can meet, and the text
    [syscall.Errno.Error()] gives for them. *)
Inductive Errno := ErrNotExist | ErrExist | ErrPermission | ErrIsDir | ErrNotDir | ErrIO.

Definition Errno_Error (e : Errno) : string :=
  match e with
  | ErrNotExist => "The system cannot find the file specified."
  | ErrExist => "Cannot create a file when that file already exists."
  | ErrPermission => "Access is denied."
  | ErrIsDir => "is a directory"
  | ErrNotDir => "not a directory"
  | ErrIO => "input/output error"
  end.

(** The errors of the calls on files: an [*os.PathError] names the
    operation and the path, an [*os.LinkError] the operation and the two
    paths, and both wrap the code of the system.  [err.Error()] prints
    the three. *)
Inductive error :=
  | PathError (Op : string) (Path : path) (Err : Errno)
  | LinkError (Op : string) (Old New : path) (Err : Errno).

Definition Unwrap (e : error) : Errno :=
  match e with
  | PathError _ _ err => err
  | LinkError _ _ _ err => err
  end.

Definition Error (e : error) : string :=
  match e with
  | PathError op p err => op +:+ " " +:+ show_path p +:+ ": " +:+ Errno_Error err
  | LinkError op old new err =>
      op +:+ " " +:+ show_path old +:+ " " +:+ show_path new +:+ ": " +:+ Errno_Error err
  end.

Definition IsNotExist (e : option error) : bool :=
  match e with
  | Some err => match Unwrap err with ErrNotExist => true | _ => false end
  | None => false
  end.

Definition is_nil (e : option error) : bool :=
  match e with None => true | Some _ => false end.

(** ** The operating system

    What the program cannot decide is an oracle indexed by the number of
    system calls made so far ([tick]): transient I/O failures, the clock,
    the behaviour of the programs it spawns (their output, exit status
    and effect on the file system), the resolution of a command name
    against a search path, the network and the terminal's input. *)

(** What a spawned program does: the text it prints, the error
    [exec.Cmd] returns for it ([None] is [nil]), and the file system it
    leaves. *)
Record proc_result := ProcResult {
  output : string;
  proc_err : option string;
  fs_after : fsys
}.

Record OS := {
  (** the system call on files made at this tick fails *)
  io_fault : nat → bool;
  (** how far an [io.Copy] between two files that fails at this tick
      got: the bytes it had written, and whether it is a write that
      failed rather than a read *)
  copy_fault : nat → nat * bool;
  (** [time.Now()] *)
  clock : nat → Time;
  (** the command line run at this tick on this file system *)
  run : nat → list string → fsys → proc_result;
  (** [exec.LookPath] at this tick, for the value of [PATH] and a name *)
  look_path : nat → string → string → bool;
  (** the request to [https://www.github.com] succeeds *)
  http_get : nat → bool;
  (** the line read from the standard input *)
  stdin_line : nat → string;
  (** [os.Executable()]: the path, or the text of its error *)
  executable : path + string;
  (** the directory an environment variable names *)
  env_dir : string → path
}.

(** What the program has written on the terminal: the lines of
    [writeStep], [writeSuccess], [writeSkip] and [writeFail], and any
    other text. *)
Inductive line :=
  | Step (m : string)
  | OK (m : string)
  | SKIP (m : string)
  | FAIL (m : string)
  | Text (m : string).

(** The state of a run: the oracle and the number of system calls made,
    the file system, the terminal, the command lines spawned so far, the
    [PATH] of the process, and the two global variables of the program. *)
Record World := mkWorld {
  os : OS;
  tick : nat;
  fs : fsys;
  console : list line;
  spawned : list (list string);
  PATH : string;
  failures : list string;
  scriptRoot : path
}.

Definition tock (w : World) : World :=
  mkWorld (os w) (S (tick w)) (fs w) (console w) (spawned w) (PATH w)
          (failures w) (scriptRoot w).

Definition set_fs (m : fsys) (w : World) : World :=
  mkWorld (os w) (tick w) m (console w) (spawned w) (PATH w)
          (failures w) (scriptRoot w).

Definition print (l : line) (w : World) : World :=
  mkWorld (os w) (tick w) (fs w) (console w ++ [l]) (spawned w) (PATH w)
          (failures w) (scriptRoot w).

Definition faulty (w : World) : bool := io_fault (os w) (tick w).

(** *** Helper functions *)

Definition writeStep (msg : string) (w : World) : World := print (Step msg) w.
Definition writeSuccess (msg : string) (w : World) : World := print (OK msg) w.
Definition writeSkip (msg : string) (w : World) : World := print (SKIP msg) w.

Definition writeFail (msg : string) (w : World) : World :=
  let w := print (FAIL msg) w in
  mkWorld (os w) (tick w) (fs w) (console w) (spawned w) (PATH w)
          (failures w ++ [msg]) (scriptRoot w).

(** *** System calls on files *)

Definition time_Now (w : World) : Time * World := (clock (os w) (tick w), tock w).

Definition os_Stat (p : path) (w : World) : option error * World :=
  (if faulty w then Some (PathError "CreateFile" p ErrIO)
   else match fs w !! p with
        | Some _ => None
        | None => Some (PathError "CreateFile" p ErrNotExist)
        end,
   tock w).

(** [os.Mkdir]: the name has to be free and the parent a directory that
    can be written. *)
Definition mkdir (p : path) (m : fsys) : option error * fsys :=
  match m !! p, m !! Dir p with
  | Some _, _ => (Some (PathError "mkdir" p ErrExist), m)
  | None, Some (NDir true) => (None, <[p := NDir true]> m)
  | None, Some (NDir false) => (Some (PathError "mkdir" p ErrPermission), m)
  | None, Some (NFile _) => (Some (PathError "mkdir" p ErrNotDir), m)
  | None, None => (Some (PathError "mkdir" p ErrNotExist), m)
  end.

(** [os.MkdirAll]: nothing to do for a directory that exists, otherwise
    the parent first; [n] bounds the depth by the length of the path. *)
Fixpoint mkdir_all (n : nat) (p : path) (m : fsys) : option error * fsys :=
  match m !! p with
  | Some (NDir _) => (None, m)
  | Some (NFile _) => (Some (PathError "mkdir" p ErrNotDir), m)
  | None =>
      match n with
      | O => (Some (PathError "mkdir" p ErrNotExist), m)
      | S n' =>
          match mkdir_all n' (Dir p) m with
          | (Some e, m') => (Some e, m')
          | (None, m') => mkdir p m'
          end
      end
  end.

Definition os_MkdirAll (p : path) (w : World) : option error * World :=
  if faulty w then (Some (PathError "mkdir" p ErrIO), tock w)
  else let '(e, m) := mkdir_all (length p) p (fs w) in (e, set_fs m (tock w)).

(** [os.Open]: read only; a directory opens, and fails when it is read. *)
Definition os_Open (p : path) (w : World) : option error * World :=
  (if faulty w then Some (PathError "open" p ErrIO)
   else match fs w !! p with
        | None => Some (PathError "open" p ErrNotExist)
        | Some (NDir _) => None
        | Some (NFile f) =>
            if readable f then None else Some (PathError "open" p ErrPermission)
        end,
   tock w).

(** Reading an open file to its end. *)
Definition read_all (p : path) (w : World) : (string * option error) * World :=
  (if faulty w then (EmptyString, Some (PathError "read" p ErrIO))
   else match fs w !! p with
        | Some (NFile f) => (content f, None)
        | Some (NDir _) => (EmptyString, Some (PathError "read" p ErrIsDir))
        | None => (EmptyString, Some (PathError "read" p ErrNotExist))
        end,
   tock w).

(** [os.Create]: [O_RDWR|O_CREATE|O_TRUNC]; an existing file is emptied,
    a new one needs a parent directory that can be written. *)
Definition os_Create (p : path) (w : World) : option error * World :=
  let now := clock (os w) (tick w) in
  if faulty w then (Some (PathError "open" p ErrIO), tock w)
  else match fs w !! p with
       | Some (NDir _) => (Some (PathError "open" p ErrIsDir), tock w)
       | Some (NFile f) =>
           if readable f && writable f
           then (None, set_fs (<[p := NFile (File EmptyString now (readable f) (writable f))]> (fs w)) (tock w))
           else (Some (PathError "open" p ErrPermission), tock w)
       | None =>
           match fs w !! Dir p with
           | Some (NDir true) =>
               (None, set_fs (<[p := NFile (File EmptyString now true true)]> (fs w)) (tock w))
           | Some (NDir false) => (Some (PathError "open" p ErrPermission), tock w)
           | Some (NFile _) => (Some (PathError "open" p ErrNotDir), tock w)
           | None => (Some (PathError "open" p ErrNotExist), tock w)
           end
       end.

(** Writing [data] at the end of the open file [p]. *)
Definition write_all (p : path) (data : string) (w : World) : World :=
  match fs w !! p with
  | Some (NFile f) =>
      set_fs (<[p := NFile (File (content f +:+ data) (clock (os w) (tick w))
                                 (readable f) (writable f))]> (fs w)) w
  | _ => w
  end.

(** [io.Copy(out, in)] between two open files.  The data goes through
    in pieces, each one read and then written: a copy that fails has
    written the pieces before the failure, and the oracle tells how many
    bytes that is and which of the two calls failed. *)
Definition io_Copy (dst src : path) (w : World) : option error * World :=
  if faulty w then
    match fs w !! src with
    | Some (NFile f) =>
        let '(n, on_write) := copy_fault (os w) (tick w) in
        (Some (if on_write then PathError "write" dst ErrIO
               else PathError "read" src ErrIO),
         write_all dst (substring 0 n (content f)) (tock w))
    | _ => (Some (PathError "read" src ErrIO), tock w)
    end
  else
    let '((data, e), w) := read_all src w in
    match e with
    | Some _ => (e, w)
    | None => (None, write_all dst data w)
    end.

(** *** fileHash, copyFile, deployConfigFile *)

Definition fileHash (p : path) (w : World) : (string * option error) * World :=
  let '(e, w) := os_Open p w in
  match e with
  | Some _ => ((EmptyString, e), w)
  | None =>
      let '((data, e), w) := read_all p w in
      match e with
      | Some _ => ((EmptyString, e), w)
      | None => ((sha256_hex data, None), w)
      end
  end.

Definition copyFile (src dst : path) (w : World) : option error * World :=
  let '(e, w) := os_Open src w in
  match e with
  | Some _ => (e, w)
  | None =>
      let '(e, w) := os_Create dst w in
      match e with
      | Some _ => (e, w)
      | None => io_Copy dst src w
      end
  end.

(** Lines 187-191: the copy of the source over the target and its report. *)
Definition deploy_copy (srcRel sourcePath target : path) (w : World) : World :=
  let '(e, w) := copyFile sourcePath target w in
  match e with
  | Some err =>
      writeFail ("Failed to deploy " +:+ show_path srcRel +:+ ": " +:+ Error err) w
  | None =>
      writeSuccess ("Deployed " +:+ show_path srcRel +:+ " -> " +:+ show_path target) w
  end.

Definition backupPath (target : path) (now : Time) : path :=
  add_suffix target (".bak." +:+ Format now).

(** Lines 181-184: the backup of the target, whose error is dropped. *)
Definition deploy_backup (target : path) (w : World) : World :=
  let '(now, w) := time_Now w in
  let '(_, w) := copyFile target (backupPath target now) w in
  print (Text ("Backed up existing file to " +:+ show_path (backupPath target now))) w.

Definition deployConfigFile (srcRel target : path) (w : World) : World :=
  let sourcePath := Join (scriptRoot w) srcRel in
  let '(e, w) := os_Stat sourcePath w in
  if IsNotExist e then writeFail ("Source config not found: " +:+ show_path srcRel) w
  else
    let targetDir := Dir target in
    let '(e, w) := os_MkdirAll targetDir w in
    if negb (is_nil e) then writeFail ("Failed to create directory: " +:+ show_path targetDir) w
    else
      let '(e, w) := os_Stat target w in
      if is_nil e then
        let '((srcHash, err1), w) := fileHash sourcePath w in
        let '((tgtHash, err2), w) := fileHash target w in
        if is_nil err1 && is_nil err2 && String.eqb srcHash tgtHash
        then writeSkip (show_path target +:+ " is up to date") w
        else deploy_copy srcRel sourcePath target (deploy_backup target w)
      else deploy_copy srcRel sourcePath target w.

(** *** Processes *)

Definition spawn (cmdline : list string) (w : World) : proc_result * World :=
  let r := run (os w) (tick w) cmdline (fs w) in
  (r, mkWorld (os w) (S (tick w)) (fs_after r) (console w)
              (spawned w ++ [cmdline]) (PATH w) (failures w) (scriptRoot w)).

Definition failed (e : option string) : bool :=
  match e with Some _ => true | None => false end.

Definition runCmd (name : string) (args : list string) (w : World)
  : (string * option string) * World :=
  let '(r, w) := spawn (name :: args) w in
  ((TrimSpace (output r), proc_err r), w).

Definition runCmdPassthrough (name : string) (args : list string) (w : World)
  : option string * World :=
  let '(r, w) := spawn (name :: args) w in
  (proc_err r, w).

Definition Setenv_PATH (v : string) (w : World) : World :=
  mkWorld (os w) (tick w) (fs w) (console w) (spawned w) v
          (failures w) (scriptRoot w).

Definition refreshPath (w : World) : World :=
  let '(r, w) :=
    spawn ["powershell"; "-NoProfile"; "-Command";
           "[Environment]::GetEnvironmentVariable('Path','Machine') + ';' + [Environment]::GetEnvironmentVariable('Path','User')"] w in
  if failed (proc_err r) then w else Setenv_PATH (TrimSpace (output r)) w.

Definition commandExists (name : string) (w : World) : bool * World :=
  (look_path (os w) (tick w) (PATH w) name, tock w).

Definition installWingetPackage (packageID displayName : string) (w : World) : World :=
  let '((out, _), w) :=
    runCmd "winget" ["list"; "--id"; packageID; "--accept-source-agreements"] w in
  if Contains out packageID then writeSkip (displayName +:+ " already installed") w
  else
    let w := print (Text ("Installing " +:+ displayName +:+ "...")) w in
    let '(err, w) :=
      runCmdPassthrough "winget"
        ["install"; "--id"; packageID; "--exact"; "--accept-source-agreements";
         "--accept-package-agreements"; "--silent"] w in
    if failed err
    then writeFail ("Failed to install " +:+ displayName +:+ " (" +:+ packageID +:+ ")") w
    else writeSuccess (displayName +:+ " installed") (refreshPath w).

Definition installScoopPackage (pkg bucket : string) (w : World) : World :=
  let '((out, _), w) := runCmd "scoop" ["list"] w in
  if Contains out pkg then writeSkip (pkg +:+ " already installed (scoop)") w
  else
    let w :=
      if negb (String.eqb bucket "") then
        let '((bucketOut, _), w) := runCmd "scoop" ["bucket"; "list"] w in
        if negb (Contains bucketOut bucket) then
          let w := print (Text ("Adding scoop bucket '" +:+ bucket +:+ "'...")) w in
          (runCmd "scoop" ["bucket"; "add"; bucket] w).2
        else w
      else w in
    let w := print (Text ("Installing " +:+ pkg +:+ " via scoop...")) w in
    let '(err, w) := runCmdPassthrough "scoop" ["install"; pkg] w in
    if failed err then writeFail ("Failed to install " +:+ pkg +:+ " via scoop") w
    else writeSuccess (pkg +:+ " installed (scoop)") (refreshPath w).

Definition setGitConfigIfMissing (key value : string) (w : World) : World :=
  let '((current, _), w) := runCmd "git" ["config"; "--global"; "--get"; key] w in
  if negb (String.eqb current "")
  then writeSkip ("git " +:+ key +:+ " already set to '" +:+ current +:+ "'") w
  else
    let w := (runCmd "git" ["config"; "--global"; key; value] w).2 in
    writeSuccess ("git " +:+ key +:+ " set to '" +:+ value +:+ "'") w.

Definition promptInput (prompt : string) (w : World) : string * World :=
  let w := print (Text prompt) w in
  (TrimSpace (stdin_line (os w) (tick w)), tock w).

(** *** extractVersion

    The loop of [extractVersion]: [i] is the index of the first byte of
    [rest] in [s], [start] is -1 ([None]) or the index of the first
    digit.  The Go loop ranges over runes; a byte of a multi-byte rune is
    neither a digit nor a dot, so that ranging over bytes takes the same
    branches at the same indices. *)

Definition is_digit (c : ascii) : bool :=
  (48 <=? nat_of_ascii c) && (nat_of_ascii c <=? 57).

Definition is_dot (c : ascii) : bool := nat_of_ascii c =? 46.

Fixpoint extractVersion_loop (s rest : string) (i : nat) (start : option nat) : string :=
  match rest with
  | EmptyString =>
      match start with
      | Some st => substring st (String.length s - st) s
      | None => s
      end
  | String c rest' =>
      if is_digit c then
        extractVersion_loop s rest' (S i)
          (match start with None => Some i | Some _ => start end)
      else if is_dot c && bool_decide (start ≠ None) then
        extractVersion_loop s rest' (S i) start
      else
        match start with
        | Some st => substring st (i - st) s
        | None => extractVersion_loop s rest' (S i) start
        end
  end.

Definition extractVersion (s : string) : string := extractVersion_loop s s 0 None.

(** *** Directory trees (step 13) *)

Definition rebase (old new k : path) : path :=
  if bool_decide (old `prefix_of` k) then new ++ drop (length old) k else k.

Definition move_tree (old new : path) (m : fsys) : fsys :=
  map_fold (λ k v acc, <[rebase old new k := v]> acc) ∅ m.

(** [os.Rename]: a file replaces a file, nothing replaces or is replaced
    by a directory. *)
Definition os_Rename (old new : path) (w : World) : option error * World :=
  if faulty w then (Some (LinkError "rename" old new ErrIO), tock w)
  else match fs w !! old, fs w !! new with
       | None, _ => (Some (LinkError "rename" old new ErrNotExist), tock w)
       | Some (NFile _), Some (NFile _) =>
           (None, set_fs (move_tree old new (delete new (fs w))) (tock w))
       | Some _, Some _ => (Some (LinkError "rename" old new ErrPermission), tock w)
       | Some _, None => (None, set_fs (move_tree old new (fs w)) (tock w))
       end.

Definition os_RemoveAll (p : path) (w : World) : option error * World :=
  if faulty w then (Some (PathError "remove" p ErrIO), tock w)
  else (None, set_fs (filter (λ kv, ¬ p `prefix_of` kv.1) (fs w)) (tock w)).

(** *** main

    The colour escape sequences and the indentation of the messages are
    left out; [enableVirtualTerminal] only changes the console mode. *)

Definition prints (ls : list string) (w : World) : World :=
  foldl (λ w l, print (Text l) w) w ls.

Definition set_scriptRoot (p : path) (w : World) : World :=
  mkWorld (os w) (tick w) (fs w) (console w) (spawned w) (PATH w)
          (failures w) p.

Definition rule : string := "========================================".

(** Lines 232-268: [Some code] when the run stops with [os.Exit(code)]. *)
Definition preflight (w : World) : option nat * World :=
  match executable (os w) with
  | inr err => (Some 1, print (Text ("ERROR: Cannot determine executable path: " +:+ err)) w)
  | inl exePath =>
      let w := set_scriptRoot (Dir exePath) w in
      let w := prints [""; rule; "  Windows Dev Environment Setup"; rule] w in
      let w := writeStep "Running preflight checks" w in
      let '(found, w) := commandExists "winget" w in
      if negb found then
        (Some 1,
         prints [""; "ERROR: winget is not available.";
                 "Install 'App Installer' from the Microsoft Store, then re-run this program.";
                 "https://apps.microsoft.com/detail/9NBLGGH4NNS1"] w)
      else
        let w := writeSuccess "winget found" w in
        let reached := http_get (os w) (tick w) in
        let w := tock w in
        if negb reached then
          (Some 1,
           prints [""; "ERROR: Cannot reach github.com. Check your internet connection."] w)
        else (None, writeSuccess "Internet connectivity OK" w)
  end.

Definition step_scoop (w : World) : World :=
  let w := writeStep "Step 1/13: Scoop (package manager)" w in
  let '(found, w) := commandExists "scoop" w in
  if found then writeSkip "Scoop already installed" w
  else
    let w := print (Text "Installing Scoop...") w in
    let '(err, w) :=
      runCmdPassthrough "powershell"
        ["-NoProfile"; "-Command"; "Invoke-RestMethod get.scoop.sh | Invoke-Expression"] w in
    match err with
    | Some e => writeFail ("Failed to install Scoop: " +:+ e) w
    | None => writeSuccess "Scoop installed" (refreshPath w)
    end.

(** One of the two identity prompts of lines 296-317. *)
Definition git_identity (key current what example : string) (w : World) : World :=
  if String.eqb current "" then
    let w := print (Text ("Git " +:+ key +:+ " not configured.")) w in
    let '(input, w) := promptInput ("Enter your " +:+ what +:+ " (e.g. " +:+ example +:+ "): ") w in
    if negb (String.eqb input "") then
      let w := (runCmd "git" ["config"; "--global"; key; input] w).2 in
      writeSuccess ("git " +:+ key +:+ " set to '" +:+ input +:+ "'") w
    else w
  else writeSkip ("git " +:+ key +:+ " already set to '" +:+ current +:+ "'") w.

Definition step_git (w : World) : World :=
  let w := writeStep "Step 2/13: Git" w in
  let w := installWingetPackage "Git.Git" "Git" w in
  let '(found, w) := commandExists "git" w in
  if found then
    let '((gitName, _), w) := runCmd "git" ["config"; "--global"; "--get"; "user.name"] w in
    let '((gitEmail, _), w) := runCmd "git" ["config"; "--global"; "--get"; "user.email"] w in
    let w := (if String.eqb gitName "" then print (Text "") w else w) in
    let w := git_identity "user.name" gitName "name" "John Doe" w in
    git_identity "user.email" gitEmail "email" "john@example.com" w
  else w.

Definition step_font (w : World) : World :=
  installScoopPackage "JetBrainsMono-NF" "nerd-fonts"
    (writeStep "Step 3/13: JetBrainsMono Nerd Font" w).

Definition step_winget (banner packageID displayName : string) (w : World) : World :=
  installWingetPackage packageID displayName (writeStep banner w).

Definition step_node (w : World) : World :=
  let w := writeStep "Step 8/13: Node.js LTS (via Volta)" w in
  let '(found, w) := commandExists "node" w in
  if found then
    let '((nodeVersion, _), w) := runCmd "node" ["--version"] w in
    writeSkip ("Node.js already installed (" +:+ nodeVersion +:+ ")") w
  else
    let '(volta, w) := commandExists "volta" w in
    if volta then
      let w := print (Text "Installing Node.js LTS via Volta...") w in
      let '(err, w) := runCmdPassthrough "volta" ["install"; "node"] w in
      if failed err then writeFail "Failed to install Node.js via Volta" w
      else writeSuccess "Node.js LTS installed via Volta" (refreshPath w)
    else writeFail "Volta not found - cannot install Node.js" w.

Definition step_lazyvim (w : World) : World :=
  let w := writeStep "Step 13/13: LazyVim (Neovim distribution)" w in
  let localAppData := env_dir (os w) "LOCALAPPDATA" in
  let nvimConfigDir := Join localAppData ["nvim"] in
  let lazyVimMarker := Join nvimConfigDir ["lua"; "config"; "lazy.lua"] in
  let '(e, w) := os_Stat lazyVimMarker w in
  if is_nil e then writeSkip "LazyVim already configured" w
  else
    let '(git, w) := commandExists "git" w in
    if git then
      let '(e, w) := os_Stat nvimConfigDir w in
      let w :=
        if is_nil e then
          let '(now, w) := time_Now w in
          let backupDir := backupPath nvimConfigDir now in
          let w := print (Text ("Backing up existing nvim config to " +:+ show_path backupDir)) w in
          (os_Rename nvimConfigDir backupDir w).2
        else w in
      let w := print (Text "Cloning LazyVim starter...") w in
      let '(err, w) :=
        runCmdPassthrough "git"
          ["clone"; "https://github.com/LazyVim/starter"; show_path nvimConfigDir] w in
      if failed err then writeFail "Failed to clone LazyVim starter" w
      else
        let w := (os_RemoveAll (Join nvimConfigDir [".git"]) w).2 in
        writeSuccess ("LazyVim starter cloned to " +:+ show_path nvimConfigDir) w
    else writeFail "Git not found - cannot clone LazyVim starter" w.

Definition deploy_configs (w : World) : World :=
  let w := writeStep "Deploying configuration files" w in
  let userProfile := env_dir (os w) "USERPROFILE" in
  let appData := env_dir (os w) "APPDATA" in
  let w := deployConfigFile ["configs"; "wezterm"; ".wezterm.lua"]
                            (Join userProfile [".wezterm.lua"]) w in
  let w := deployConfigFile ["configs"; "nushell"; "config.nu"]
                            (Join appData ["nushell"; "config.nu"]) w in
  let w := deployConfigFile ["configs"; "nushell"; "env.nu"]
                            (Join appData ["nushell"; "env.nu"]) w in
  deployConfigFile ["configs"; "starship"; "starship.toml"]
                   (Join userProfile [".config"; "starship.toml"]) w.

Definition git_defaults (w : World) : World :=
  let w := writeStep "Configuring Git defaults" w in
  let '(found, w) := commandExists "git" w in
  if found then
    let w := setGitConfigIfMissing "core.editor" "nvim" w in
    let w := setGitConfigIfMissing "core.autocrlf" "true" w in
    let w := setGitConfigIfMissing "init.defaultBranch" "main" w in
    let w := setGitConfigIfMissing "pull.rebase" "true" w in
    let w := setGitConfigIfMissing "diff.colorMoved" "default" w in
    setGitConfigIfMissing "merge.conflictstyle" "diff3" w
  else writeFail "Git not found - skipping git config" w.

Record tool := Tool { name : string; cmd : string; args : string }.

Definition tools : list tool :=
  [ Tool "git" "git" "--version";
    Tool "scoop" "scoop" "--version";
    Tool "zig" "zig" "version";
    Tool "rg" "rg" "--version";
    Tool "fd" "fd" "--version";
    Tool "volta" "volta" "--version";
    Tool "node" "node" "--version";
    Tool "nu" "nu" "--version";
    Tool "starship" "starship" "--version";
    Tool "wezterm" "wezterm" "--version";
    Tool "nvim" "nvim" "--version" ].

(** [version[:idx]] for the first line feed, the whole text without one. *)
Fixpoint first_line (s : string) : string :=
  match s with
  | EmptyString => EmptyString
  | String c s' => if nat_of_ascii c =? 10 then EmptyString else String c (first_line s')
  end.

(** The verb [%-16s]. *)
Definition pad16 (s : string) : string :=
  s +:+ string_of_list_ascii (replicate (16 - String.length s) " "%char).

Definition report_tool (w : World) (t : tool) : World :=
  let '(found, w) := commandExists (cmd t) w in
  if found then
    let '((out, _), w) := runCmd (cmd t) [args t] w in
    print (Text (pad16 (name t) +:+ extractVersion (first_line out))) w
  else print (Text (pad16 (name t) +:+ "NOT FOUND")) w.

Definition verify (w : World) : World :=
  let w := writeStep "Verifying installations" w in
  let w := refreshPath w in
  let w := prints [""; "Tool            Version"; "────            ───────"] w in
  foldl report_tool w tools.

(** Lines 270-490, in the order of the source. *)
Definition pipeline : list (World → World) :=
  [ step_scoop;
    step_git;
    step_font;
    step_winget "Step 4/13: Zig (C compiler for Treesitter)" "zig.zig" "Zig";
    step_winget "Step 5/13: ripgrep" "BurntSushi.ripgrep.MSVC" "ripgrep";
    step_winget "Step 6/13: fd" "sharkdp.fd" "fd";
    step_winget "Step 7/13: Volta (JS toolchain manager)" "Volta.Volta" "Volta";
    step_node;
    step_winget "Step 9/13: Nushell" "Nushell.Nushell" "Nushell";
    step_winget "Step 10/13: Starship (prompt)" "Starship.Starship" "Starship";
    step_winget "Step 11/13: WezTerm" "wez.wezterm" "WezTerm";
    step_winget "Step 12/13: Neovim" "Neovim.Neovim" "Neovim";
    step_lazyvim;
    deploy_configs;
    git_defaults;
    verify ].

Definition run_steps (steps : list (World → World)) (w : World) : World :=
  foldl (λ w step, step w) w steps.

(** [%d] of a slice length. *)
Fixpoint dec_nat (fuel n : nat) : string :=
  match fuel with
  | O => EmptyString
  | S fuel' =>
      (if n <? 10 then EmptyString else dec_nat fuel' (n / 10))
      +:+ String (digit_char (n mod 10)) EmptyString
  end.

(** Lines 492-514. *)
Definition summary (w : World) : World :=
  let w := print (Text "") w in
  let w :=
    if 0 <? length (failures w) then
      let w := prints [rule;
                       "  Completed with " +:+ dec_nat (S (length (failures w))) (length (failures w))
                         +:+ " failure(s):";
                       rule] w in
      let w := prints ((λ fail, "  - " +:+ fail) <$> failures w) w in
      print (Text "") w
    else prints [rule; "  All done! No failures."; rule] w in
  prints [""; "Next steps:";
          "  1. Open WezTerm - it launches Nushell automatically";
          "  2. Run 'nvim' to trigger first-time LazyVim plugin install (~1-2 min)";
          "  3. Customize configs in this repo's configs/ directory, re-run setup to apply";
          ""] w.

(** The exit code of the process and the world it leaves. *)
Definition main (w : World) : nat * World :=
  let '(exit, w) := preflight w in
  match exit with
  | Some code => (code, w)
  | None => (0, summary (run_steps pipeline w))
  end.

(** ** Definitions used by the statements *)

(** The phases of [deployConfigFile]: what lines 160-179 decide, and the
    world in which lines 181-191 start. *)
Inductive verdict :=
  | SourceMissing
  | NoDirectory
  | UpToDate
  | Differs (srcHash tgtHash : string) (err1 err2 : option error)
  | NoTarget.

Definition deploy_check (srcRel target : path) (w : World) : verdict * World :=
  let sourcePath := Join (scriptRoot w) srcRel in
  let '(e, w) := os_Stat sourcePath w in
  if IsNotExist e
  then (SourceMissing, writeFail ("Source config not found: " +:+ show_path srcRel) w)
  else
    let targetDir := Dir target in
    let '(e, w) := os_MkdirAll targetDir w in
    if negb (is_nil e)
    then (NoDirectory, writeFail ("Failed to create directory: " +:+ show_path targetDir) w)
    else
      let '(e, w) := os_Stat target w in
      if is_nil e then
        let '((srcHash, err1), w) := fileHash sourcePath w in
        let '((tgtHash, err2), w) := fileHash target w in
        if is_nil err1 && is_nil err2 && String.eqb srcHash tgtHash
        then (UpToDate, writeSkip (show_path target +:+ " is up to date") w)
        else (Differs srcHash tgtHash err1 err2, w)
      else (NoTarget, w).

(** The last line a call wrote on the terminal. *)
Definition reported (w w' : World) : option line :=
  last (drop (length (console w)) (console w')).

Definition Deployed (srcRel target : path) : line :=
  OK ("Deployed " +:+ show_path srcRel +:+ " -> " +:+ show_path target).

Definition IsUpToDate (target : path) : line :=
  SKIP (show_path target +:+ " is up to date").

Definition BackedUp (target : path) (now : Time) : line :=
  Text ("Backed up existing file to " +:+ show_path (backupPath target now)).

(** The specification's words for [extractVersion]: skip to the first
    digit, then take digits and dots as long as they last. *)
Fixpoint skip_to_digit (s : string) : string :=
  match s with
  | EmptyString => EmptyString
  | String c s' => if is_digit c then s else skip_to_digit s'
  end.

Fixpoint digits_and_dots (s : string) : string :=
  match s with
  | EmptyString => EmptyString
  | String c s' =>
      if is_digit c || is_dot c then String c (digits_and_dots s') else EmptyString
  end.

Definition first_version_run (s : string) : string :=
  match skip_to_digit s with
  | EmptyString => s
  | t => digits_and_dots t
  end.

(** The failure messages and the step banners among terminal lines. *)
Fixpoint fails_of (out : list line) : list string :=
  match out with
  | [] => []
  | FAIL m :: out' => m :: fails_of out'
  | _ :: out' => fails_of out'
  end.

Fixpoint steps_of (out : list line) : list string :=
  match out with
  | [] => []
  | Step m :: out' => m :: steps_of out'
  | _ :: out' => steps_of out'
  end.

(** [w'] comes after [w] and only the file system and the clock moved. *)
Definition quiet (w w' : World) : Prop :=
  os w' = os w ∧ scriptRoot w' = scriptRoot w ∧ console w' = console w ∧
  failures w' = failures w ∧ spawned w' = spawned w ∧ PATH w' = PATH w ∧
  tick w ≤ tick w'.

(** No system call on files fails for a transient reason from [w] on. *)
Definition fault_free (w : World) : Prop :=
  ∀ t, tick w ≤ t → io_fault (os w) t = false.

(** [m'] is [m] with some new directories on the way to [p]. *)
Definition grows (p : path) (m m' : fsys) : Prop :=
  ∀ k, m' !! k = m !! k ∨
       (m !! k = None ∧ m' !! k = Some (NDir true) ∧ k `prefix_of` p ∧ k ≠ []).

(** The backup invariant of the specification, for one call: with a
    source file in place, a file appears at the target path plus
    [".bak."] and a time stamp if and only if a file was at the target
    path and its fingerprint differed from the source's. *)
Definition backup_invariant (srcRel target : path) (w : World) : Prop :=
  let w' := deployConfigFile srcRel target w in
  ∀ fsrc, fs w !! Join (scriptRoot w) srcRel = Some (NFile fsrc) →
    (∃ t fb, fs w !! backupPath target t = None ∧
             fs w' !! backupPath target t = Some (NFile fb))
    ↔
    (∃ ft, fs w !! target = Some (NFile ft) ∧
           sha256_hex (content ft) ≠ sha256_hex (content fsrc)).

(** The call finds a node at the target path and reaches line 176 in
    world [w5], [r1] and [r2] being what the two calls of [fileHash]
    returned. *)
Definition compared (srcRel target : path) (w : World)
    (r1 r2 : string * option error) (w5 : World) : Prop :=
  ∃ e0 w1 w2 w3 w4,
    os_Stat (Join (scriptRoot w) srcRel) w = (e0, w1) ∧ IsNotExist e0 = false ∧
    os_MkdirAll (Dir target) w1 = (None, w2) ∧
    os_Stat target w2 = (None, w3) ∧
    fileHash (Join (scriptRoot w) srcRel) w3 = (r1, w4) ∧
    fileHash target w4 = (r2, w5).

(** A node with its modification time set aside. *)
Definition forget (n : node) : node :=
  match n with
  | NFile f => NFile (File (content f) (mkTime 0 0 0 0 0 0) (readable f) (writable f))
  | NDir b => NDir b
  end.

(** Two worlds that differ in the modification times of their files
    only. *)
Definition same_but_mtime (w1 w2 : World) : Prop :=
  os w1 = os w2 ∧ tick w1 = tick w2 ∧
  (∀ k, forget <$> fs w1 !! k = forget <$> fs w2 !! k) ∧
  console w1 = console w2 ∧ spawned w1 = spawned w2 ∧ PATH w1 = PATH w2 ∧
  failures w1 = failures w2 ∧ scriptRoot w1 = scriptRoot w2.

(** Two file systems that differ in modification times only. *)
Definition msim (m1 m2 : fsys) : Prop :=
  ∀ k, forget <$> m1 !! k = forget <$> m2 !! k.

(** A call that returns the same value in similar worlds and leaves them
    similar. *)
Definition respects {A} (f : World → A * World) : Prop :=
  ∀ w1 w2, same_but_mtime w1 w2 →
    (f w1).1 = (f w2).1 ∧ same_but_mtime (f w1).2 (f w2).2.

(** What the run wrote since [w0]: the banners [bs] among it, and the
    failure log grown by its [FAIL] lines. *)
Definition Inv (w0 : World) (bs : list string) (w : World) : Prop :=
  ∃ out, console w = console w0 ++ out ∧
         failures w = failures w0 ++ fails_of out ∧
         steps_of out = bs.

(** What a step reports after its banner: a line of [writeSuccess],
    [writeSkip] or [writeFail], or, for the verification, the head of
    its table. *)
Definition is_report (l : line) : bool :=
  match l with
  | OK _ | SKIP _ | FAIL _ => true
  | Text m => String.eqb m "Tool            Version"
  | Step _ => false
  end.

(** [w] comes after [w0], and a report was written in between. *)
Definition Rep (w0 w : World) : Prop :=
  ∃ out, console w = console w0 ++ out ∧ existsb is_report out = true.

(** The call ends with the line [FAIL m], the only failure it writes,
    and [m] is the one entry it adds to the failure log. *)
Definition logged (m : string) (w w' : World) : Prop :=
  ∃ out, console w' = console w ++ out ++ [FAIL m] ∧ fails_of out = [] ∧
         failures w' = failures w ++ [m].

(** The banners of lines 270-448, in the order of the source. *)
Definition banners : list string :=
  [ "Step 1/13: Scoop (package manager)";
    "Step 2/13: Git";
    "Step 3/13: JetBrainsMono Nerd Font";
    "Step 4/13: Zig (C compiler for Treesitter)";
    "Step 5/13: ripgrep";
    "Step 6/13: fd";
    "Step 7/13: Volta (JS toolchain manager)";
    "Step 8/13: Node.js LTS (via Volta)";
    "Step 9/13: Nushell";
    "Step 10/13: Starship (prompt)";
    "Step 11/13: WezTerm";
    "Step 12/13: Neovim";
    "Step 13/13: LazyVim (Neovim distribution)";
    "Deploying configuration files";
    "Configuring Git defaults";
    "Verifying installations" ].

(** ** Definitions used by the further properties *)

(** Every byte of [s] satisfies [P]. *)
Fixpoint all_bytes (P : ascii → bool) (s : string) : bool :=
  match s with
  | EmptyString => true
  | String c s' => P c && all_bytes P s'
  end.

(** A sequence of white space characters, or nothing. *)
Fixpoint blank (s : string) : bool :=
  match s with
  | EmptyString => true
  | String a s1 =>
      is_space a && blank s1
      || match s1 with
         | String b s2 =>
             is_space2 a b && blank s2
             || match s2 with
                | String c s3 => is_space3 a b c && blank s3
                | EmptyString => false
                end
         | EmptyString => false
         end
  end.

Definition is_lf (c : ascii) : bool := nat_of_ascii c =? 10.

(** No line feed. *)
Definition one_line (s : string) : bool := all_bytes (λ c, negb (is_lf c)) s.

Definition has_digit (s : string) : bool :=
  negb (all_bytes (λ c, negb (is_digit c)) s).

Definition version_byte (c : ascii) : bool := is_digit c || is_dot c.

(** The digits [%x] writes. *)
Definition lower_hex (c : ascii) : bool :=
  is_digit c || ((97 <=? nat_of_ascii c) && (nat_of_ascii c <=? 102)).

(** The command line of [refreshPath]. *)
Definition refresh_command : list string :=
  ["powershell"; "-NoProfile"; "-Command";
   "[Environment]::GetEnvironmentVariable('Path','Machine') + ';' + [Environment]::GetEnvironmentVariable('Path','User')"].

(** The value of a hexadecimal digit, and the bytes a string of such
    digits stands for. *)
Definition hex_value (c : ascii) : Z :=
  let n := Z.of_nat (nat_of_ascii c) in
  (if n <? 58 then n - 48 else n - 87)%Z.

Fixpoint unhex (s : string) : list Z :=
  match s with
  | String a (String b s') => (16 * hex_value a + hex_value b)%Z :: unhex s'
  | _ => []
  end.

(** A time of the calendar whose year has four digits at most. *)
Definition valid_time (t : Time) : Prop :=
  year t < 10 ^ 4 ∧ 1 ≤ month t ≤ 12 ∧ 1 ≤ day t ≤ 31 ∧
  hour t < 24 ∧ minute t < 60 ∧ second t < 60.

(** The first comparison that is not [Eq]. *)
Definition lex (c1 c2 : comparison) : comparison :=
  match c1 with Eq => c2 | _ => c1 end.

(** Which of two times comes first. *)
Definition time_compare (t1 t2 : Time) : comparison :=
  lex (year t1 ?= year t2) (lex (month t1 ?= month t2) (lex (day t1 ?= day t2)
    (lex (hour t1 ?= hour t2) (lex (minute t1 ?= minute t2) (second t1 ?= second t2))))).

(** The last lines of a run. *)
Definition next_steps : list string :=
  [""; "Next steps:";
   "  1. Open WezTerm - it launches Nushell automatically";
   "  2. Run 'nvim' to trigger first-time LazyVim plugin install (~1-2 min)";
   "  3. Customize configs in this repo's configs/ directory, re-run setup to apply";
   ""].

(** The status a call of [deployConfigFile] may end with. *)
Definition deploy_status (srcRel target : path) (l : line) : Prop :=
  l = Deployed srcRel target ∨ l = IsUpToDate target ∨ ∃ m, l = FAIL m.

(** [w'] comes after [w] in a run: the same outside world, later, and
    more on the terminal. *)
Definition follows (w w' : World) : Prop :=
  os w' = os w ∧ tick w ≤ tick w' ∧ ∃ out, console w' = console w ++ out.

(** ** Worlds to run the program in *)

Module Sample.

Definition noon : Time := mkTime 2024 3 9 12 0 0.
Definition later : Time := mkTime 2024 3 9 14 5 7.

(** Nothing fails, every command is found, succeeds and prints nothing. *)
Definition calm : OS := {|
  io_fault := λ _, false;
  copy_fault := λ _, (0, false);
  clock := λ _, later;
  run := λ _ _ m, ProcResult "" None m;
  look_path := λ _ _ _, true;
  http_get := λ _, true;
  stdin_line := λ _, "";
  executable := inl ["C:"; "setup"; "setup.exe"];
  env_dir := λ _, ["C:"; "home"]
|}.

Definition root : path := ["C:"; "setup"].
Definition rel : path := ["a.conf"].
Definition src : path := ["C:"; "setup"; "a.conf"].
Definition tgt : path := ["C:"; "home"; "a.conf"].

Definition plain (c : string) : node := NFile (File c noon true true).
Definition locked (c : string) : node := NFile (File c noon false true).

Definition boot (o : OS) (m : fsys) : World :=
  mkWorld o 0 m [] [] "" [] root.

(** The source holds ["X"]; [home] is the node of the target's directory
    and [old] the node at the target path, if any. *)
Definition disk (source home : node) (old : option node) : fsys :=
  let m : fsys :=
    <[ ["C:"] := NDir true ]> (<[ root := NDir true ]>
      (<[ src := source ]> (<[ ["C:"; "home"] := home ]> ∅))) in
  match old with
  | Some n => <[ tgt := n ]> m
  | None => m
  end.

(** No target yet. *)
Definition fresh : World := boot calm (disk (plain "X") (NDir true) None).

(** The target was edited to ["Y"]. *)
Definition edited : World := boot calm (disk (plain "X") (NDir true) (Some (plain "Y"))).

(** The same, beside the backup of an earlier call. *)
Definition rerun : World :=
  boot calm (<[backupPath tgt noon := plain "W"]>
               (disk (plain "X") (NDir true) (Some (plain "Y")))).

(** The same, where a file is already at the backup path of the current
    second. *)
Definition crowded : World :=
  boot calm (<[backupPath tgt later := plain "W"]>
               (disk (plain "X") (NDir true) (Some (plain "Y")))).

(** The same contents as [edited] with other modification times: the
    source is newer than the target. *)
Definition touched : World :=
  boot calm (disk (NFile (File "X" later true true)) (NDir true)
                  (Some (NFile (File "Y" (mkTime 1999 12 31 23 59 59) true true)))).

(** The same, in a directory in which no file can be created. *)
Definition sealed : World := boot calm (disk (plain "X") (NDir false) (Some (plain "Y"))).

(** The same content on both sides, and a source that cannot be read. *)
Definition guarded : World := boot calm (disk (locked "X") (NDir true) (Some (plain "X"))).

(** A source that cannot be read, beside the edited target. *)
Definition unreadable : World := boot calm (disk (locked "X") (NDir true) (Some (plain "Y"))).

(** The fourth system call, which opens the source to hash it, fails
    once; the content is the same on both sides. *)
Definition hiccup : OS := {|
  io_fault := λ t, t =? 3;
  copy_fault := copy_fault calm;
  clock := clock calm;
  run := run calm;
  look_path := look_path calm;
  http_get := http_get calm;
  stdin_line := stdin_line calm;
  executable := executable calm;
  env_dir := env_dir calm
|}.

Definition flaky : World := boot hiccup (disk (plain "X") (NDir true) (Some (plain "X"))).

(** The tenth system call fails once: in a second deploy into a directory
    without the target, it opens the source to hash it. *)
Definition relapse_os : OS := {|
  io_fault := λ t, t =? 9;
  copy_fault := copy_fault calm;
  clock := clock calm;
  run := run calm;
  look_path := look_path calm;
  http_get := http_get calm;
  stdin_line := stdin_line calm;
  executable := executable calm;
  env_dir := env_dir calm
|}.

Definition relapse : World := boot relapse_os (disk (plain "X") (NDir true) None).

(** Only [winget] is found, every command fails and no source file is
    there to deploy. *)
Definition hostile_os : OS := {|
  io_fault := λ _, false;
  copy_fault := λ _, (0, false);
  clock := λ _, later;
  run := λ _ _ m, ProcResult "error" (Some "exit status 1") m;
  look_path := λ _ _ name, String.eqb name "winget";
  http_get := λ _, true;
  stdin_line := λ _, "";
  executable := inl ["C:"; "setup"; "setup.exe"];
  env_dir := λ _, ["C:"; "home"]
|}.

Definition hostile : World := boot hostile_os (disk (NDir true) (NDir true) None).

(** The path of the executable is not known; [winget] and the network are
    there. *)
Definition homeless_os : OS := {|
  io_fault := io_fault calm;
  copy_fault := copy_fault calm;
  clock := clock calm;
  run := run calm;
  look_path := look_path calm;
  http_get := http_get calm;
  stdin_line := stdin_line calm;
  executable := inr "no such process";
  env_dir := env_dir calm
|}.

Definition homeless : World := boot homeless_os (disk (plain "X") (NDir true) None).

(** Every listing shows Git and the font. *)
Definition stocked_os : OS := {|
  io_fault := io_fault calm;
  copy_fault := copy_fault calm;
  clock := clock calm;
  run := λ _ _ m, ProcResult "  Git  Git.Git  2.43.0  winget  JetBrainsMono-NF  3.1  " None m;
  look_path := look_path calm;
  http_get := http_get calm;
  stdin_line := stdin_line calm;
  executable := executable calm;
  env_dir := env_dir calm
|}.

Definition stocked : World := boot stocked_os (disk (plain "X") (NDir true) None).
End Sample.

(** ** More worlds *)

Module Cases.
Import Sample.

(** Every command is found, prints nothing and fails. *)
Definition mute_os : OS := {|
  io_fault := io_fault calm;
  copy_fault := copy_fault calm;
  clock := clock calm;
  run := λ _ _ m, ProcResult "" (Some "exit status 1") m;
  look_path := look_path calm;
  http_get := http_get calm;
  stdin_line := stdin_line calm;
  executable := executable calm;
  env_dir := env_dir calm
|}.

Definition mute : World := boot mute_os (disk (plain "X") (NDir true) None).

(** The third system call on files, the copy of the source, fails after
    five bytes went through. *)
Definition stumble_os : OS := {|
  io_fault := λ t, t =? 2;
  copy_fault := λ _, (5, false);
  clock := clock calm;
  run := run calm;
  look_path := look_path calm;
  http_get := http_get calm;
  stdin_line := stdin_line calm;
  executable := executable calm;
  env_dir := env_dir calm
|}.

Definition stumble : World :=
  boot stumble_os (disk (plain "first second") (NDir true) (Some (plain "Y"))).

(** The configuration of Neovim, and the marker of LazyVim in it. *)
Definition nvim : path := ["C:"; "home"; "nvim"].
Definition marker : path := ["C:"; "home"; "nvim"; "lua"; "config"; "lazy.lua"].

(** LazyVim is in place. *)
Definition configured : World :=
  boot calm (<[marker := plain "return {}"]> (<[nvim := NDir true]>
               (disk (plain "X") (NDir true) None))).

(** [git clone] leaves the starter with its [.git] directory; every
    other command changes nothing. *)
Definition cloning_os : OS := {|
  io_fault := io_fault calm;
  copy_fault := copy_fault calm;
  clock := clock calm;
  run := λ _ c m,
    if bool_decide (take 2 c = ["git"; "clone"])
    then ProcResult "" None
           (<[nvim ++ [".git"; "config"] := plain "[core]"]> (<[nvim ++ [".git"] := NDir true]>
              (<[marker := plain "return {}"]> (<[nvim := NDir true]> m))))
    else ProcResult "" None m;
  look_path := look_path calm;
  http_get := http_get calm;
  stdin_line := stdin_line calm;
  executable := executable calm;
  env_dir := env_dir calm
|}.

Definition bare : World := boot cloning_os (disk (plain "X") (NDir true) None).

(** An own configuration of Neovim, without LazyVim, where no command
    succeeds. *)
Definition own_config : World :=
  boot mute_os (<[nvim ++ ["init.lua"] := plain "-- mine"]> (<[nvim := NDir true]>
                  (disk (plain "X") (NDir true) None))).

(** A directory stands where the target should be. *)
Definition occupied : World := boot calm (disk (plain "X") (NDir true) (Some (NDir true))).

(** A file stands where the directory of the target should be. *)
Definition blocked : World := boot calm (disk (plain "X") (plain "not a directory") None).

End Cases.

(** * Properties *)

(** ** Strings *)

Lemma append_cons (c : ascii) (s t : string) : String c s +:+ t = String c (s +:+ t).
Proof. reflexivity. Qed.

Lemma append_nil_l (s : string) : "" +:+ s = s.
Proof. reflexivity. Qed.

Lemma append_nil_r (s : string) : s +:+ "" = s.
Proof. induction s as [|c s IH]; [done | by rewrite append_cons, IH]. Qed.

Lemma append_assoc (a b c : string) : (a +:+ b) +:+ c = a +:+ (b +:+ c).
Proof. induction a as [|x a IH]; [done | by rewrite !append_cons, IH]. Qed.

Lemma length_append (a b : string) :
  String.length (a +:+ b) = String.length a + String.length b.
Proof. induction a as [|x a IH]; [done | by rewrite append_cons; simpl; rewrite IH]. Qed.

Lemma substring_0_append (a b : string) :
  substring 0 (String.length a) (a +:+ b) = a.
Proof.
  induction a as [|x a IH]; [by destruct b |].
  rewrite append_cons. simpl. by rewrite IH.
Qed.

Lemma substring_skip (a b : string) (n : nat) :
  substring (String.length a) n (a +:+ b) = substring 0 n b.
Proof. induction a as [|x a IH]; [done | by rewrite append_cons]. Qed.

Lemma substring_middle (a b c : string) :
  substring (String.length a) (String.length b) (a +:+ b +:+ c) = b.
Proof. by rewrite substring_skip, substring_0_append. Qed.

Lemma prefix_append (a b : string) : String.prefix a (a +:+ b) = true.
Proof.
  induction a as [|x a IH]; [by destruct b |].
  rewrite append_cons. simpl. destruct (ascii_dec x x); [done | congruence].
Qed.

Lemma prefix_split (a s : string) :
  String.prefix a s = true → ∃ b, s = a +:+ b.
Proof.
  revert s. induction a as [|x a IH]; intros s H.
  - by exists s.
  - destruct s as [|y s]; simpl in H; [done |].
    destruct (ascii_dec x y) as [->|]; [| done].
    destruct (IH s H) as [b ->]. by exists b.
Qed.

Lemma prefix_substring n s : String.prefix (substring 0 n s) s = true.
Proof.
  revert n. induction s as [|c s IH]; intros [|n]; simpl; try done.
  destruct (ascii_dec c c); [apply IH | done].
Qed.

Lemma substring_nil n m : substring n m EmptyString = EmptyString.
Proof. by destruct n, m. Qed.

(** [Contains] is the substring relation. *)
Lemma Contains_spec (s sub : string) :
  Contains s sub = true ↔ ∃ a b, s = a +:+ sub +:+ b.
Proof.
  split.
  - induction s as [|c s IH]; cbn [Contains]; intros H.
    + rewrite orb_false_r in H. apply prefix_split in H as [b ->].
      by exists EmptyString, b.
    + apply orb_true_iff in H as [H|H].
      * apply prefix_split in H as [b ->]. by exists EmptyString, b.
      * destruct (IH H) as (a & b & ->). by exists (String c a), b.
  - intros (a & b & ->). induction a as [|c a IH].
    + rewrite append_nil_l.
      destruct (sub +:+ b) eqn:E; cbn [Contains]; rewrite <- E, prefix_append; done.
    + rewrite append_cons. cbn [Contains]. rewrite IH. apply orb_true_r.
Qed.

(** ** White space

    The bytes of the white space characters. *)

Ltac bytes :=
  repeat (progress rewrite ?orb_true_iff, ?andb_true_iff, ?orb_false_iff, ?andb_false_iff,
                           ?Nat.eqb_eq, ?Nat.eqb_neq, ?Nat.leb_le, ?Nat.leb_gt in * );
  lia.

(** The bytes of a white space character beyond ASCII are all above 127,
    and the first one is no ASCII white space. *)
Lemma is_space_ascii a : is_space a = true → nat_of_ascii a < 128.
Proof. unfold is_space. cbn zeta. bytes. Qed.

Lemma is_space2_bytes a b :
  is_space2 a b = true → nat_of_ascii a = 194 ∧ 128 ≤ nat_of_ascii b.
Proof. unfold is_space2. bytes. Qed.

Lemma is_space3_bytes a b c :
  is_space3 a b c = true →
  225 ≤ nat_of_ascii a ∧ 128 ≤ nat_of_ascii b ∧ 128 ≤ nat_of_ascii c.
Proof. unfold is_space3. cbn zeta. bytes. Qed.

Lemma is_space_low a : nat_of_ascii a < 9 ∨ 13 < nat_of_ascii a ∧ nat_of_ascii a ≠ 32 → is_space a = false.
Proof. unfold is_space. cbn zeta. intros H. apply not_true_is_false. bytes. Qed.

Lemma is_space2_low a b :
  nat_of_ascii a ≠ 194 ∨ nat_of_ascii b < 128 → is_space2 a b = false.
Proof. intros H. apply not_true_is_false. intros E%is_space2_bytes. lia. Qed.

Lemma is_space3_low a b c :
  nat_of_ascii a < 225 ∨ nat_of_ascii b < 128 ∨ nat_of_ascii c < 128 →
  is_space3 a b c = false.
Proof. intros H. apply not_true_is_false. intros E%is_space3_bytes. lia. Qed.

(** Induction on strings that may step over one, two or three bytes. *)
Lemma string_ind3 (P : string → Prop) :
  P EmptyString →
  (∀ a s, P s → (∀ b s', s = String b s' → P s' ∧ ∀ c s'', s' = String c s'' → P s'') →
          P (String a s)) →
  ∀ s, P s.
Proof.
  intros H0 HS s.
  assert (H : P s ∧ (∀ b s', s = String b s' → P s' ∧ ∀ c s'', s' = String c s'' → P s'')).
  { induction s as [|a s [IH1 IH2]].
    - split; [done | by intros].
    - split; [by apply HS |].
      intros b s' [= <- <-]. split; [done |].
      intros c s'' ->. by destruct (IH2 c s''). }
  apply H.
Qed.

(** ** TrimSpace *)

Lemma blank_space a s : is_space a = true → blank s = true → blank (String a s) = true.
Proof. intros Ha Hs. cbn [blank]. fold (blank s). by rewrite Ha, Hs. Qed.

Lemma blank_space2 a b s :
  is_space2 a b = true → blank s = true → blank (String a (String b s)) = true.
Proof.
  intros Hb Hs. change (blank (String a (String b s)))
    with (is_space a && blank (String b s)
          || (is_space2 a b && blank s
              || match s with
                 | String c s3 => is_space3 a b c && blank s3
                 | EmptyString => false
                 end)).
  rewrite Hb, Hs. simpl. apply orb_true_r.
Qed.

Lemma blank_space3 a b c s :
  is_space3 a b c = true → blank s = true →
  blank (String a (String b (String c s))) = true.
Proof.
  intros Hc Hs. change (blank (String a (String b (String c s))))
    with (is_space a && blank (String b (String c s))
          || (is_space2 a b && blank (String c s) || is_space3 a b c && blank s)).
  rewrite Hc, Hs. simpl. by rewrite !orb_true_r.
Qed.

Lemma blank_rune r s : space_rune r = true → blank s = true → blank (r +:+ s) = true.
Proof.
  intros Hr Hs. destruct r as [|a [|b [|c [|d r]]]]; try done.
  - by apply blank_space.
  - by apply blank_space2.
  - by apply blank_space3.
Qed.

Lemma trim_left_space a s : is_space a = true → trim_left (String a s) = trim_left s.
Proof. intros H. cbn [trim_left]. by rewrite H. Qed.

Lemma trim_left_space2 a b s :
  is_space2 a b = true → trim_left (String a (String b s)) = trim_left s.
Proof.
  intros H. change (trim_left (String a (String b s)))
    with (if is_space a then trim_left (String b s)
          else if is_space2 a b then trim_left s
               else match s with
                    | String c s3 =>
                        if is_space3 a b c then trim_left s3 else String a (String b s)
                    | EmptyString => String a (String b s)
                    end).
  rewrite H. assert (is_space a = false) as ->; [| done].
  apply is_space2_bytes in H. apply is_space_low. lia.
Qed.

Lemma trim_left_space3 a b c s :
  is_space3 a b c = true → trim_left (String a (String b (String c s))) = trim_left s.
Proof.
  intros H. change (trim_left (String a (String b (String c s))))
    with (if is_space a then trim_left (String b (String c s))
          else if is_space2 a b then trim_left (String c s)
               else if is_space3 a b c then trim_left s
                    else String a (String b (String c s))).
  rewrite H. apply is_space3_bytes in H.
  assert (is_space a = false) as -> by (apply is_space_low; lia).
  assert (is_space2 a b = false) as -> by (apply is_space2_low; lia).
  done.
Qed.

(** A white space character at the left end goes. *)
Lemma trim_left_rune r s : space_rune r = true → trim_left (r +:+ s) = trim_left s.
Proof.
  intros Hr. destruct r as [|a [|b [|c [|d r]]]]; try done.
  - by apply trim_left_space.
  - by apply trim_left_space2.
  - by apply trim_left_space3.
Qed.

(** What is left starts with no white space character and is what
    follows a sequence of them. *)
Lemma trim_left_split s : ∃ a, s = a +:+ trim_left s ∧ blank a = true.
Proof.
  induction s as [|a s IH1 IH2] using string_ind3; [by exists EmptyString |].
  destruct (is_space a) eqn:Ha.
  { rewrite trim_left_space by done. destruct IH1 as (x & E & Hx).
    exists (String a x). rewrite append_cons, <- E. split; [done | by apply blank_space]. }
  destruct s as [|b s2].
  { exists EmptyString. cbn [trim_left]. by rewrite Ha. }
  destruct (IH2 b s2 eq_refl) as [IH3 IH4].
  destruct (is_space2 a b) eqn:Hb.
  { rewrite trim_left_space2 by done. destruct IH3 as (x & E & Hx).
    exists (String a (String b x)). rewrite !append_cons, <- E.
    split; [done | by apply blank_space2]. }
  destruct s2 as [|c s3].
  { exists EmptyString. cbn [trim_left]. by rewrite Ha, Hb. }
  destruct (is_space3 a b c) eqn:Hc.
  { rewrite trim_left_space3 by done. destruct (IH4 c s3 eq_refl) as (x & E & Hx).
    exists (String a (String b (String c x))). rewrite !append_cons, <- E.
    split; [done | by apply blank_space3]. }
  exists EmptyString. cbn [trim_left]. by rewrite Ha, Hb, Hc.
Qed.

(** The ways a string starts with a white space character. *)
Lemma rune_prefix a s r t :
  space_rune r = true → String a s = r +:+ t →
  is_space a = true ∨
  (∃ b s2, s = String b s2 ∧ is_space2 a b = true) ∨
  (∃ b c s3, s = String b (String c s3) ∧ is_space3 a b c = true).
Proof.
  intros Hr E. destruct r as [|x [|y [|z [|u r]]]]; try done.
  - injection E as <- _. by left.
  - injection E as <- ->. right; left. by exists y, t.
  - injection E as <- ->. right; right. by exists y, z, t.
Qed.

Lemma trim_left_head s r t : space_rune r = true → trim_left s ≠ r +:+ t.
Proof.
  intros Hr. induction s as [|a s IH1 IH2] using string_ind3.
  { by destruct r. }
  destruct (is_space a) eqn:Ha.
  { by rewrite trim_left_space. }
  destruct s as [|b s2].
  { cbn [trim_left]. rewrite Ha. intros E.
    apply (rune_prefix _ _ _ _ Hr) in E as [E|[(? & ? & ? & E)|(? & ? & ? & ? & E)]];
      congruence. }
  destruct (IH2 b s2 eq_refl) as [IH3 IH4].
  destruct (is_space2 a b) eqn:Hb.
  { by rewrite trim_left_space2. }
  destruct s2 as [|c s3].
  { cbn [trim_left]. rewrite Ha, Hb. intros E.
    apply (rune_prefix _ _ _ _ Hr) in E as [E|[(? & ? & ? & E)|(? & ? & ? & ? & E)]];
      congruence. }
  destruct (is_space3 a b c) eqn:Hc.
  { rewrite trim_left_space3 by done. by apply (IH4 c s3). }
  cbn [trim_left]. rewrite Ha, Hb, Hc. intros E.
  apply (rune_prefix _ _ _ _ Hr) in E as [E|[(? & ? & ? & E)|(? & ? & ? & ? & E)]];
    congruence.
Qed.

(** What is left of a string is the string when it starts with no white
    space character. *)
Lemma trim_left_stop s :
  (∀ r t, space_rune r = true → s ≠ r +:+ t) → trim_left s = s.
Proof.
  intros H. destruct s as [|a s]; [done |].
  destruct (is_space a) eqn:Ha.
  { by destruct (H (String a EmptyString) s Ha). }
  cbn [trim_left]. rewrite Ha. destruct s as [|b s]; [done |].
  destruct (is_space2 a b) eqn:Hb.
  { by destruct (H (String a (String b EmptyString)) s Hb). }
  destruct s as [|c s]; [done |].
  destruct (is_space3 a b c) eqn:Hc; [| done].
  by destruct (H (String a (String b (String c EmptyString))) s Hc).
Qed.

Lemma trim_left_blank s : blank s = true → trim_left s = EmptyString.
Proof.
  induction s as [|a s IH1 IH2] using string_ind3; [done |].
  intros H. destruct (is_space a) eqn:Ha.
  { rewrite trim_left_space by done. apply IH1.
    cbn [blank] in H. fold (blank s) in H. rewrite Ha in H.
    destruct (blank s); [done |]. simpl in H.
    destruct s as [|b s]; [done |]. apply orb_true_iff in H as [H|H].
    - apply andb_true_iff in H as [H _]. apply is_space2_bytes in H.
      apply is_space_ascii in Ha. lia.
    - destruct s as [|c s]; [done |]. apply andb_true_iff in H as [H _].
      apply is_space3_bytes in H. apply is_space_ascii in Ha. lia. }
  cbn [blank] in H. fold (blank s) in H. rewrite Ha in H. simpl in H.
  destruct s as [|b s2]; [done |].
  destruct (IH2 b s2 eq_refl) as [IH3 IH4].
  destruct (is_space2 a b) eqn:Hb.
  { rewrite trim_left_space2 by done. apply IH3.
    destruct (blank s2); [done |]. simpl in H.
    destruct s2 as [|c s3]; [done |]. apply andb_true_iff in H as [H _].
    apply is_space3_bytes in H. apply is_space2_bytes in Hb. lia. }
  simpl in H. destruct s2 as [|c s3]; [done |].
  apply andb_true_iff in H as [Hc H].
  rewrite trim_left_space3 by done. by apply (IH4 c s3).
Qed.

Lemma trim_right_cons c s :
  trim_right (String c s)
  = if space_rune (String c (trim_right s)) then EmptyString else String c (trim_right s).
Proof. reflexivity. Qed.

(** What is left ends with no white space character and is what
    precedes a sequence of them. *)
Lemma trim_right_split s : ∃ b, s = trim_right s +:+ b ∧ blank b = true.
Proof.
  induction s as [|c s (b & E & Hb)]; [by exists EmptyString |].
  rewrite trim_right_cons. destruct (space_rune _) eqn:Hr.
  - exists (String c (trim_right s) +:+ b).
    split; [by rewrite append_nil_l, append_cons, <- E | by apply blank_rune].
  - exists b. by rewrite append_cons, <- E.
Qed.

Lemma trim_right_last s r t : space_rune r = true → trim_right s ≠ t +:+ r.
Proof.
  intros Hr. revert t. induction s as [|c s IH]; intros t.
  { destruct t; [by destruct r | done]. }
  rewrite trim_right_cons. destruct (space_rune (String c _)) eqn:Hc.
  { destruct t; [by destruct r | done]. }
  destruct t as [|x t].
  - rewrite append_nil_l. intros E. congruence.
  - rewrite append_cons. intros [= _ E]. by apply IH in E.
Qed.

Lemma trim_right_head s r t :
  trim_right s = r +:+ t → ∃ t', s = r +:+ t'.
Proof.
  destruct (trim_right_split s) as (b & Hs & _). intros E.
  exists (t +:+ b). by rewrite Hs at 1; rewrite E, append_assoc.
Qed.

(** A white space character at the right end goes. *)
Lemma trim_right_rune s r : space_rune r = true → trim_right (s +:+ r) = trim_right s.
Proof.
  intros Hr. induction s as [|x s IH].
  - rewrite append_nil_l. destruct r as [|a [|b [|c [|d r]]]]; try done.
    + rewrite trim_right_cons. cbn [trim_right]. by rewrite Hr.
    + assert (Hb : trim_right (String b EmptyString) = String b EmptyString).
      { rewrite trim_right_cons. cbn [trim_right space_rune].
        rewrite is_space_low; [done |]. apply is_space2_bytes in Hr. lia. }
      rewrite trim_right_cons, Hb. by rewrite Hr.
    + assert (Hc : trim_right (String c EmptyString) = String c EmptyString).
      { rewrite trim_right_cons. cbn [trim_right space_rune].
        rewrite is_space_low; [done |]. apply is_space3_bytes in Hr. lia. }
      assert (Hb : trim_right (String b (String c EmptyString))
                   = String b (String c EmptyString)).
      { rewrite trim_right_cons, Hc. cbn [space_rune].
        rewrite is_space2_low; [done |]. simpl in Hr. unfold is_space3 in Hr.
        cbn zeta in Hr. left. bytes. }
      rewrite trim_right_cons, Hb. by rewrite Hr.
  - by rewrite append_cons, !trim_right_cons, IH.
Qed.

(** A string that ends with no white space character is left as it is. *)
Lemma trim_right_stop s :
  (∀ r t, space_rune r = true → s ≠ t +:+ r) → trim_right s = s.
Proof.
  induction s as [|c s IH]; intros H; [done |].
  rewrite trim_right_cons, IH.
  - destruct (space_rune (String c s)) eqn:Hc; [| done].
    by destruct (H (String c s) EmptyString Hc).
  - intros r t Hr ->. by apply (H r (String c t) Hr).
Qed.

Lemma TrimSpace_blank s : blank s = true → TrimSpace s = EmptyString.
Proof. intros H. unfold TrimSpace. by rewrite trim_left_blank. Qed.

Lemma TrimSpace_split s :
  ∃ a b, s = a +:+ TrimSpace s +:+ b ∧ blank a = true ∧ blank b = true.
Proof.
  destruct (trim_left_split s) as (a & Ha & Hba).
  destruct (trim_right_split (trim_left s)) as (b & Hb & Hbb).
  exists a, b. unfold TrimSpace. by rewrite <- Hb, <- Ha.
Qed.

Lemma TrimSpace_head s r t : space_rune r = true → TrimSpace s ≠ r +:+ t.
Proof.
  unfold TrimSpace. intros Hr E.
  apply trim_right_head in E as [t' E]. by apply trim_left_head in E.
Qed.

Lemma TrimSpace_last s r t : space_rune r = true → TrimSpace s ≠ t +:+ r.
Proof. apply trim_right_last. Qed.

(** A string that neither starts nor ends with a white space character
    is left as it is. *)
Lemma TrimSpace_stop s :
  (∀ r t, space_rune r = true → s ≠ r +:+ t ∧ s ≠ t +:+ r) → TrimSpace s = s.
Proof.
  intros H. unfold TrimSpace. rewrite trim_left_stop.
  - apply trim_right_stop. intros r t Hr. by destruct (H r t Hr).
  - intros r t Hr. by destruct (H r t Hr).
Qed.

(** [TrimSpace] keeps a substring that starts and ends with an ASCII
    byte that is no white space. *)
Lemma space_rune_ascii c r :
  is_space c = false → nat_of_ascii c < 128 → space_rune (String c r) = false.
Proof.
  intros Hc Hn. destruct r as [|b [|d [|e r]]]; cbn [space_rune]; try done.
  - apply is_space2_low. lia.
  - apply is_space3_low. lia.
Qed.

Lemma trim_left_ascii c s :
  is_space c = false → nat_of_ascii c < 128 → trim_left (String c s) = String c s.
Proof.
  intros Hc Hn. apply trim_left_stop. intros r t Hr E.
  apply (rune_prefix _ _ _ _ Hr) in E as [E|[(b & ? & ? & E)|(b & d & ? & ? & E)]].
  - congruence.
  - apply is_space2_bytes in E. lia.
  - apply is_space3_bytes in E. lia.
Qed.

Lemma trim_left_keeps (a s : string) (c : ascii) :
  is_space c = false → nat_of_ascii c < 128 →
  ∃ a', trim_left (a +:+ String c s) = a' +:+ String c s.
Proof.
  intros Hc Hn. induction a as [|x a IH1 IH2] using string_ind3.
  { exists EmptyString. rewrite !append_nil_l. by apply trim_left_ascii. }
  rewrite append_cons. destruct (is_space x) eqn:Hx.
  { by rewrite trim_left_space. }
  destruct a as [|y a2].
  { exists (String x EmptyString). rewrite append_nil_l. apply trim_left_stop.
    intros r t Hr E.
    apply (rune_prefix _ _ _ _ Hr) in E as [E|[(b & ? & [= <- _] & E)|(b & d & ? & [= <- _] & E)]].
    - congruence.
    - apply is_space2_bytes in E. lia.
    - apply is_space3_bytes in E. lia. }
  destruct (IH2 y a2 eq_refl) as [IH3 IH4]. rewrite append_cons.
  destruct (is_space2 x y) eqn:Hy.
  { by rewrite trim_left_space2. }
  destruct a2 as [|z a3].
  { exists (String x (String y EmptyString)). rewrite append_nil_l. apply trim_left_stop.
    intros r t Hr E.
    apply (rune_prefix _ _ _ _ Hr) in E as [E|[(b & ? & [= <- _] & E)|(b & d & ? & [= <- <- _] & E)]].
    - congruence.
    - congruence.
    - apply is_space3_bytes in E. lia. }
  rewrite append_cons. destruct (is_space3 x y z) eqn:Hz.
  { rewrite trim_left_space3 by done. by apply (IH4 z a3). }
  exists (String x (String y (String z a3))). rewrite !append_cons. apply trim_left_stop.
  intros r t Hr E.
  apply (rune_prefix _ _ _ _ Hr) in E as [E|[(b & ? & [= <- _] & E)|(b & d & ? & [= <- <- _] & E)]];
    congruence.
Qed.

Lemma trim_right_keeps (a s : string) (c : ascii) :
  is_space c = false → nat_of_ascii c < 128 →
  trim_right (a +:+ String c s) = a +:+ String c (trim_right s).
Proof.
  intros Hc Hn. induction a as [|x a IH].
  - rewrite !append_nil_l, trim_right_cons. by rewrite space_rune_ascii.
  - rewrite !append_cons, trim_right_cons, IH.
    assert (space_rune (String x (a +:+ String c (trim_right s))) = false) as ->; [| done].
    destruct a as [|y [|z a]]; [| | by destruct a].
    + rewrite append_nil_l. destruct (trim_right s) as [|d [|e r]]; cbn [space_rune]; [| | done].
      * apply is_space2_low. lia.
      * apply is_space3_low. lia.
    + rewrite !append_cons, append_nil_l.
      destruct (trim_right s); cbn [space_rune]; [| done].
      apply is_space3_low. lia.
Qed.

Lemma TrimSpace_keeps (a b id : string) (c d : ascii) :
  is_space c = false → nat_of_ascii c < 128 →
  is_space d = false → nat_of_ascii d < 128 →
  ∃ a' b', TrimSpace (a +:+ String c (id +:+ String d b))
           = a' +:+ String c (id +:+ String d b').
Proof.
  intros Hc Hnc Hd Hnd. unfold TrimSpace.
  destruct (trim_left_keeps a (id +:+ String d b) c Hc Hnc) as [a' ->].
  exists a', (trim_right b).
  replace (a' +:+ String c (id +:+ String d b))
    with ((a' +:+ String c id) +:+ String d b)
    by (by rewrite append_assoc, append_cons).
  rewrite trim_right_keeps by done.
  by rewrite append_assoc, append_cons.
Qed.

(** An identifier of two bytes or more that starts and ends with an ASCII
    byte that is no white space, and occurs in what a command prints,
    occurs in what [runCmd] returns. *)
Lemma Contains_TrimSpace (raw a b id : string) (c d : ascii) :
  is_space c = false → nat_of_ascii c < 128 →
  is_space d = false → nat_of_ascii d < 128 →
  raw = a +:+ String c (id +:+ String d b) →
  Contains (TrimSpace raw) (String c (id +:+ String d EmptyString)) = true.
Proof.
  intros Hc Hnc Hd Hnd ->.
  destruct (TrimSpace_keeps a b id c d Hc Hnc Hd Hnd) as (a' & b' & ->).
  apply Contains_spec. exists a', b'.
  by rewrite append_cons, append_assoc, append_cons, append_nil_l.
Qed.

(** ** extractVersion *)

Lemma substring_0_all (b : string) : substring 0 (String.length b) b = b.
Proof. induction b as [|x b IH]; [done | simpl; by rewrite IH]. Qed.

Lemma substring_suffix (a b : string) :
  substring (String.length a) (String.length b) (a +:+ b) = b.
Proof. by rewrite substring_skip, substring_0_all. Qed.

Lemma append_single (c : ascii) (t : string) : String c "" +:+ t = String c t.
Proof. reflexivity. Qed.

Lemma loop_started (pre run rest : string) :
  extractVersion_loop (pre +:+ run +:+ rest) rest
    (String.length pre + String.length run) (Some (String.length pre))
  = run +:+ digits_and_dots rest.
Proof.
  revert run. induction rest as [|c rest IH]; intros run.
  - cbn [extractVersion_loop digits_and_dots].
    rewrite !append_nil_r, length_append.
    replace (_ - _) with (String.length run) by lia.
    apply substring_suffix.
  - cbn [extractVersion_loop digits_and_dots].
    assert (Hstep : extractVersion_loop (pre +:+ run +:+ String c rest) rest
              (S (String.length pre + String.length run)) (Some (String.length pre))
            = run +:+ String c (digits_and_dots rest)).
    { specialize (IH (run +:+ String c "")).
      rewrite !append_assoc, length_append, !append_single in IH. simpl in IH.
      replace (String.length pre + (String.length run + 1))
        with (S (String.length pre + String.length run)) in IH by lia.
      exact IH. }
    destruct (is_digit c) eqn:Hd; simpl; [exact Hstep |].
    destruct (is_dot c) eqn:Hp; simpl.
    + exact Hstep.
    + replace (_ - _) with (String.length run) by lia.
      by rewrite substring_middle, append_nil_r.
Qed.

Lemma loop_searching (pre rest : string) :
  skip_to_digit pre = EmptyString →
  extractVersion_loop (pre +:+ rest) rest (String.length pre) None
  = first_version_run (pre +:+ rest).
Proof.
  revert pre. induction rest as [|c rest IH]; intros pre Hpre.
  - cbn [extractVersion_loop]. unfold first_version_run.
    by rewrite append_nil_r, Hpre.
  - cbn [extractVersion_loop].
    assert (Hskip : ∀ t, skip_to_digit (pre +:+ t) = skip_to_digit t).
    { clear IH. induction pre as [|x pre IHp]; intros t; [done |].
      rewrite append_cons. simpl in *. destruct (is_digit x); [done | auto]. }
    destruct (is_digit c) eqn:Hd.
    + pose proof (loop_started pre (String c "") rest) as H.
      rewrite !append_single in H. simpl in H.
      replace (String.length pre + 1) with (S (String.length pre)) in H by lia.
      rewrite H. unfold first_version_run. rewrite Hskip. simpl. rewrite Hd.
      by rewrite Hd.
    + replace (is_dot c && bool_decide (None ≠ None)) with false
        by (rewrite bool_decide_eq_false_2; [by rewrite andb_false_r | tauto]).
      specialize (IH (pre +:+ String c "")).
      rewrite append_assoc, length_append, append_single in IH.
      simpl in IH. replace (String.length pre + 1) with (S (String.length pre)) in IH by lia.
      apply IH. rewrite Hskip. simpl. by rewrite Hd.
Qed.

Lemma extractVersion_spec (s : string) : extractVersion s = first_version_run s.
Proof. apply (loop_searching EmptyString s). done. Qed.

(** An input without a digit comes back unchanged; otherwise the result
    is the run of digits and dots that starts at the first digit and ends
    before the first byte that is neither. *)
Lemma extractVersion_run (pre run post : string) :
  skip_to_digit pre = EmptyString →
  skip_to_digit run = run →
  digits_and_dots run = run →
  digits_and_dots post = EmptyString →
  run ≠ EmptyString →
  extractVersion (pre +:+ run +:+ post) = run.
Proof.
  intros Hpre Hrun Hall Hpost Hne.
  rewrite extractVersion_spec. unfold first_version_run.
  assert (Hskip : ∀ t, skip_to_digit (pre +:+ t) = skip_to_digit t).
  { induction pre as [|x pre IHp]; intros t; [done |].
    rewrite append_cons. simpl in *. destruct (is_digit x); [done | auto]. }
  assert (Hdd : ∀ r, digits_and_dots r = r →
            digits_and_dots (r +:+ post) = r).
  { induction r as [|x r IHr]; intros Hr; [by rewrite append_nil_l |].
    rewrite append_cons. simpl in *.
    destruct (is_digit x || is_dot x); [| done].
    injection Hr as Hr. by rewrite IHr. }
  rewrite Hskip.
  destruct run as [|c run']; [done |].
  rewrite append_cons. simpl in Hrun |- *.
  destruct (is_digit c) eqn:Hd.
  - simpl in Hall. rewrite Hd in Hall |- *. simpl in Hall |- *.
    injection Hall as Hall. by rewrite Hdd.
  - exfalso. clear -Hrun. 
    assert (Hlen : ∀ t, String.length (skip_to_digit t) ≤ String.length t).
    { induction t as [|y t IHt]; simpl; [lia |]. destruct (is_digit y); simpl; lia. }
    specialize (Hlen run'). rewrite Hrun in Hlen. simpl in Hlen. lia.
Qed.

(** C7. [extractVersion "1.2.3 (abcdef)"] is ["1.2.3"], a text without a
    digit is returned unchanged, and in general the result is the first
    maximal run of digits and dots that starts at the first digit. *)
Theorem extractVersion_first_run :
  extractVersion "1.2.3 (abcdef)" = "1.2.3" ∧
  extractVersion "no digits here" = "no digits here" ∧
  ∀ s, extractVersion s = first_version_run s.
Proof.
  split; [by vm_compute | split; [by vm_compute |]].
  apply extractVersion_spec.
Qed.

(** ** Worlds *)

Ltac pairs := cbn [fst snd] in *.

Lemma quiet_refl w : quiet w w.
Proof. by repeat split. Qed.

Lemma quiet_trans w1 w2 w3 : quiet w1 w2 → quiet w2 w3 → quiet w1 w3.
Proof.
  intros (?&?&?&?&?&?&?) (?&?&?&?&?&?&?).
  repeat split; try congruence; lia.
Qed.

Lemma quiet_tock w : quiet w (tock w).
Proof. repeat split; simpl; lia. Qed.

Lemma quiet_set_fs m w : quiet w (set_fs m w).
Proof. by repeat split. Qed.

Lemma fault_free_quiet w w' : quiet w w' → fault_free w → fault_free w'.
Proof.
  intros (Hos&_&_&_&_&_&Ht) H t Hle. rewrite Hos. apply H. lia.
Qed.

Lemma fault_free_now w : fault_free w → faulty w = false.
Proof. intros H. apply H. lia. Qed.

Lemma os_Stat_quiet p w : quiet w (os_Stat p w).2.
Proof. apply quiet_tock. Qed.

Lemma os_Stat_fs p w : fs (os_Stat p w).2 = fs w.
Proof. done. Qed.

Lemma os_Stat_ok p w w' : os_Stat p w = (None, w') → is_Some (fs w !! p).
Proof. unfold os_Stat. intros H. repeat case_match; simplify_eq; eauto. Qed.

Lemma os_Open_quiet p w : quiet w (os_Open p w).2.
Proof. apply quiet_tock. Qed.

Lemma read_all_quiet p w : quiet w (read_all p w).2.
Proof. apply quiet_tock. Qed.

Lemma time_Now_quiet w : quiet w (time_Now w).2.
Proof. apply quiet_tock. Qed.

Lemma os_MkdirAll_quiet p w : quiet w (os_MkdirAll p w).2.
Proof.
  unfold os_MkdirAll. destruct (faulty w); [apply quiet_tock |].
  destruct (mkdir_all _ _ _); pairs.
  eapply quiet_trans; [apply quiet_tock | apply quiet_set_fs].
Qed.

Lemma os_Create_quiet p w : quiet w (os_Create p w).2.
Proof.
  unfold os_Create.
  repeat case_match; pairs;
    first [apply quiet_tock
          | eapply quiet_trans; [apply quiet_tock | apply quiet_set_fs]].
Qed.

Lemma write_all_quiet p d w : quiet w (write_all p d w).
Proof.
  unfold write_all. repeat case_match; first [apply quiet_refl | apply quiet_set_fs].
Qed.

Lemma io_Copy_quiet d s w : quiet w (io_Copy d s w).2.
Proof.
  unfold io_Copy. destruct (faulty w).
  { destruct (fs w !! s) as [[f|b]|]; [| apply quiet_tock..].
    destruct (copy_fault _ _); pairs.
    eauto using quiet_trans, quiet_tock, write_all_quiet. }
  pose proof (read_all_quiet s w) as H.
  destruct (read_all s w) as [[data e] w1]; pairs.
  destruct e; pairs; [done |].
  eauto using quiet_trans, write_all_quiet.
Qed.

Lemma fileHash_quiet p w : quiet w (fileHash p w).2.
Proof.
  unfold fileHash. pose proof (os_Open_quiet p w) as H1.
  destruct (os_Open p w) as [e w1]; pairs.
  destruct e; pairs; [done |].
  pose proof (read_all_quiet p w1) as H2.
  destruct (read_all p w1) as [[data e] w2]; pairs.
  destruct e; pairs; eauto using quiet_trans.
Qed.

Lemma fileHash_fs p w : fs (fileHash p w).2 = fs w.
Proof.
  unfold fileHash, os_Open, read_all. simpl. by repeat case_match.
Qed.

Lemma copyFile_quiet s d w : quiet w (copyFile s d w).2.
Proof.
  unfold copyFile. pose proof (os_Open_quiet s w) as H1.
  destruct (os_Open s w) as [e w1]; pairs.
  destruct e; pairs; [done |].
  pose proof (os_Create_quiet d w1) as H2.
  destruct (os_Create d w1) as [e w2]; pairs.
  destruct e; pairs; [eauto using quiet_trans |].
  eauto using quiet_trans, io_Copy_quiet.
Qed.

(** ** The file system under the system calls *)

Lemma mkdir_all_existing n p m b :
  m !! p = Some (NDir b) → mkdir_all n p m = (None, m).
Proof. intros H. destruct n; simpl; by rewrite H. Qed.

Lemma grows_refl p m : grows p m m.
Proof. intros k. by left. Qed.

Lemma grows_trans p m1 m2 m3 : grows p m1 m2 → grows p m2 m3 → grows p m1 m3.
Proof.
  intros H1 H2 k.
  destruct (H1 k) as [E1|(E1 & E1' & ?)], (H2 k) as [E2|(E2 & E2' & ?)];
    try (left; congruence); try (right; split_and!; [congruence..| tauto | tauto]).
Qed.

Lemma grows_mono p q m m' : p `prefix_of` q → grows p m m' → grows q m m'.
Proof.
  intros Hpq H k. destruct (H k) as [E|(E & E' & Hk & Hne)]; [by left |].
  right. split_and!; try done. by etrans.
Qed.

Lemma Dir_prefix (p : path) : Dir p `prefix_of` p.
Proof. unfold Dir. apply prefix_take. Qed.

Lemma mkdir_grows p m e m' : mkdir p m = (e, m') → grows p m m'.
Proof.
  unfold mkdir. intros H k.
  repeat case_match; simplify_eq; auto.
  destruct (decide (p = k)) as [->|Hne].
  - rewrite lookup_insert_eq. right. split_and!; try done.
    intros ->. unfold Dir in *. simpl in *. congruence.
  - rewrite lookup_insert_ne by done. auto.
Qed.

Lemma mkdir_ok p m m' : mkdir p m = (None, m') → m' !! p = Some (NDir true).
Proof.
  unfold mkdir. intros H. repeat case_match; simplify_eq.
  apply lookup_insert_eq.
Qed.

Lemma mkdir_all_grows n p m e m' : mkdir_all n p m = (e, m') → grows p m m'.
Proof.
  revert p m e m'. induction n as [|n IH]; intros p m e m' H; simpl in H.
  - repeat case_match; simplify_eq; apply grows_refl.
  - destruct (m !! p) as [[f|b]|]; simplify_eq; try apply grows_refl.
    destruct (mkdir_all n (Dir p) m) as [[e1|] m1] eqn:E; simplify_eq.
    + eapply grows_mono; [apply Dir_prefix | by eapply IH].
    + eapply grows_trans; [| by eapply mkdir_grows].
      eapply grows_mono; [apply Dir_prefix | by eapply IH].
Qed.

Lemma mkdir_all_ok n p m m' :
  mkdir_all n p m = (None, m') → ∃ b, m' !! p = Some (NDir b).
Proof.
  intros H. destruct n; simpl in H.
  - repeat case_match; simplify_eq; eauto.
  - destruct (m !! p) as [[f|b]|] eqn:Ep; simplify_eq; eauto.
    destruct (mkdir_all n (Dir p) m) as [[e1|] m1] eqn:E; simplify_eq.
    apply mkdir_ok in H. eauto.
Qed.

Lemma os_MkdirAll_grows p w : grows p (fs w) (fs (os_MkdirAll p w).2).
Proof.
  unfold os_MkdirAll. destruct (faulty w); [apply grows_refl |].
  destruct (mkdir_all _ _ _) eqn:E; pairs. simpl. by eapply mkdir_all_grows.
Qed.

Lemma os_MkdirAll_ok p w w' :
  os_MkdirAll p w = (None, w') → ∃ b, fs w' !! p = Some (NDir b).
Proof.
  unfold os_MkdirAll. destruct (faulty w); [done |].
  destruct (mkdir_all _ _ _) eqn:E. intros [= -> <-]. simpl.
  by eapply mkdir_all_ok.
Qed.

Lemma os_MkdirAll_existing p w b :
  faulty w = false → fs w !! p = Some (NDir b) →
  os_MkdirAll p w = (None, set_fs (fs w) (tock w)).
Proof.
  intros Hf H. unfold os_MkdirAll. rewrite Hf.
  by rewrite (mkdir_all_existing _ _ _ b).
Qed.

(** [copyFile] touches no other path than its destination. *)
Lemma copyFile_frame src dst w k :
  k ≠ dst → fs (copyFile src dst w).2 !! k = fs w !! k.
Proof.
  intros Hk. unfold copyFile, os_Open, os_Create, io_Copy, read_all, write_all.
  repeat (case_match; simplify_eq; pairs; simpl in *; try done);
    rewrite ?lookup_insert_ne by done; try done.
Qed.

Lemma os_Open_ok p w w' :
  os_Open p w = (None, w') →
  w' = tock w ∧
  ((∃ b, fs w !! p = Some (NDir b)) ∨
   (∃ f, fs w !! p = Some (NFile f) ∧ readable f = true)).
Proof.
  unfold os_Open. intros H. repeat case_match; simplify_eq; eauto.
Qed.

Lemma os_Create_ok p w w' :
  os_Create p w = (None, w') →
  ∃ f, fs w' = <[p := NFile f]> (fs w) ∧ content f = EmptyString ∧
       readable f = true.
Proof.
  unfold os_Create. intros H. repeat case_match; simplify_eq; simpl.
  - eexists; split; [done |]. simpl. split; [done |].
    by destruct (readable _).
  - eexists; split; done.
Qed.

Lemma io_Copy_ok dst src w w' fd :
  io_Copy dst src w = (None, w') →
  fs w !! dst = Some (NFile fd) →
  ∃ fsrc t, fs w !! src = Some (NFile fsrc) ∧
    fs w' = <[dst := NFile (File (content fd +:+ content fsrc) t
                                 (readable fd) (writable fd))]> (fs w).
Proof.
  unfold io_Copy, read_all, write_all. intros H Hd.
  repeat (case_match; simplify_eq; pairs; simpl in * ); eauto.
Qed.

(** What a copy that succeeds leaves behind. *)
Lemma copyFile_ok src dst w w' :
  copyFile src dst w = (None, w') →
  ∃ fsrc fdst,
    fs w' !! src = Some (NFile fsrc) ∧ fs w' !! dst = Some (NFile fdst) ∧
    content fdst = content fsrc ∧ readable fsrc = true ∧ readable fdst = true.
Proof.
  unfold copyFile. intros H.
  destruct (os_Open src w) as [[e|] w1] eqn:Eo; [done |].
  destruct (os_Create dst w1) as [[e|] w2] eqn:Ec; [done |].
  apply os_Open_ok in Eo as [-> Hsrc].
  apply os_Create_ok in Ec as (fc & Hfs2 & Hc & Hr).
  eapply io_Copy_ok in H as (fsrc & t & Hs & Hfs');
    [| rewrite Hfs2; apply lookup_insert_eq].
  rewrite Hfs', Hc in *. rewrite append_nil_l in *.
  destruct (decide (src = dst)) as [->|Hne].
  - rewrite Hfs2, lookup_insert_eq in Hs. simplify_eq.
    eexists _, _. rewrite !lookup_insert_eq. repeat split; done.
  - rewrite Hfs2, lookup_insert_ne in Hs by done. simpl in Hs.
    destruct Hsrc as [[b Hb]|(f & Hf & Hrf)]; [congruence |].
    assert (f = fsrc) as -> by congruence.
    exists fsrc. eexists. rewrite lookup_insert_eq, lookup_insert_ne by done.
    rewrite Hfs2, lookup_insert_ne by done. simpl. repeat split; done.
Qed.

Lemma os_Create_not_dir p w w' b :
  os_Create p w = (None, w') → fs w !! p ≠ Some (NDir b).
Proof. unfold os_Create. intros H. repeat case_match; simplify_eq; done. Qed.

Lemma copyFile_not_dir src dst w w' b :
  copyFile src dst w = (None, w') → fs w !! dst ≠ Some (NDir b).
Proof.
  unfold copyFile. intros H.
  destruct (os_Open src w) as [[e|] w1] eqn:Eo; [done |].
  destruct (os_Create dst w1) as [[e|] w2] eqn:Ec; [done |].
  apply os_Open_ok in Eo as [-> _].
  by apply (os_Create_not_dir _ _ _ b) in Ec.
Qed.

(** *** Calls that meet no fault *)

Lemma os_Stat_found p w n :
  faulty w = false → fs w !! p = Some n → os_Stat p w = (None, tock w).
Proof. intros Hf H. unfold os_Stat. by rewrite Hf, H. Qed.

Lemma fileHash_ok p w f :
  faulty w = false → faulty (tock w) = false →
  fs w !! p = Some (NFile f) → readable f = true →
  fileHash p w = ((sha256_hex (content f), None), tock (tock w)).
Proof.
  intros Hf1 Hf2 H Hr. unfold fileHash, os_Open, read_all.
  rewrite Hf1, H, Hr. simpl. by rewrite Hf2, H.
Qed.

(** A copy onto a free name in a directory that can be written. *)
Lemma copyFile_new src dst w f :
  faulty w = false → faulty (tock w) = false → faulty (tock (tock w)) = false →
  fs w !! src = Some (NFile f) → readable f = true →
  fs w !! dst = None → fs w !! Dir dst = Some (NDir true) →
  ∃ w', copyFile src dst w = (None, w') ∧
        ∃ t, fs w' = <[dst := NFile (File (content f) t true true)]> (fs w).
Proof.
  intros Hf1 Hf2 Hf3 Hs Hr Hd Hp.
  assert (Hne : src ≠ dst) by congruence.
  unfold copyFile, os_Open, os_Create, io_Copy, read_all, write_all.
  unfold faulty in *. simpl in Hf2, Hf3.
  rewrite Hf1, Hs, Hr. simpl. rewrite Hf2, Hd, Hp. simpl.
  rewrite Hf3. rewrite lookup_insert_ne by done. rewrite Hs. simpl.
  rewrite lookup_insert_eq. eexists; split; [done |]. simpl.
  eexists. rewrite insert_insert_eq. done.
Qed.

Lemma fileHash_computed p w h w' :
  fileHash p w = ((h, None), w') →
  ∃ f, fs w !! p = Some (NFile f) ∧ readable f = true ∧ h = sha256_hex (content f).
Proof.
  unfold fileHash, os_Open, read_all. intros H.
  repeat (case_match; simplify_eq; pairs; simpl in *; try done); eauto.
Qed.

Lemma fileHash_fault p w :
  faulty w = true →
  fileHash p w = ((EmptyString, Some (PathError "open" p ErrIO)), tock w).
Proof. intros Hf. unfold fileHash, os_Open. by rewrite Hf. Qed.

Lemma fileHash_denied p w f :
  faulty w = false → fs w !! p = Some (NFile f) → readable f = false →
  fileHash p w = ((EmptyString, Some (PathError "open" p ErrPermission)), tock w).
Proof. intros Hf H Hr. unfold fileHash, os_Open. by rewrite Hf, H, Hr. Qed.

Lemma fileHash_content p w f c :
  faulty w = false → faulty (tock w) = false →
  fs w !! p = Some (NFile f) → readable f = true → content f = c →
  fileHash p w = ((sha256_hex c, None), tock (tock w)).
Proof. intros ???? <-. by apply fileHash_ok. Qed.

(** ** Modification times are never read *)

Lemma msim_insert m1 m2 p n1 n2 :
  msim m1 m2 → forget n1 = forget n2 → msim (<[p := n1]> m1) (<[p := n2]> m2).
Proof.
  intros H Hn k. destruct (decide (p = k)) as [->|Hne].
  - rewrite !lookup_insert_eq. simpl. by rewrite Hn.
  - rewrite !lookup_insert_ne by done. apply H.
Qed.

Lemma msim_cases m1 m2 k :
  msim m1 m2 →
  match m1 !! k, m2 !! k with
  | None, None => True
  | Some (NDir a), Some (NDir b) => a = b
  | Some (NFile f), Some (NFile g) =>
      content f = content g ∧ readable f = readable g ∧ writable f = writable g
  | _, _ => False
  end.
Proof.
  intros H. specialize (H k).
  destruct (m1 !! k) as [[f|a]|], (m2 !! k) as [[g|b]|]; simpl in H; try done.
  - by injection H.
  - by injection H.
Qed.

Lemma sim_faulty w1 w2 : same_but_mtime w1 w2 → faulty w1 = faulty w2.
Proof. intros (O & T & _). unfold faulty. by rewrite O, T. Qed.

Lemma sim_tock w1 w2 : same_but_mtime w1 w2 → same_but_mtime (tock w1) (tock w2).
Proof. intros (?&?&?&?&?&?&?&?). repeat split; simpl; try congruence; done. Qed.

Lemma sim_set_fs w1 w2 m1 m2 :
  same_but_mtime w1 w2 → msim m1 m2 →
  same_but_mtime (set_fs m1 w1) (set_fs m2 w2).
Proof. intros (?&?&?&?&?&?&?&?) Hm. repeat split; simpl; first [congruence | apply Hm]. Qed.

Lemma sim_print l w1 w2 :
  same_but_mtime w1 w2 → same_but_mtime (print l w1) (print l w2).
Proof. intros (?&?&?&?&?&?&?&?). repeat split; simpl; try congruence; done. Qed.

Lemma sim_writeFail m w1 w2 :
  same_but_mtime w1 w2 → same_but_mtime (writeFail m w1) (writeFail m w2).
Proof. intros (?&?&?&?&?&?&?&?). repeat split; simpl; try congruence; done. Qed.

Lemma sim_fs w1 w2 : same_but_mtime w1 w2 → msim (fs w1) (fs w2).
Proof. by intros (?&?&?&?). Qed.

Lemma os_Stat_respects p : respects (os_Stat p).
Proof.
  intros w1 w2 H. unfold os_Stat. simpl. rewrite (sim_faulty _ _ H).
  split; [| by apply sim_tock].
  destruct (faulty w2); [done |].
  pose proof (msim_cases _ _ p (sim_fs _ _ H)) as C.
  destruct (fs w1 !! p) as [[f1|?]|], (fs w2 !! p) as [[f2|?]|]; done.
Qed.

Lemma mkdir_respects p m1 m2 :
  msim m1 m2 → (mkdir p m1).1 = (mkdir p m2).1 ∧ msim (mkdir p m1).2 (mkdir p m2).2.
Proof.
  intros H. unfold mkdir.
  pose proof (msim_cases _ _ p H) as C1. pose proof (msim_cases _ _ (Dir p) H) as C2.
  destruct (m1 !! p) as [[?|?]|], (m2 !! p) as [[?|?]|]; try done;
  destruct (m1 !! Dir p) as [[?|?]|], (m2 !! Dir p) as [[?|?]|]; try done;
    simplify_eq; simpl; try done.
  case_match; simpl; split; try done. by apply msim_insert.
Qed.

Lemma mkdir_all_respects n p m1 m2 :
  msim m1 m2 →
  (mkdir_all n p m1).1 = (mkdir_all n p m2).1 ∧
  msim (mkdir_all n p m1).2 (mkdir_all n p m2).2.
Proof.
  revert p m1 m2. induction n as [|n IH]; intros p m1 m2 H; simpl;
    pose proof (msim_cases _ _ p H) as C;
    destruct (m1 !! p) as [[?|?]|], (m2 !! p) as [[?|?]|]; try done.
  specialize (IH (Dir p) m1 m2 H).
  destruct (mkdir_all n (Dir p) m1) as [[e1|] m1'],
           (mkdir_all n (Dir p) m2) as [[e2|] m2']; simpl in IH;
    destruct IH as [IH1 IH2]; try done.
  by apply mkdir_respects.
Qed.

Lemma os_MkdirAll_respects p : respects (os_MkdirAll p).
Proof.
  intros w1 w2 H. unfold os_MkdirAll. rewrite (sim_faulty _ _ H).
  destruct (faulty w2); [split; [done | by apply sim_tock] |].
  pose proof (mkdir_all_respects (length p) p _ _ (sim_fs _ _ H)) as [E M].
  destruct (mkdir_all _ p (fs w1)) as [e1 m1'], (mkdir_all _ p (fs w2)) as [e2 m2'].
  simpl in *. split; [done |]. apply sim_set_fs; [by apply sim_tock | done].
Qed.

Lemma os_Open_respects p : respects (os_Open p).
Proof.
  intros w1 w2 H. unfold os_Open. simpl. rewrite (sim_faulty _ _ H).
  split; [| by apply sim_tock].
  destruct (faulty w2); [done |].
  pose proof (msim_cases _ _ p (sim_fs _ _ H)) as C.
  destruct (fs w1 !! p) as [[f1|?]|], (fs w2 !! p) as [[f2|?]|]; try done.
  destruct C as (_ & -> & _). done.
Qed.

Lemma read_all_respects p : respects (read_all p).
Proof.
  intros w1 w2 H. unfold read_all. simpl. rewrite (sim_faulty _ _ H).
  split; [| by apply sim_tock].
  destruct (faulty w2); [done |].
  pose proof (msim_cases _ _ p (sim_fs _ _ H)) as C.
  destruct (fs w1 !! p) as [[f1|?]|], (fs w2 !! p) as [[f2|?]|]; try done.
  destruct C as (-> & _). done.
Qed.

Lemma sim_clock w1 w2 :
  same_but_mtime w1 w2 → clock (os w1) (tick w1) = clock (os w2) (tick w2).
Proof. intros (O & T & _). by rewrite O, T. Qed.

Lemma os_Create_respects p : respects (os_Create p).
Proof.
  intros w1 w2 H. unfold os_Create.
  rewrite (sim_faulty _ _ H), (sim_clock _ _ H).
  pose proof (sim_tock _ _ H) as Ht. pose proof (sim_fs _ _ H) as Hm.
  destruct (faulty w2); [done |].
  pose proof (msim_cases _ _ p Hm) as C1. pose proof (msim_cases _ _ (Dir p) Hm) as C2.
  destruct (fs w1 !! p) as [[f1|?]|], (fs w2 !! p) as [[f2|?]|]; try done.
  - destruct C1 as (Hc & Hr & Hw). rewrite Hr, Hw.
    destruct (readable f2 && writable f2); [| done].
    split; [done |]. apply sim_set_fs; [done |]. by apply msim_insert.
  - destruct (fs w1 !! Dir p) as [[?|?]|], (fs w2 !! Dir p) as [[?|?]|]; try done.
    simplify_eq. case_match; [| done].
    split; [done |]. apply sim_set_fs; [done |]. by apply msim_insert.
Qed.

Lemma write_all_respects p d w1 w2 :
  same_but_mtime w1 w2 → same_but_mtime (write_all p d w1) (write_all p d w2).
Proof.
  intros H. unfold write_all. rewrite (sim_clock _ _ H).
  pose proof (sim_fs _ _ H) as Hm.
  pose proof (msim_cases _ _ p Hm) as C1.
  destruct (fs w1 !! p) as [[f1|?]|], (fs w2 !! p) as [[f2|?]|]; try done.
  destruct C1 as (Hc & Hr & Hw). rewrite Hc, Hr, Hw.
  apply sim_set_fs; [done |]. by apply msim_insert.
Qed.

Lemma io_Copy_respects d s : respects (io_Copy d s).
Proof.
  intros w1 w2 H. unfold io_Copy. rewrite (sim_faulty _ _ H).
  destruct (faulty w2) eqn:Hf.
  { pose proof (msim_cases _ _ s (sim_fs _ _ H)) as C.
    assert (Ec : copy_fault (os w1) (tick w1) = copy_fault (os w2) (tick w2)).
    { destruct H as (O & T & _). by rewrite O, T. }
    destruct (fs w1 !! s) as [[f1|?]|], (fs w2 !! s) as [[f2|?]|]; try done;
      try (split; [done | by apply sim_tock]).
    destruct C as (-> & _). rewrite Ec.
    destruct (copy_fault (os w2) (tick w2)) as [n wr].
    split; [done |]. apply write_all_respects. by apply sim_tock. }
  destruct (read_all_respects s _ _ H) as [E S].
  destruct (read_all s w1) as [[d1 e1] w1'], (read_all s w2) as [[d2 e2] w2'].
  pairs. simplify_eq. destruct e2; [done |].
  split; [done |]. by apply write_all_respects.
Qed.

Lemma fileHash_respects p : respects (fileHash p).
Proof.
  intros w1 w2 H. unfold fileHash.
  destruct (os_Open_respects p _ _ H) as [E S].
  destruct (os_Open p w1) as [e1 w1'], (os_Open p w2) as [e2 w2'].
  pairs. simplify_eq. destruct e2; [done |].
  destruct (read_all_respects p _ _ S) as [E' S'].
  destruct (read_all p w1') as [[d1 x1] w1''], (read_all p w2') as [[d2 x2] w2''].
  pairs. simplify_eq. by destruct x2.
Qed.

Lemma copyFile_respects s d : respects (copyFile s d).
Proof.
  intros w1 w2 H. unfold copyFile.
  destruct (os_Open_respects s _ _ H) as [E S].
  destruct (os_Open s w1) as [e1 w1'], (os_Open s w2) as [e2 w2'].
  pairs. simplify_eq. destruct e2; [done |].
  destruct (os_Create_respects d _ _ S) as [E' S'].
  destruct (os_Create d w1') as [x1 w1''], (os_Create d w2') as [x2 w2''].
  pairs. simplify_eq. destruct x2; [done |].
  by apply io_Copy_respects.
Qed.

(** ** copyFile and fileHash, further *)

Lemma os_Stat_missing p w :
  faulty w = false → fs w !! p = None →
  os_Stat p w = (Some (PathError "CreateFile" p ErrNotExist), tock w).
Proof. intros Hf H. unfold os_Stat. by rewrite Hf, H. Qed.

Lemma copyFile_spawns s d w :
  spawned (copyFile s d w).2 = spawned w ∧ PATH (copyFile s d w).2 = PATH w.
Proof. by destruct (copyFile_quiet s d w) as (_ & _ & _ & _ & ? & ? & _). Qed.

(** No call on files removes a path. *)
Lemma copyFile_keeps src dst w k :
  is_Some (fs w !! k) → is_Some (fs (copyFile src dst w).2 !! k).
Proof.
  intros Hk. destruct (decide (k = dst)) as [->|Hne]; [| by rewrite copyFile_frame].
  unfold copyFile, os_Open, os_Create, io_Copy, read_all, write_all.
  repeat (case_match; simplify_eq; pairs; simpl in *; try done);
    rewrite ?lookup_insert_eq; try done; by destruct Hk.
Qed.

(** The destination after a copy that returned an error: as it was, or
    a file that holds the first bytes of the source, if any. *)
Lemma copyFile_failed_dst src dst w e :
  (copyFile src dst w).1 = Some e →
  fs (copyFile src dst w).2 !! dst = fs w !! dst ∨
  ∃ fd, fs (copyFile src dst w).2 !! dst = Some (NFile fd) ∧
        (content fd = EmptyString ∨
         ∃ fsrc, fs w !! src = Some (NFile fsrc) ∧
                 String.prefix (content fd) (content fsrc) = true).
Proof.
  unfold copyFile.
  destruct (os_Open src w) as [[e1|] w1] eqn:Eo; pairs.
  { intros _. left. by injection Eo as _ <-. }
  apply os_Open_ok in Eo as [-> Hsrc].
  destruct (os_Create dst (tock w)) as [[e2|] w2] eqn:Ec; pairs.
  { intros _. left. unfold os_Create in Ec. repeat case_match; simplify_eq; done. }
  apply os_Create_ok in Ec as (fc & Hfs2 & Hc & Hr).
  intros H. right.
  assert (Ed : fs w2 !! dst = Some (NFile fc)) by (rewrite Hfs2; apply lookup_insert_eq).
  unfold io_Copy, read_all, write_all in *.
  destruct (faulty w2).
  - destruct (decide (src = dst)) as [->|Hne].
    + rewrite Ed. destruct (copy_fault _ _) as [n wr]; pairs. simpl.
      rewrite Ed. simpl. rewrite lookup_insert_eq. eexists. split; [done |]. left. simpl.
      by rewrite Hc, substring_nil.
    + assert (Es : fs w2 !! src = fs w !! src) by (by rewrite Hfs2, lookup_insert_ne).
      rewrite Es.
      destruct Hsrc as [[b ->]|(f & -> & Hf)]; pairs; simpl.
      * rewrite Ed. eauto.
      * destruct (copy_fault _ _) as [n wr]; pairs. simpl. rewrite Ed. simpl.
        rewrite lookup_insert_eq. eexists. split; [done |]. right. exists f.
        split; [done |]. simpl. rewrite Hc. apply prefix_substring.
  - simpl in *. repeat (case_match; simplify_eq; pairs; simpl in * );
      rewrite ?lookup_insert_eq; eauto.
Qed.

Lemma copyFile_self p w :
  (copyFile p p w).1 = None →
  ∃ f, fs (copyFile p p w).2 !! p = Some (NFile f) ∧ content f = EmptyString.
Proof.
  unfold copyFile, os_Open, os_Create, io_Copy, read_all, write_all.
  repeat (case_match; simplify_eq; pairs; simpl in *; try done);
    rewrite ?lookup_insert_eq in *; simplify_eq; eauto.
Qed.

Lemma fileHash_error p w h e : (fileHash p w).1 = (h, Some e) → h = EmptyString.
Proof.
  unfold fileHash, os_Open, read_all.
  repeat (case_match; simplify_eq; pairs; simpl in *; try done); congruence.
Qed.

Lemma os_MkdirAll_created p w w' :
  os_MkdirAll p w = (None, w') → fs w !! p = None → fs w' !! p = Some (NDir true).
Proof.
  unfold os_MkdirAll. destruct (faulty w); [done |].
  destruct (mkdir_all _ _ _) as [e m'] eqn:E. intros [= -> <-] Hp. simpl.
  destruct (length p); simpl in E; rewrite Hp in E; [done |].
  destruct (mkdir_all _ (Dir p) (fs w)) as [[e1|] m1]; [done |].
  by apply mkdir_ok in E.
Qed.

(** A directory opens and cannot be read. *)
Lemma fileHash_dir p w b :
  faulty w = false → faulty (tock w) = false → fs w !! p = Some (NDir b) →
  fileHash p w = ((EmptyString, Some (PathError "read" p ErrIsDir)), tock (tock w)).
Proof.
  intros Hf1 Hf2 H. unfold fileHash, os_Open, read_all.
  rewrite Hf1, H. simpl. by rewrite Hf2, H.
Qed.

(** The copy of a directory leaves an empty file. *)
Lemma copyFile_from_dir src dst w b :
  faulty w = false → faulty (tock w) = false → faulty (tock (tock w)) = false →
  fs w !! src = Some (NDir b) → fs w !! dst = None → fs w !! Dir dst = Some (NDir true) →
  copyFile src dst w
  = (Some (PathError "read" src ErrIsDir),
     tock (set_fs (<[dst := NFile (File EmptyString (clock (os w) (S (tick w))) true true)]>
                     (fs w))
                  (tock (tock w)))).
Proof.
  intros Hf1 Hf2 Hf3 Hs Hd Hp.
  assert (Hne : dst ≠ src) by congruence.
  unfold copyFile, os_Open, os_Create, io_Copy, read_all, write_all.
  unfold faulty in *. simpl in Hf2, Hf3.
  rewrite Hf1, Hs. simpl. rewrite Hf2, Hd, Hp. simpl.
  rewrite Hf3. rewrite lookup_insert_ne by done. by rewrite Hs.
Qed.

(** No file is created over a directory. *)
Lemma copyFile_onto_dir src dst w f b :
  faulty w = false → faulty (tock w) = false →
  fs w !! src = Some (NFile f) → readable f = true → fs w !! dst = Some (NDir b) →
  copyFile src dst w = (Some (PathError "open" dst ErrIsDir), tock (tock w)).
Proof.
  intros Hf1 Hf2 Hs Hr Hd.
  unfold copyFile, os_Open, os_Create. unfold faulty in *. simpl in Hf2.
  rewrite Hf1, Hs, Hr. simpl. by rewrite Hf2, Hd.
Qed.

(** What is on the terminal plays no part in a copy. *)
Lemma copyFile_print src dst l w :
  copyFile src dst (print l w)
  = ((copyFile src dst w).1, print l (copyFile src dst w).2).
Proof.
  unfold copyFile, os_Open, os_Create, io_Copy, read_all, write_all, faulty.
  cbn [print tock set_fs os tick fs fst snd].
  repeat (case_match; simplify_eq; cbn [print tock set_fs os tick fs fst snd] in *; try done).
Qed.

(** ** deployConfigFile *)

Opaque os_Stat os_MkdirAll os_Open read_all os_Create write_all io_Copy
       fileHash copyFile time_Now.

Lemma deploy_phases srcRel target w :
  deployConfigFile srcRel target w =
  match deploy_check srcRel target w with
  | (Differs _ _ _ _, wb) =>
      deploy_copy srcRel (Join (scriptRoot w) srcRel) target (deploy_backup target wb)
  | (NoTarget, wb) => deploy_copy srcRel (Join (scriptRoot w) srcRel) target wb
  | (_, wb) => wb
  end.
Proof.
  unfold deployConfigFile, deploy_check.
  destruct (os_Stat _ w) as [e1 w1]. destruct (IsNotExist e1); [done |].
  destruct (os_MkdirAll _ w1) as [e2 w2]. destruct (negb (is_nil e2)); [done |].
  destruct (os_Stat target w2) as [e3 w3]. destruct (is_nil e3); [| done].
  destruct (fileHash _ w3) as [[h1 err1] w4].
  destruct (fileHash target w4) as [[h2 err2] w5].
  by destruct (is_nil err1 && is_nil err2 && String.eqb h1 h2).
Qed.

(** What lines 160-179 leave: a message for the three verdicts that end
    the call, and otherwise a world in which the directory of the target
    exists. *)
Lemma deploy_check_post srcRel target w v wb :
  deploy_check srcRel target w = (v, wb) →
  os wb = os w ∧ scriptRoot wb = scriptRoot w ∧ tick w ≤ tick wb ∧
  grows (Dir target) (fs w) (fs wb) ∧
  match v with
  | SourceMissing =>
      console wb = console w ++ [FAIL ("Source config not found: " +:+ show_path srcRel)] ∧
      failures wb = failures w ++ ["Source config not found: " +:+ show_path srcRel]
  | NoDirectory =>
      console wb = console w ++ [FAIL ("Failed to create directory: " +:+ show_path (Dir target))] ∧
      failures wb = failures w ++ ["Failed to create directory: " +:+ show_path (Dir target)]
  | UpToDate =>
      console wb = console w ++ [IsUpToDate target] ∧ failures wb = failures w ∧
      ∃ fsrc ft b,
        fs wb !! Join (scriptRoot w) srcRel = Some (NFile fsrc) ∧
        fs wb !! target = Some (NFile ft) ∧
        sha256_hex (content ft) = sha256_hex (content fsrc) ∧
        readable fsrc = true ∧ readable ft = true ∧
        fs wb !! Dir target = Some (NDir b)
  | Differs _ _ _ _ =>
      console wb = console w ∧ failures wb = failures w ∧
      (∃ b, fs wb !! Dir target = Some (NDir b)) ∧ is_Some (fs wb !! target)
  | NoTarget =>
      console wb = console w ∧ failures wb = failures w ∧
      ∃ b, fs wb !! Dir target = Some (NDir b)
  end.
Proof.
  unfold deploy_check. intros H.
  pose proof (os_Stat_quiet (Join (scriptRoot w) srcRel) w) as Q1.
  destruct (os_Stat _ w) as [e1 w1] eqn:E1; pairs.
  assert (F1 : fs w1 = fs w) by (by injection E1 as _ <-).
  destruct Q1 as (O1&R1&C1&L1&_&_&T1).
  destruct (IsNotExist e1).
  { simplify_eq. simpl in *.
    repeat split; try congruence; try lia. rewrite F1. apply grows_refl. }
  pose proof (os_MkdirAll_quiet (Dir target) w1) as Q2.
  pose proof (os_MkdirAll_grows (Dir target) w1) as G2.
  destruct (os_MkdirAll _ w1) as [e2 w2] eqn:E2; pairs.
  destruct Q2 as (O2&R2&C2&L2&_&_&T2). rewrite F1 in G2.
  destruct e2 as [e2|]; simpl in H.
  { simplify_eq. simpl in *. repeat split; try congruence; try lia. done. }
  apply os_MkdirAll_ok in E2 as [b Hb].
  pose proof (os_Stat_quiet target w2) as Q3.
  destruct (os_Stat target w2) as [e3 w3] eqn:E3; pairs.
  assert (F3 : fs w3 = fs w2) by (by injection E3 as _ <-).
  destruct Q3 as (O3&R3&C3&L3&_&_&T3).
  destruct e3 as [e3|]; simpl in H.
  { simplify_eq. simpl in *. rewrite ?F3.
    repeat split; try congruence; try lia; eauto. }
  apply os_Stat_ok in E3.
  pose proof (fileHash_quiet (Join (scriptRoot w) srcRel) w3) as Q4.
  pose proof (fileHash_fs (Join (scriptRoot w) srcRel) w3) as F4.
  destruct (fileHash _ w3) as [[h1 err1] w4] eqn:E4; pairs.
  pose proof (fileHash_quiet target w4) as Q5.
  pose proof (fileHash_fs target w4) as F5.
  destruct (fileHash target w4) as [[h2 err2] w5] eqn:E5; pairs.
  destruct Q4 as (O4&R4&C4&L4&_&_&T4). destruct Q5 as (O5&R5&C5&L5&_&_&T5).
  destruct (is_nil err1 && is_nil err2 && String.eqb h1 h2) eqn:Eq.
  - destruct err1, err2; try done. simpl in Eq. apply String.eqb_eq in Eq.
    apply fileHash_computed in E4 as (fsrc & Hs & Hr1 & ->).
    apply fileHash_computed in E5 as (ft & Ht & Hr2 & Hh).
    rewrite F3 in Hs. rewrite F4, F3 in Ht.
    simplify_eq. simpl. rewrite F5, F4, F3. unfold IsUpToDate.
    split_and!; try congruence; try lia; [done |].
    by exists fsrc, ft, b.
  - simplify_eq. simpl in *. rewrite ?F5, ?F4, ?F3.
    repeat split; try congruence; try lia; eauto.
Qed.

(** *** Paths *)

Lemma length_add_suffix (p : path) s : length (add_suffix p s) = max 1 (length p).
Proof.
  induction p as [|x [|y p] IH]; [done | done |].
  change (add_suffix (x :: y :: p) s) with (x :: add_suffix (y :: p) s).
  simpl length in *. lia.
Qed.

Lemma length_Dir (p : path) : length (Dir p) = length p - 1.
Proof. unfold Dir. rewrite length_take. lia. Qed.

Lemma add_suffix_ne_Dir (p : path) s : add_suffix p s ≠ Dir p.
Proof.
  intros H. apply (f_equal length) in H.
  rewrite length_add_suffix, length_Dir in H. lia.
Qed.

Lemma add_suffix_ne (p : path) s : s ≠ EmptyString → add_suffix p s ≠ p.
Proof.
  intros Hs. induction p as [|x [|y p] IH]; [done | |].
  - intros [= H]. apply (f_equal String.length) in H.
    rewrite length_append in H. destruct s; [done | simpl in H; lia].
  - change (add_suffix (x :: y :: p) s) with (x :: add_suffix (y :: p) s).
    intros [= H]. by apply IH.
Qed.

Lemma add_suffix_snoc (q : path) x s : add_suffix (q ++ [x]) s = q ++ [x +:+ s].
Proof.
  induction q as [|y q IH]; [done |].
  destruct q as [|z q]; [done |]. simpl in *. by rewrite IH.
Qed.

Lemma Dir_snoc (q : path) x : Dir (q ++ [x]) = q.
Proof.
  unfold Dir. rewrite length_app. simpl.
  replace (length q + 1 - 1) with (length q) by lia.
  by rewrite take_app_length.
Qed.

Lemma Dir_add_suffix (p : path) s : p ≠ [] → Dir (add_suffix p s) = Dir p.
Proof.
  destruct p as [|x q] using rev_ind; [done | intros _].
  by rewrite add_suffix_snoc, !Dir_snoc.
Qed.

Lemma backupPath_ne target now : backupPath target now ≠ target.
Proof. apply add_suffix_ne. done. Qed.

Lemma backupPath_ne_Dir target now : backupPath target now ≠ Dir target.
Proof. apply add_suffix_ne_Dir. Qed.

(** *** The two copies *)

Lemma reported_app w w' out :
  console w' = console w ++ out → reported w w' = last out.
Proof. intros H. unfold reported. by rewrite H, drop_app_length. Qed.

Lemma deploy_backup_post target w :
  let now := clock (os w) (tick w) in
  let w' := deploy_backup target w in
  os w' = os w ∧ scriptRoot w' = scriptRoot w ∧ tick w ≤ tick w' ∧
  console w' = console w ++ [BackedUp target now] ∧
  failures w' = failures w ∧
  ∀ k, k ≠ backupPath target now → fs w' !! k = fs w !! k.
Proof.
  unfold deploy_backup.
  pose proof (time_Now_quiet w) as Q1.
  assert (E : time_Now w = (clock (os w) (tick w), tock w)) by done.
  rewrite E in *. pairs.
  pose proof (copyFile_quiet target (backupPath target (clock (os w) (tick w))) (tock w)) as Q2.
  pose proof (copyFile_frame target (backupPath target (clock (os w) (tick w))) (tock w)) as F2.
  destruct (copyFile _ _ (tock w)) as [e w2]; pairs.
  destruct Q1 as (O1&R1&C1&L1&_&_&T1). destruct Q2 as (O2&R2&C2&L2&_&_&T2).
  simpl. unfold BackedUp. repeat split; try congruence; try lia.
  intros k Hk. by rewrite F2.
Qed.

Lemma deploy_copy_post srcRel src target w :
  let w' := deploy_copy srcRel src target w in
  os w' = os w ∧ scriptRoot w' = scriptRoot w ∧ tick w ≤ tick w' ∧
  (∀ k, k ≠ target → fs w' !! k = fs w !! k) ∧
  ((∃ err w1, copyFile src target w = (Some err, w1) ∧ fs w' = fs w1 ∧
      console w' = console w ++
        [FAIL ("Failed to deploy " +:+ show_path srcRel +:+ ": " +:+ Error err)] ∧
      failures w' = failures w ++
        ["Failed to deploy " +:+ show_path srcRel +:+ ": " +:+ Error err]) ∨
   (∃ w1, copyFile src target w = (None, w1) ∧ fs w' = fs w1 ∧
      console w' = console w ++ [Deployed srcRel target] ∧
      failures w' = failures w)).
Proof.
  unfold deploy_copy.
  pose proof (copyFile_quiet src target w) as Q.
  pose proof (copyFile_frame src target w) as F.
  destruct (copyFile src target w) as [[err|] w1]; pairs;
    destruct Q as (O1&R1&C1&L1&_&_&T1); simpl; unfold Deployed;
    (repeat split; [congruence..| lia | done |]).
  - left. exists err, w1. repeat split; congruence.
  - right. exists w1. repeat split; congruence.
Qed.

(** What a call that reports [Deployed] leaves behind. *)
Lemma deployed_post srcRel target w :
  let w' := deployConfigFile srcRel target w in
  reported w w' = Some (Deployed srcRel target) →
  os w' = os w ∧ scriptRoot w' = scriptRoot w ∧ tick w ≤ tick w' ∧
  failures w' = failures w ∧
  ∃ fsrc ft b,
    fs w' !! Join (scriptRoot w) srcRel = Some (NFile fsrc) ∧
    fs w' !! target = Some (NFile ft) ∧
    content ft = content fsrc ∧ readable fsrc = true ∧ readable ft = true ∧
    fs w' !! Dir target = Some (NDir b).
Proof.
  intros w'. subst w'. rewrite deploy_phases.
  destruct (deploy_check srcRel target w) as [v wb] eqn:Ec.
  apply deploy_check_post in Ec as (Ob & Rb & Tb & Gb & Hv).
  assert (Hfin : ∀ w0, os w0 = os w → scriptRoot w0 = scriptRoot w →
            tick w ≤ tick w0 → console w0 = console w ∨ (∃ l, console w0 = console w ++ [l]) →
            failures w0 = failures w →
            (∃ b, fs w0 !! Dir target = Some (NDir b)) →
            let w' := deploy_copy srcRel (Join (scriptRoot w) srcRel) target w0 in
            reported w w' = Some (Deployed srcRel target) →
            os w' = os w ∧ scriptRoot w' = scriptRoot w ∧ tick w ≤ tick w' ∧
            failures w' = failures w ∧
            ∃ fsrc ft b,
              fs w' !! Join (scriptRoot w) srcRel = Some (NFile fsrc) ∧
              fs w' !! target = Some (NFile ft) ∧
              content ft = content fsrc ∧ readable fsrc = true ∧ readable ft = true ∧
              fs w' !! Dir target = Some (NDir b)).
  { intros w0 O0 R0 T0 C0 L0 [b Hb] w'.
    destruct (deploy_copy_post srcRel (Join (scriptRoot w) srcRel) target w0)
      as (O1 & R1 & T1 & F1 & Hcases). fold w' in O1, R1, T1, F1, Hcases.
    intros Hrep.
    destruct Hcases as [(err & w1 & _ & _ & C1 & _)|(w1 & Hcopy & Hfs & C1 & L1)].
    - exfalso. destruct C0 as [C0|[l C0]]; rewrite C0 in C1.
      + rewrite (reported_app _ _ _ C1) in Hrep. done.
      + rewrite <- app_assoc in C1. rewrite (reported_app _ _ _ C1) in Hrep. done.
    - repeat split; try congruence; try lia.
      destruct (copyFile_ok _ _ _ _ Hcopy) as (fsrc & ft & Hs & Ht & Hc & Hr1 & Hr2).
      exists fsrc, ft, b. rewrite Hfs. repeat split; try done.
      rewrite <- Hfs, F1; [done |].
      intros E. apply (copyFile_not_dir _ _ _ _ b) in Hcopy. congruence. }
  destruct v; try (destruct Hv as [Cv Lv]; intros Hrep;
                   rewrite (reported_app _ _ _ Cv) in Hrep; done).
  - destruct Hv as (Cb & Lb & [b Hb] & _).
    destruct (deploy_backup_post target wb) as (O1 & R1 & T1 & C1 & L1 & F1).
    apply Hfin; try congruence; try lia.
    + right. eexists. rewrite C1, Cb. done.
    + exists b. rewrite F1; [done |]. intros E. symmetry in E.
      by apply backupPath_ne_Dir in E.
  - destruct Hv as (Cb & Lb & b & Hb).
    apply Hfin; try congruence; try lia; eauto.
Qed.

(** ** The properties of the deployer *)

Import Sample.

Ltac no_fault Hff := unfold faulty; simpl; apply Hff; simpl; lia.

(** C2. After a call that reports [Deployed], nothing was added to the
    failure log and the SHA-256 fingerprint of the target file equals the
    fingerprint of the source file. *)
Theorem deploy_fingerprint (srcRel target : path) (w : World) :
  reported w (deployConfigFile srcRel target w) = Some (Deployed srcRel target) →
  failures (deployConfigFile srcRel target w) = failures w ∧
  ∃ fsrc ft,
    fs (deployConfigFile srcRel target w) !! Join (scriptRoot w) srcRel = Some (NFile fsrc) ∧
    fs (deployConfigFile srcRel target w) !! target = Some (NFile ft) ∧
    sha256_hex (content ft) = sha256_hex (content fsrc).
Proof.
  intros H. apply deployed_post in H as (_ & _ & _ & L & fsrc & ft & b & Hs & Ht & Hc & _).
  split; [done |]. exists fsrc, ft. by rewrite Hc.
Qed.

(** The first deploy into [fresh] reports [Deployed]. *)
Lemma deploy_fingerprint_witness :
  reported fresh (deployConfigFile rel tgt fresh) = Some (Deployed rel tgt) ∧
  failures (deployConfigFile rel tgt fresh) = failures fresh ∧
  ∃ fsrc ft,
    fs (deployConfigFile rel tgt fresh) !! Join (scriptRoot fresh) rel = Some (NFile fsrc) ∧
    fs (deployConfigFile rel tgt fresh) !! tgt = Some (NFile ft) ∧
    sha256_hex (content ft) = sha256_hex (content fsrc).
Proof.
  split; [vm_compute; reflexivity |].
  apply (deploy_fingerprint rel tgt fresh). vm_compute. reflexivity.
Defined.

(** What a call that reports that the target is up to date has found. *)
Lemma uptodate_post srcRel target w :
  reported w (deployConfigFile srcRel target w) = Some (IsUpToDate target) →
  scriptRoot (deployConfigFile srcRel target w) = scriptRoot w ∧
  ∃ fsrc ft b,
    fs (deployConfigFile srcRel target w) !! Join (scriptRoot w) srcRel = Some (NFile fsrc) ∧
    fs (deployConfigFile srcRel target w) !! target = Some (NFile ft) ∧
    sha256_hex (content ft) = sha256_hex (content fsrc) ∧
    readable fsrc = true ∧ readable ft = true ∧
    fs (deployConfigFile srcRel target w) !! Dir target = Some (NDir b).
Proof.
  rewrite deploy_phases.
  destruct (deploy_check srcRel target w) as [v wb] eqn:Ec.
  apply deploy_check_post in Ec as (Ob & Rb & Tb & Gb & Hv).
  assert (Hcopy : ∀ w0, console w0 = console w ∨ (∃ l, console w0 = console w ++ [l]) →
            reported w (deploy_copy srcRel (Join (scriptRoot w) srcRel) target w0)
              ≠ Some (IsUpToDate target)).
  { intros w0 C0.
    destruct (deploy_copy_post srcRel (Join (scriptRoot w) srcRel) target w0)
      as (_ & _ & _ & _ & Hcases).
    destruct Hcases as [(err & w1 & _ & _ & C1 & _)|(w1 & _ & _ & C1 & _)];
      destruct C0 as [C0|[l C0]]; rewrite C0 in C1;
      rewrite <- ?app_assoc in C1; rewrite (reported_app _ _ _ C1); done. }
  destruct v.
  - destruct Hv as [Cv _]. by rewrite (reported_app _ _ _ Cv).
  - destruct Hv as [Cv _]. by rewrite (reported_app _ _ _ Cv).
  - destruct Hv as (_ & _ & Hfiles). done.
  - destruct Hv as (Cb & _).
    destruct (deploy_backup_post target wb) as (_ & _ & _ & C1 & _).
    intros Hrep. exfalso. revert Hrep. apply Hcopy. right. eexists. by rewrite C1, Cb.
  - destruct Hv as (Cb & _). intros Hrep. exfalso. revert Hrep. apply Hcopy. by left.
Qed.

(** C4, as amended. A second call after one that succeeded (it reported
    [Deployed], or that the target was up to date), with nothing changed
    in between and no system call failing in it, reports that the target
    is up to date and leaves the file system as it is: no backup file,
    the same target. *)
Theorem deploy_idempotent (srcRel target : path) (w : World) :
  reported w (deployConfigFile srcRel target w) = Some (Deployed srcRel target) ∨
  reported w (deployConfigFile srcRel target w) = Some (IsUpToDate target) →
  fault_free (deployConfigFile srcRel target w) →
  console (deployConfigFile srcRel target (deployConfigFile srcRel target w))
    = console (deployConfigFile srcRel target w) ++ [IsUpToDate target] ∧
  fs (deployConfigFile srcRel target (deployConfigFile srcRel target w))
    = fs (deployConfigFile srcRel target w) ∧
  failures (deployConfigFile srcRel target (deployConfigFile srcRel target w))
    = failures (deployConfigFile srcRel target w).
Proof.
  intros H Hff.
  assert (Hpost : scriptRoot (deployConfigFile srcRel target w) = scriptRoot w ∧
    ∃ fsrc ft b,
      fs (deployConfigFile srcRel target w) !! Join (scriptRoot w) srcRel = Some (NFile fsrc) ∧
      fs (deployConfigFile srcRel target w) !! target = Some (NFile ft) ∧
      sha256_hex (content ft) = sha256_hex (content fsrc) ∧
      readable fsrc = true ∧ readable ft = true ∧
      fs (deployConfigFile srcRel target w) !! Dir target = Some (NDir b)).
  { destruct H as [H|H].
    - apply deployed_post in H
        as (_ & R & _ & _ & fsrc & ft & b & Hs & Ht & Hc & Hr1 & Hr2 & Hd).
      split; [done |]. exists fsrc, ft, b. by rewrite Hc.
    - by apply uptodate_post. }
  clear H. destruct Hpost as (R & fsrc & ft & b & Hs & Ht & Hc & Hr1 & Hr2 & Hd).
  revert R Hs Ht Hd Hff. generalize (deployConfigFile srcRel target w) as w1.
  intros w1 R Hs Ht Hd Hff.
  unfold deployConfigFile. rewrite R.
  rewrite (os_Stat_found _ _ _ ltac:(no_fault Hff) Hs). simpl.
  rewrite (os_MkdirAll_existing _ _ b) by (first [no_fault Hff | done]). simpl.
  rewrite (os_Stat_found _ _ (NFile ft)) by (first [no_fault Hff | done]). simpl.
  rewrite (fileHash_ok _ _ fsrc) by (first [no_fault Hff | done]).
  rewrite (fileHash_ok _ _ ft) by (first [no_fault Hff | done]).
  rewrite Hc, String.eqb_refl. simpl. done.
Qed.

(** Two deploys in a row into [fresh]. *)
Lemma deploy_idempotent_witness :
  reported fresh (deployConfigFile rel tgt fresh) = Some (Deployed rel tgt) ∧
  console (deployConfigFile rel tgt (deployConfigFile rel tgt fresh))
    = console (deployConfigFile rel tgt fresh) ++ [IsUpToDate tgt] ∧
  fs (deployConfigFile rel tgt (deployConfigFile rel tgt fresh))
    = fs (deployConfigFile rel tgt fresh) ∧
  failures (deployConfigFile rel tgt (deployConfigFile rel tgt fresh))
    = failures (deployConfigFile rel tgt fresh).
Proof.
  split; [vm_compute; reflexivity |].
  apply (deploy_idempotent rel tgt fresh); [left; vm_compute; reflexivity |].
  intros t _. reflexivity.
Defined.

(** C4, counterexample. In [relapse] the first call deploys the source;
    in the second call, made at once, the source cannot be opened to be
    hashed: the call does not report that the target is up to date, it
    backs the target up, in a file that was not there, and deploys the
    source again. *)
Lemma second_deploy_replaces :
  let first := deployConfigFile rel tgt relapse in
  let second := deployConfigFile rel tgt first in
  reported relapse first = Some (Deployed rel tgt) ∧
  fs first !! tgt = Some (NFile (File "X" later true true)) ∧
  fs first !! backupPath tgt later = None ∧
  console second = console first ++ [BackedUp tgt later; Deployed rel tgt] ∧
  fs second !! backupPath tgt later = Some (NFile (File "X" later true true)) ∧
  fs second !! tgt = Some (NFile (File "X" later true true)).
Proof. split_and!; vm_compute; reflexivity. Qed.

Lemma time_Now_eq w : time_Now w = (clock (os w) (tick w), tock w).
Proof. done. Qed.

(** C1, as amended. In a call in which no system call fails, with a
    source file that can be read and a target that, if it is there, is a
    file that can be read, in a directory in which files can be created,
    with nothing yet at its backup path for the current second: a backup
    file appears at the target path plus [".bak."] and a time stamp if
    and only if a file was at the target path and its SHA-256 fingerprint
    differed from the source's.  A backup file that appears holds the
    content the target had, and the backup files of earlier calls stay
    as they are. *)
Theorem backup_when_replaced (srcRel target : path) (w : World) (fsrc : file) :
  fault_free w →
  fs w !! Join (scriptRoot w) srcRel = Some (NFile fsrc) → readable fsrc = true →
  (∀ n, fs w !! target = Some n →
        (∃ ft, n = NFile ft ∧ readable ft = true) ∧
        fs w !! Dir target = Some (NDir true) ∧
        fs w !! backupPath target (clock (os w) (7 + tick w)) = None) →
  backup_invariant srcRel target w ∧
  (∀ t fb, fs w !! backupPath target t = None →
           fs (deployConfigFile srcRel target w) !! backupPath target t = Some (NFile fb) →
           ∃ ft, fs w !! target = Some (NFile ft) ∧ content fb = content ft) ∧
  (∀ t n, fs w !! backupPath target t = Some n →
          fs (deployConfigFile srcRel target w) !! backupPath target t = Some n).
Proof.
  intros Hff Hs Hr Ht.
  destruct (fs w !! target) as [n|] eqn:En.
  - (* a target is there *)
    destruct (Ht n eq_refl) as ((ft & -> & Hrt) & Hd & Hfree). clear Ht.
    assert (Hne : target ≠ []).
    { intros ->. unfold Dir in Hd. simpl in Hd. congruence. }
    assert (Heval : deployConfigFile srcRel target w =
      if String.eqb (sha256_hex (content fsrc)) (sha256_hex (content ft))
      then writeSkip (show_path target +:+ " is up to date")
             (tock (tock (tock (tock (tock (set_fs (fs w) (tock (tock w))))))))
      else deploy_copy srcRel (Join (scriptRoot w) srcRel) target
             (deploy_backup target
               (tock (tock (tock (tock (tock (set_fs (fs w) (tock (tock w)))))))))).
    { unfold deployConfigFile.
      rewrite (os_Stat_found _ _ _ ltac:(no_fault Hff) Hs). simpl.
      rewrite (os_MkdirAll_existing _ _ true) by (first [no_fault Hff | done]). simpl.
      rewrite (os_Stat_found _ _ (NFile ft)) by (first [no_fault Hff | done]). simpl.
      rewrite (fileHash_ok _ _ fsrc) by (first [no_fault Hff | done]).
      rewrite (fileHash_ok _ _ ft) by (first [no_fault Hff | done]).
      simpl. done. }
    rewrite Heval. unfold backup_invariant. rewrite Heval. clear Heval.
    destruct (String.eqb _ _) eqn:Eq.
    + apply String.eqb_eq in Eq. simpl. split_and!.
      * intros f Hf. assert (f = fsrc) as -> by congruence. split.
        -- intros (t & fb & Hnone & Hb). congruence.
        -- intros (ft' & Hft & Hneq). assert (ft' = ft) as -> by congruence.
           by rewrite Eq in Hneq.
      * intros t fb Hnone Hb. congruence.
      * done.
    + apply String.eqb_neq in Eq.
      set (wb := tock (tock (tock (tock (tock (set_fs (fs w) (tock (tock w)))))))).
      set (now := clock (os wb) (tick wb)).
      change (clock (os w) (7 + tick w)) with now in Hfree.
      assert (Hbk : ∃ tm, fs (deploy_backup target wb)
                = <[backupPath target now := NFile (File (content ft) tm true true)]> (fs w)).
      { unfold deploy_backup. rewrite time_Now_eq. fold now.
        destruct (copyFile_new target (backupPath target now) (tock wb) ft)
          as (w2 & -> & tm & Hfs);
          try (subst wb; no_fault Hff); try done.
        - simpl. unfold backupPath. by rewrite Dir_add_suffix.
        - exists tm. simpl. by rewrite Hfs. }
      destruct Hbk as [tm Hbk].
      destruct (deploy_copy_post srcRel (Join (scriptRoot w) srcRel) target
                  (deploy_backup target wb)) as (_ & _ & _ & Fr & _).
      assert (Hlook : ∀ t, fs (deploy_copy srcRel (Join (scriptRoot w) srcRel) target
                                  (deploy_backup target wb)) !! backupPath target t
                = if decide (backupPath target now = backupPath target t)
                  then Some (NFile (File (content ft) tm true true))
                  else fs w !! backupPath target t).
      { intros t. rewrite Fr by apply backupPath_ne. rewrite Hbk.
        rewrite lookup_insert. by case_decide. }
      split_and!.
      * intros f Hf. assert (f = fsrc) as -> by congruence. split.
        -- intros _. exists ft. split; [done | congruence].
        -- intros _. exists now. eexists. split; [apply Hfree |].
           rewrite Hlook. by rewrite decide_True.
      * intros t fb Hnone. rewrite Hlook. case_decide; [| congruence].
        intros [= <-]. by exists ft.
      * intros t n Hn. rewrite Hlook. case_decide as E; [| done].
        rewrite <- E in Hn. congruence.
  - (* no target *)
    clear Ht.
    assert (Hframe : ∀ k, k ≠ target →
      fs (deployConfigFile srcRel target w) !! k = fs w !! k ∨
      fs w !! k = None ∧ fs (deployConfigFile srcRel target w) !! k = Some (NDir true)).
    { intros k Hk. rewrite deploy_phases.
      destruct (deploy_check srcRel target w) as [v wb] eqn:Ec.
      apply deploy_check_post in Ec as (_ & _ & _ & G & Hv).
      assert (Hwb : fs wb !! k = fs w !! k ∨ fs w !! k = None ∧ fs wb !! k = Some (NDir true)).
      { destruct (G k) as [E|(E1 & E2 & _)]; auto. }
      destruct v; try done.
      - exfalso. destruct Hv as (_ & _ & _ & [n Hn]).
        destruct (G target) as [E|(_ & _ & Hp & Hne)]; [congruence |].
        apply prefix_length in Hp. rewrite length_Dir in Hp.
        destruct target; [congruence | simpl in Hp; lia].
      - destruct (deploy_copy_post srcRel (Join (scriptRoot w) srcRel) target wb)
          as (_ & _ & _ & Fr & _).
        by rewrite Fr. }
    split_and!.
    + intros f Hf. split.
      * intros (t & fb & Hnone & Hb).
        destruct (Hframe (backupPath target t) (backupPath_ne _ _)) as [E|[_ E]];
          congruence.
      * intros (ft & Hft & _). congruence.
    + intros t fb Hnone Hb.
      destruct (Hframe (backupPath target t) (backupPath_ne _ _)) as [E|[_ E]];
        congruence.
    + intros t n Hn.
      destruct (Hframe (backupPath target t) (backupPath_ne _ _)) as [E|[E _]];
        congruence.
Qed.

(** Evaluates the left-hand side and gives its value to the right-hand
    side, which may be unknown yet. *)
Ltac run_call :=
  lazymatch goal with
  | |- ?l = ?r => let v := eval vm_compute in l in unify r v; vm_compute; reflexivity
  end.

(** In [sealed] the target differs from the source and is replaced, and
    no backup file appears: the backup copy cannot create its file, and
    its error is dropped. *)
Lemma no_backup_in_sealed : ¬ backup_invariant rel tgt sealed.
Proof.
  intros H. unfold backup_invariant in H.
  destruct (H (File "X" noon true true) eq_refl) as [_ H2].
  destruct H2 as (t & fb & Hnone & Hsome).
  { exists (File "Y" noon true true). split; [reflexivity |].
    vm_compute. discriminate. }
  apply elem_of_map_to_list in Hsome.
  (let l := eval vm_compute in (map_to_list (fs (deployConfigFile rel tgt sealed))) in
   replace (map_to_list (fs (deployConfigFile rel tgt sealed))) with l in Hsome
     by (vm_compute; reflexivity)).
  (repeat (apply elem_of_cons in Hsome as [Hsome|Hsome];
          [first [discriminate Hsome
                 | injection Hsome as E _; rewrite E in Hnone;
                   vm_compute in Hnone; discriminate] |])).
  by apply elem_of_nil in Hsome.
Qed.

(** In [guarded] the two files have the same content, hence the same
    fingerprint, and a backup file appears all the same: the source cannot
    be read, and a fingerprint that cannot be computed counts as a
    difference. *)
Lemma backup_of_equal_content : ¬ backup_invariant rel tgt guarded.
Proof.
  intros H. unfold backup_invariant in H.
  destruct (H (File "X" noon false true) eq_refl) as [H1 _].
  destruct H1 as (ft & Hft & Hneq).
  { exists later. eexists. split; run_call. }
  vm_compute in Hft. injection Hft as <-. by apply Hneq.
Qed.

(** In [crowded] the target differs from the source and is replaced, and
    its content goes to the backup path of the current second, where a
    file was already: no backup file appears, an older one is
    overwritten. *)
Lemma no_new_backup_in_crowded :
  ¬ backup_invariant rel tgt crowded ∧
  fs crowded !! backupPath tgt later = Some (plain "W") ∧
  fs (deployConfigFile rel tgt crowded) !! backupPath tgt later
    = Some (NFile (File "Y" later true true)).
Proof.
  split; [| split; vm_compute; reflexivity].
  intros H. unfold backup_invariant in H.
  destruct (H (File "X" noon true true)) as [_ H2]; [vm_compute; reflexivity |].
  destruct H2 as (t & fb & Hnone & Hsome).
  { exists (File "Y" noon true true). split; [vm_compute; reflexivity |].
    vm_compute. discriminate. }
  apply elem_of_map_to_list in Hsome.
  (let l := eval vm_compute in (map_to_list (fs (deployConfigFile rel tgt crowded))) in
   replace (map_to_list (fs (deployConfigFile rel tgt crowded))) with l in Hsome
     by (vm_compute; reflexivity)).
  (repeat (apply elem_of_cons in Hsome as [Hsome|Hsome];
          [first [discriminate Hsome
                 | apply (f_equal fst) in Hsome; cbn [fst] in Hsome;
                   rewrite Hsome in Hnone; vm_compute in Hnone; discriminate] |])).
  by apply elem_of_nil in Hsome.
Qed.

(** C1, counterexample. The backup invariant as the specification states
    it fails in both directions: a differing target replaced without a
    backup file appearing, because the backup copy fails ([sealed]) or
    lands on the backup of the same second ([crowded]), and a backup of a
    target whose fingerprint equals the source's ([guarded]). *)
Lemma backup_invariant_fails :
  ¬ backup_invariant rel tgt sealed ∧ ¬ backup_invariant rel tgt guarded ∧
  ¬ backup_invariant rel tgt crowded.
Proof.
  split_and!;
    [exact no_backup_in_sealed | exact backup_of_equal_content
    | exact (proj1 no_new_backup_in_crowded)].
Qed.

(** In [rerun] every condition holds: the target is backed up beside the
    backup of an earlier call, which stays as it is. *)
Lemma backup_when_replaced_witness :
  fs rerun !! backupPath tgt noon = Some (plain "W") ∧
  fs (deployConfigFile rel tgt rerun) !! backupPath tgt later
    = Some (NFile (File "Y" later true true)) ∧
  backup_invariant rel tgt rerun ∧
  (∀ t fb, fs rerun !! backupPath tgt t = None →
           fs (deployConfigFile rel tgt rerun) !! backupPath tgt t = Some (NFile fb) →
           ∃ ft, fs rerun !! tgt = Some (NFile ft) ∧ content fb = content ft) ∧
  (∀ t n, fs rerun !! backupPath tgt t = Some n →
          fs (deployConfigFile rel tgt rerun) !! backupPath tgt t = Some n).
Proof.
  split; [vm_compute; reflexivity |]. split; [vm_compute; reflexivity |].
  apply (backup_when_replaced rel tgt rerun (File "X" noon true true)).
  - intros t _. reflexivity.
  - vm_compute. reflexivity.
  - reflexivity.
  - intros n Hn. vm_compute in Hn. injection Hn as <-.
    split_and!; [eexists; split; reflexivity | vm_compute; reflexivity
                | vm_compute; reflexivity].
Defined.

Lemma compared_quiet srcRel target w r1 r2 w5 :
  compared srcRel target w r1 r2 w5 → quiet w w5.
Proof.
  intros (e0 & w1 & w2 & w3 & w4 & H1 & _ & H2 & H3 & H4 & H5).
  pose proof (os_Stat_quiet (Join (scriptRoot w) srcRel) w) as Q1. rewrite H1 in Q1.
  pose proof (os_MkdirAll_quiet (Dir target) w1) as Q2. rewrite H2 in Q2.
  pose proof (os_Stat_quiet target w2) as Q3. rewrite H3 in Q3.
  pose proof (fileHash_quiet (Join (scriptRoot w) srcRel) w3) as Q4. rewrite H4 in Q4.
  pose proof (fileHash_quiet target w4) as Q5. rewrite H5 in Q5.
  pairs. eauto using quiet_trans.
Qed.

Lemma deploy_compared srcRel target w r1 r2 w5 :
  compared srcRel target w r1 r2 w5 →
  deployConfigFile srcRel target w =
    if is_nil r1.2 && is_nil r2.2 && String.eqb r1.1 r2.1
    then writeSkip (show_path target +:+ " is up to date") w5
    else deploy_copy srcRel (Join (scriptRoot w) srcRel) target (deploy_backup target w5).
Proof.
  intros (e0 & w1 & w2 & w3 & w4 & H1 & H0 & H2 & H3 & H4 & H5).
  unfold deployConfigFile. rewrite H1, H0, H2. simpl. rewrite H3. simpl.
  rewrite H4. destruct r1 as [h1 e1]. rewrite H5. by destruct r2 as [h2 e2].
Qed.

(** C9. When the call has found the target, the fingerprints are not
    both computed and equal, the copy of the target to its backup path
    fails and the copy of the source over the target succeeds, then the
    call reports [Deployed] after the backup message and adds nothing to
    the failure log: the error of the backup copy is dropped. *)
Theorem backup_error_ignored (srcRel target : path) (w : World)
    (r1 r2 : string * option error) (w5 : World) (err : error) :
  compared srcRel target w r1 r2 w5 →
  is_nil r1.2 && is_nil r2.2 && String.eqb r1.1 r2.1 = false →
  (copyFile target (backupPath target (clock (os w5) (tick w5))) (tock w5)).1
    = Some err →
  (copyFile (Join (scriptRoot w) srcRel) target (deploy_backup target w5)).1 = None →
  console (deployConfigFile srcRel target w)
    = console w ++ [BackedUp target (clock (os w5) (tick w5)); Deployed srcRel target] ∧
  failures (deployConfigFile srcRel target w) = failures w.
Proof.
  intros Hc Hneq _ Hf.
  rewrite (deploy_compared _ _ _ _ _ _ Hc), Hneq.
  apply compared_quiet in Hc as (_ & _ & C5 & L5 & _).
  destruct (deploy_backup_post target w5) as (_ & _ & _ & C6 & L6 & _).
  destruct (deploy_copy_post srcRel (Join (scriptRoot w) srcRel) target
              (deploy_backup target w5)) as (_ & _ & _ & _ & Hcases).
  destruct Hcases as [(e & w7 & Hcp & _)|(w7 & _ & _ & C7 & L7)].
  - rewrite Hcp in Hf. done.
  - rewrite C7, L7, C6, L6, C5, L5, <- app_assoc. done.
Qed.

Lemma deploy_backup_eq target w :
  deploy_backup target w
  = print (BackedUp target (clock (os w) (tick w)))
      (copyFile target (backupPath target (clock (os w) (tick w))) (tock w)).2.
Proof.
  unfold deploy_backup. rewrite time_Now_eq.
  by destruct (copyFile _ _ (tock w)) as [e w'].
Qed.

Lemma deploy_copy_print srcRel src target l w :
  fs (deploy_copy srcRel src target (print l w)) = fs (copyFile src target w).2.
Proof.
  unfold deploy_copy. rewrite copyFile_print.
  by destruct (copyFile src target w) as [[e|] w'].
Qed.

(** The node at the target path when the call reaches line 176 is the
    one the call found. *)
Lemma compared_target srcRel target w r1 r2 w5 :
  compared srcRel target w r1 r2 w5 →
  fs w5 !! target = fs w !! target ∧ is_Some (fs w !! target).
Proof.
  intros (e0 & w1 & w2 & w3 & w4 & H1 & _ & H2 & H3 & H4 & H5).
  pose proof (os_Stat_fs (Join (scriptRoot w) srcRel) w) as F1. rewrite H1 in F1.
  pose proof (os_MkdirAll_grows (Dir target) w1) as G. rewrite H2 in G.
  pose proof (os_Stat_fs target w2) as F3. rewrite H3 in F3.
  pose proof (os_Stat_ok _ _ _ H3) as Ht.
  pose proof (fileHash_fs (Join (scriptRoot w) srcRel) w3) as F4. rewrite H4 in F4.
  pose proof (fileHash_fs target w4) as F5. rewrite H5 in F5.
  pairs. rewrite F5, F4, F3.
  destruct (G target) as [E|(_ & _ & Hp & Hne)].
  - rewrite E, F1 in *. done.
  - exfalso. apply prefix_length in Hp. rewrite length_Dir in Hp.
    destruct target; [done | simpl in Hp; lia].
Qed.

(** C10, as amended. When the call has found the target and the
    fingerprint of the source or of the target cannot be computed, the two
    files count as differing, and the call never reports that the target
    is up to date.  It copies the target to its backup path and drops the
    error of that copy, then copies the source over the target: the file
    system it leaves is the one these two copies leave, and a backup copy
    that succeeds holds the content the target had.  It reports
    [Deployed] and records no failure when the second copy succeeds, and
    records ["Failed to deploy"] with the text of the error when it
    fails. *)
Theorem hash_error_replaces (srcRel target : path) (w : World)
    (r1 r2 : string * option error) (w5 : World) :
  compared srcRel target w r1 r2 w5 →
  r1.2 ≠ None ∨ r2.2 ≠ None →
  let now := clock (os w5) (tick w5) in
  let backup := copyFile target (backupPath target now) (tock w5) in
  let final := copyFile (Join (scriptRoot w) srcRel) target backup.2 in
  fs (deployConfigFile srcRel target w) = fs final.2 ∧
  (backup.1 = None →
   ∃ ft fb, fs w !! target = Some (NFile ft) ∧
            fs backup.2 !! backupPath target now = Some (NFile fb) ∧
            content fb = content ft) ∧
  match final.1 with
  | None =>
      console (deployConfigFile srcRel target w)
        = console w ++ [BackedUp target now; Deployed srcRel target] ∧
      failures (deployConfigFile srcRel target w) = failures w
  | Some err =>
      console (deployConfigFile srcRel target w)
        = console w ++ [BackedUp target now;
                        FAIL ("Failed to deploy " +:+ show_path srcRel +:+ ": " +:+ Error err)] ∧
      failures (deployConfigFile srcRel target w)
        = failures w ++ ["Failed to deploy " +:+ show_path srcRel +:+ ": " +:+ Error err]
  end.
Proof.
  intros Hc Herr now backup final.
  rewrite (deploy_compared _ _ _ _ _ _ Hc).
  replace (is_nil r1.2 && is_nil r2.2 && String.eqb r1.1 r2.1) with false
    by (destruct Herr; destruct r1 as [? []], r2 as [? []]; simpl in *; congruence).
  destruct (compared_target _ _ _ _ _ _ Hc) as [Ht _].
  apply compared_quiet in Hc as (_ & _ & C5 & L5 & _).
  rewrite deploy_backup_eq. fold now. fold backup.
  split_and!.
  - apply deploy_copy_print.
  - intros Hb. subst backup.
    destruct (copyFile target (backupPath target now) (tock w5)) as [e wb] eqn:Eb.
    pairs. subst e.
    pose proof (copyFile_frame target (backupPath target now) (tock w5) target) as Fr.
    rewrite Eb in Fr. pairs.
    destruct (copyFile_ok _ _ _ _ Eb) as (ft & fb & Hs & Hd & Hcont & _).
    exists ft, fb. split_and!; try done.
    rewrite <- Ht. rewrite <- Hs. symmetry. apply Fr.
    intros E. symmetry in E. by apply backupPath_ne in E.
  - unfold deploy_copy. rewrite copyFile_print. fold final.
    pose proof (copyFile_quiet target (backupPath target now) (tock w5)) as Qb.
    fold backup in Qb. destruct Qb as (_ & _ & Cb & Lb & _).
    change (console (tock w5)) with (console w5) in Cb.
    change (failures (tock w5)) with (failures w5) in Lb.
    pose proof (copyFile_quiet (Join (scriptRoot w) srcRel) target backup.2) as Qf.
    fold final in Qf. destruct Qf as (_ & _ & Cf & Lf & _).
    destruct final as [[err|] wf]; pairs; simpl;
      rewrite Cf, Cb, Lf, Lb, C5, L5, <- ?app_assoc; done.
Qed.

Ltac trace_step :=
  first
    [ eapply os_Stat_found; [vm_compute; reflexivity | run_call]
    | eapply os_MkdirAll_existing; [vm_compute; reflexivity | run_call]
    | eapply fileHash_content;
      [vm_compute; reflexivity | vm_compute; reflexivity | run_call
      | reflexivity | reflexivity]
    | eapply fileHash_fault; vm_compute; reflexivity
    | eapply fileHash_denied; [vm_compute; reflexivity | run_call | reflexivity]
    | reflexivity ].

Ltac trace := do 5 eexists; split_and!; trace_step.

(** In [sealed] the backup copy is denied and the final copy succeeds:
    the target holds the source's content and no path is new. *)
Lemma backup_error_ignored_witness :
  let w5 := tock (tock (tock (tock (tock (set_fs (fs sealed) (tock (tock sealed))))))) in
  compared rel tgt sealed (sha256_hex "X", None) (sha256_hex "Y", None) w5 ∧
  (console (deployConfigFile rel tgt sealed)
     = console sealed ++ [BackedUp tgt later; Deployed rel tgt] ∧
   failures (deployConfigFile rel tgt sealed) = failures sealed) ∧
  fs (deployConfigFile rel tgt sealed) !! tgt = Some (NFile (File "X" later true true)) ∧
  (map_to_list (fs (deployConfigFile rel tgt sealed))).*1 = (map_to_list (fs sealed)).*1.
Proof.
  intros w5.
  assert (Hc : compared rel tgt sealed (sha256_hex "X", None) (sha256_hex "Y", None) w5)
    by (subst w5; trace).
  split; [exact Hc |]. split; [| split; vm_compute; reflexivity].
  apply (backup_error_ignored rel tgt sealed _ _ w5 (PathError "open" (backupPath tgt later) ErrPermission) Hc);
    vm_compute; reflexivity.
Defined.

(** In [flaky] the contents are the same and the source cannot be hashed
    once: the target is backed up and replaced. *)
Lemma hash_error_replaces_witness :
  let w5 := tock (tock (tock (tock (set_fs (fs flaky) (tock (tock flaky)))))) in
  compared rel tgt flaky (EmptyString, Some (PathError "open" src ErrIO))
           (sha256_hex "X", None) w5 ∧
  let now := clock (os w5) (tick w5) in
  let backup := copyFile tgt (backupPath tgt now) (tock w5) in
  let final := copyFile (Join (scriptRoot flaky) rel) tgt backup.2 in
  fs (deployConfigFile rel tgt flaky) = fs final.2 ∧
  (backup.1 = None →
   ∃ ft fb, fs flaky !! tgt = Some (NFile ft) ∧
            fs backup.2 !! backupPath tgt now = Some (NFile fb) ∧
            content fb = content ft) ∧
  match final.1 with
  | None =>
      console (deployConfigFile rel tgt flaky)
        = console flaky ++ [BackedUp tgt now; Deployed rel tgt] ∧
      failures (deployConfigFile rel tgt flaky) = failures flaky
  | Some err =>
      console (deployConfigFile rel tgt flaky)
        = console flaky ++ [BackedUp tgt now;
                            FAIL ("Failed to deploy " +:+ show_path rel +:+ ": " +:+ Error err)] ∧
      failures (deployConfigFile rel tgt flaky)
        = failures flaky ++ ["Failed to deploy " +:+ show_path rel +:+ ": " +:+ Error err]
  end.
Proof.
  intros w5.
  assert (Hc : compared rel tgt flaky (EmptyString, Some (PathError "open" src ErrIO))
                 (sha256_hex "X", None) w5)
    by (subst w5; trace).
  split; [exact Hc |].
  apply (hash_error_replaces rel tgt flaky _ _ w5 Hc). left. discriminate.
Defined.

(** C10, counterexample. In [unreadable] the target is there and the
    fingerprint of the source cannot be computed (access is denied); the
    backup is made, but the copy of the source fails as the hash did: the
    call records a failure and the target keeps its content ["Y"], it is
    not overwritten with the source. *)
Lemma hash_error_recorded :
  let w5 := tock (tock (tock (tock (set_fs (fs unreadable) (tock (tock unreadable)))))) in
  compared rel tgt unreadable (EmptyString, Some (PathError "open" src ErrPermission))
           (sha256_hex "Y", None) w5 ∧
  failures (deployConfigFile rel tgt unreadable)
    = ["Failed to deploy a.conf: open C:\setup\a.conf: Access is denied."] ∧
  fs (deployConfigFile rel tgt unreadable) !! tgt = Some (plain "Y") ∧
  fs (deployConfigFile rel tgt unreadable) !! backupPath tgt later
    = Some (NFile (File "Y" later true true)).
Proof.
  intros w5. split; [subst w5; trace |]. split_and!; vm_compute; reflexivity.
Qed.

Lemma time_Now_respects : respects time_Now.
Proof.
  intros w1 w2 H. rewrite !time_Now_eq. simpl.
  split; [by apply sim_clock | by apply sim_tock].
Qed.

Lemma deploy_backup_respects target w1 w2 :
  same_but_mtime w1 w2 →
  same_but_mtime (deploy_backup target w1) (deploy_backup target w2).
Proof.
  intros H. unfold deploy_backup. rewrite !time_Now_eq.
  rewrite (sim_clock _ _ H).
  destruct (copyFile_respects target (backupPath target (clock (os w2) (tick w2)))
              _ _ (sim_tock _ _ H)) as [_ S].
  destruct (copyFile _ _ (tock w1)) as [e1 w1'], (copyFile _ _ (tock w2)) as [e2 w2'].
  pairs. by apply sim_print.
Qed.

Lemma deploy_copy_respects srcRel src target w1 w2 :
  same_but_mtime w1 w2 →
  same_but_mtime (deploy_copy srcRel src target w1) (deploy_copy srcRel src target w2).
Proof.
  intros H. unfold deploy_copy.
  destruct (copyFile_respects src target _ _ H) as [E S].
  destruct (copyFile src target w1) as [e1 w1'], (copyFile src target w2) as [e2 w2'].
  pairs. simplify_eq. destruct e2; [by apply sim_writeFail | by apply sim_print].
Qed.

Lemma deployConfigFile_respects srcRel target w1 w2 :
  same_but_mtime w1 w2 →
  same_but_mtime (deployConfigFile srcRel target w1) (deployConfigFile srcRel target w2).
Proof.
  intros H. unfold deployConfigFile.
  assert (R : scriptRoot w1 = scriptRoot w2) by apply H. rewrite R.
  destruct (os_Stat_respects (Join (scriptRoot w2) srcRel) _ _ H) as [E1 S1].
  destruct (os_Stat _ w1) as [e1 a1], (os_Stat _ w2) as [e1' a2]. pairs. subst e1'.
  destruct (IsNotExist e1); [by apply sim_writeFail |].
  destruct (os_MkdirAll_respects (Dir target) _ _ S1) as [E2 S2].
  destruct (os_MkdirAll _ a1) as [e2 b1], (os_MkdirAll _ a2) as [e2' b2]. pairs. subst e2'.
  destruct (negb (is_nil e2)); [by apply sim_writeFail |].
  destruct (os_Stat_respects target _ _ S2) as [E3 S3].
  destruct (os_Stat target b1) as [e3 c1], (os_Stat target b2) as [e3' c2]. pairs. subst e3'.
  destruct (is_nil e3); [| by apply deploy_copy_respects].
  destruct (fileHash_respects (Join (scriptRoot w2) srcRel) _ _ S3) as [E4 S4].
  destruct (fileHash _ c1) as [[h1 x1] d1], (fileHash _ c2) as [[h1' x1'] d2].
  pairs. simplify_eq.
  destruct (fileHash_respects target _ _ S4) as [E5 S5].
  destruct (fileHash target d1) as [[h2 x2] f1], (fileHash target d2) as [[h2' x2'] f2].
  pairs. simplify_eq.
  destruct (is_nil x1' && is_nil x2' && String.eqb h1' h2').
  - by apply sim_print.
  - by apply deploy_copy_respects, deploy_backup_respects.
Qed.

(** C8. Modification times play no part in a deploy: from two worlds
    that differ in the modification times of their files only, the call
    writes the same lines on the terminal (the same outcome), records the
    same failures and leaves file systems that have the same files with
    the same contents. *)
Theorem deploy_ignores_mtime (srcRel target : path) (w1 w2 : World) :
  same_but_mtime w1 w2 →
  console (deployConfigFile srcRel target w1) = console (deployConfigFile srcRel target w2) ∧
  failures (deployConfigFile srcRel target w1) = failures (deployConfigFile srcRel target w2) ∧
  ∀ k, forget <$> fs (deployConfigFile srcRel target w1) !! k
       = forget <$> fs (deployConfigFile srcRel target w2) !! k.
Proof.
  intros H. apply (deployConfigFile_respects srcRel target) in H
    as (_ & _ & F & C & _ & _ & L & _). done.
Qed.

(** [edited] and [touched] differ in modification times only. *)
Lemma deploy_ignores_mtime_witness :
  same_but_mtime edited touched ∧
  console (deployConfigFile rel tgt edited) = console (deployConfigFile rel tgt touched) ∧
  failures (deployConfigFile rel tgt edited) = failures (deployConfigFile rel tgt touched) ∧
  ∀ k, forget <$> fs (deployConfigFile rel tgt edited) !! k
       = forget <$> fs (deployConfigFile rel tgt touched) !! k.
Proof.
  assert (H : same_but_mtime edited touched).
  { repeat split. unfold edited, touched, boot, disk, fs.
    repeat apply msim_insert; done. }
  split; [exact H |]. apply (deploy_ignores_mtime rel tgt edited touched H).
Defined.

(** ** The terminal and the failure log *)

Lemma fails_of_app o1 o2 : fails_of (o1 ++ o2) = fails_of o1 ++ fails_of o2.
Proof. induction o1 as [|[] o1 IH]; simpl; by rewrite ?IH. Qed.

Lemma steps_of_app o1 o2 : steps_of (o1 ++ o2) = steps_of o1 ++ steps_of o2.
Proof. induction o1 as [|[] o1 IH]; simpl; by rewrite ?IH. Qed.

Lemma Inv_start w : Inv w [] w.
Proof. exists []. by rewrite !app_nil_r. Qed.

Lemma Inv_same w0 bs w w' :
  console w' = console w → failures w' = failures w → Inv w0 bs w → Inv w0 bs w'.
Proof. intros C F (out & ? & ? & ?). exists out. rewrite C, F. done. Qed.

Lemma Inv_quiet w0 bs w w' : quiet w w' → Inv w0 bs w → Inv w0 bs w'.
Proof. intros (_ & _ & C & F & _). by apply Inv_same. Qed.

Lemma Inv_line w0 bs l w :
  fails_of [l] = [] → steps_of [l] = [] → Inv w0 bs w → Inv w0 bs (print l w).
Proof.
  intros Hf Hs (out & C & F & S). exists (out ++ [l]). simpl.
  rewrite C, F, fails_of_app, steps_of_app, Hf, Hs, S, !app_nil_r, app_assoc. done.
Qed.

Lemma Inv_writeSuccess w0 bs m w : Inv w0 bs w → Inv w0 bs (writeSuccess m w).
Proof. by apply Inv_line. Qed.

Lemma Inv_writeSkip w0 bs m w : Inv w0 bs w → Inv w0 bs (writeSkip m w).
Proof. by apply Inv_line. Qed.

Lemma Inv_Text w0 bs m w : Inv w0 bs w → Inv w0 bs (print (Text m) w).
Proof. by apply Inv_line. Qed.

Lemma Inv_writeFail w0 bs m w : Inv w0 bs w → Inv w0 bs (writeFail m w).
Proof.
  intros (out & C & F & S). exists (out ++ [FAIL m]). simpl.
  rewrite C, F, fails_of_app, steps_of_app, S, !app_nil_r, !app_assoc. done.
Qed.

Lemma Inv_writeStep w0 bs m w : Inv w0 bs w → Inv w0 (bs ++ [m]) (writeStep m w).
Proof.
  intros (out & C & F & S). exists (out ++ [Step m]). simpl.
  rewrite C, F, fails_of_app, steps_of_app, S, !app_nil_r, !app_assoc. done.
Qed.

Lemma Inv_prints w0 bs ls w : Inv w0 bs w → Inv w0 bs (prints ls w).
Proof.
  unfold prints. revert w. induction ls as [|l ls IH]; intros w H; simpl; [done |].
  by apply IH, Inv_Text.
Qed.

Lemma Inv_tock w0 bs w : Inv w0 bs w → Inv w0 bs (tock w).
Proof. by apply Inv_same. Qed.

Lemma Inv_Setenv w0 bs v w : Inv w0 bs w → Inv w0 bs (Setenv_PATH v w).
Proof. by apply Inv_same. Qed.

Lemma Inv_set_scriptRoot w0 bs p w : Inv w0 bs w → Inv w0 bs (set_scriptRoot p w).
Proof. by apply Inv_same. Qed.

Lemma Inv_spawn w0 bs c w : Inv w0 bs w → Inv w0 bs (spawn c w).2.
Proof. by apply Inv_same. Qed.

Lemma Inv_runCmd w0 bs n a w : Inv w0 bs w → Inv w0 bs (runCmd n a w).2.
Proof. by apply Inv_same. Qed.

Lemma Inv_runCmdPassthrough w0 bs n a w :
  Inv w0 bs w → Inv w0 bs (runCmdPassthrough n a w).2.
Proof. by apply Inv_same. Qed.

Lemma Inv_commandExists w0 bs n w : Inv w0 bs w → Inv w0 bs (commandExists n w).2.
Proof. by apply Inv_same. Qed.

Lemma Inv_promptInput w0 bs p w : Inv w0 bs w → Inv w0 bs (promptInput p w).2.
Proof. intros H. unfold promptInput. simpl. by apply Inv_tock, Inv_Text. Qed.

Lemma Inv_refreshPath w0 bs w : Inv w0 bs w → Inv w0 bs (refreshPath w).
Proof.
  intros H. unfold refreshPath.
  pose proof (Inv_spawn _ _ ["powershell"; "-NoProfile"; "-Command";
    "[Environment]::GetEnvironmentVariable('Path','Machine') + ';' + [Environment]::GetEnvironmentVariable('Path','User')"] _ H) as H1.
  destruct (spawn _ w) as [r w1]. simpl in H1.
  destruct (failed (proc_err r)); [done | by apply Inv_Setenv].
Qed.

Lemma Inv_os_Stat w0 bs p w : Inv w0 bs w → Inv w0 bs (os_Stat p w).2.
Proof. apply Inv_quiet, os_Stat_quiet. Qed.

Lemma Inv_time_Now w0 bs w : Inv w0 bs w → Inv w0 bs (time_Now w).2.
Proof. apply Inv_quiet, time_Now_quiet. Qed.

Lemma Inv_os_MkdirAll w0 bs p w : Inv w0 bs w → Inv w0 bs (os_MkdirAll p w).2.
Proof. apply Inv_quiet, os_MkdirAll_quiet. Qed.

Lemma Inv_fileHash w0 bs p w : Inv w0 bs w → Inv w0 bs (fileHash p w).2.
Proof. apply Inv_quiet, fileHash_quiet. Qed.

Lemma Inv_copyFile w0 bs s d w : Inv w0 bs w → Inv w0 bs (copyFile s d w).2.
Proof. apply Inv_quiet, copyFile_quiet. Qed.

Lemma Inv_os_Rename w0 bs a b w : Inv w0 bs w → Inv w0 bs (os_Rename a b w).2.
Proof.
  intros H. unfold os_Rename. repeat case_match; simpl; by apply Inv_same with w.
Qed.

Lemma Inv_os_RemoveAll w0 bs p w : Inv w0 bs w → Inv w0 bs (os_RemoveAll p w).2.
Proof.
  intros H. unfold os_RemoveAll. repeat case_match; simpl; by apply Inv_same with w.
Qed.

Create HintDb inv discriminated.
#[local] Hint Resolve Inv_writeSuccess Inv_writeSkip Inv_Text Inv_writeFail
  Inv_writeStep Inv_prints Inv_tock Inv_Setenv Inv_set_scriptRoot Inv_spawn
  Inv_runCmd Inv_runCmdPassthrough Inv_commandExists Inv_promptInput
  Inv_refreshPath Inv_os_Stat Inv_time_Now Inv_os_MkdirAll Inv_fileHash
  Inv_copyFile Inv_os_Rename Inv_os_RemoveAll : inv.

(** Walks through the body of a function: a call that returns a pair is
    replaced by its results once the invariant is known for the world it
    returns; a test is split. *)
Ltac inv_call c :=
  let H := fresh "HI" in
  eassert (H : Inv _ _ (snd c)) by (eauto 30 with inv);
  destruct c; cbn [snd] in H.

Ltac inv_go :=
  repeat first
    [ solve [eauto 30 with inv]
    | match goal with
      | |- context [match ?c with _ => _ end] =>
          lazymatch type of c with
          | (_ * World)%type => inv_call c
          | _ => destruct c
          end
      | |- context [if ?b then _ else _] => destruct b
      end ].

Lemma Inv_installWingetPackage w0 bs id nm w :
  Inv w0 bs w → Inv w0 bs (installWingetPackage id nm w).
Proof. intros H. unfold installWingetPackage. inv_go. Qed.

Lemma Inv_installScoopPackage w0 bs pkg bucket w :
  Inv w0 bs w → Inv w0 bs (installScoopPackage pkg bucket w).
Proof. intros H. unfold installScoopPackage. inv_go. Qed.

Lemma Inv_setGitConfigIfMissing w0 bs k v w :
  Inv w0 bs w → Inv w0 bs (setGitConfigIfMissing k v w).
Proof. intros H. unfold setGitConfigIfMissing. inv_go. Qed.

Lemma Inv_deployConfigFile w0 bs r t w :
  Inv w0 bs w → Inv w0 bs (deployConfigFile r t w).
Proof.
  intros H. unfold deployConfigFile, deploy_copy, deploy_backup. inv_go.
Qed.

Lemma Inv_git_identity w0 bs k c a e w :
  Inv w0 bs w → Inv w0 bs (git_identity k c a e w).
Proof. intros H. unfold git_identity. inv_go. Qed.

Lemma Inv_report_tool w0 bs t w : Inv w0 bs w → Inv w0 bs (report_tool w t).
Proof. intros H. unfold report_tool. inv_go. Qed.

#[local] Hint Resolve Inv_installWingetPackage Inv_installScoopPackage
  Inv_setGitConfigIfMissing Inv_deployConfigFile Inv_git_identity
  Inv_report_tool : inv.

(** Every step writes its banner and nothing else that is a banner. *)
Lemma Inv_step_scoop w0 bs w :
  Inv w0 bs w → Inv w0 (bs ++ ["Step 1/13: Scoop (package manager)"]) (step_scoop w).
Proof. intros H. unfold step_scoop. inv_go. Qed.

Lemma Inv_step_git w0 bs w :
  Inv w0 bs w → Inv w0 (bs ++ ["Step 2/13: Git"]) (step_git w).
Proof. intros H. unfold step_git. inv_go. Qed.

Lemma Inv_step_font w0 bs w :
  Inv w0 bs w → Inv w0 (bs ++ ["Step 3/13: JetBrainsMono Nerd Font"]) (step_font w).
Proof. intros H. unfold step_font. inv_go. Qed.

Lemma Inv_step_winget w0 bs b id nm w :
  Inv w0 bs w → Inv w0 (bs ++ [b]) (step_winget b id nm w).
Proof. intros H. unfold step_winget. inv_go. Qed.

Lemma Inv_step_node w0 bs w :
  Inv w0 bs w → Inv w0 (bs ++ ["Step 8/13: Node.js LTS (via Volta)"]) (step_node w).
Proof. intros H. unfold step_node. inv_go. Qed.

Lemma Inv_step_lazyvim w0 bs w :
  Inv w0 bs w →
  Inv w0 (bs ++ ["Step 13/13: LazyVim (Neovim distribution)"]) (step_lazyvim w).
Proof. intros H. unfold step_lazyvim. inv_go. Qed.

Lemma Inv_deploy_configs w0 bs w :
  Inv w0 bs w → Inv w0 (bs ++ ["Deploying configuration files"]) (deploy_configs w).
Proof. intros H. unfold deploy_configs. inv_go. Qed.

Lemma Inv_git_defaults w0 bs w :
  Inv w0 bs w → Inv w0 (bs ++ ["Configuring Git defaults"]) (git_defaults w).
Proof. intros H. unfold git_defaults. inv_go. Qed.

Lemma Inv_verify w0 bs w :
  Inv w0 bs w → Inv w0 (bs ++ ["Verifying installations"]) (verify w).
Proof.
  intros H. unfold verify.
  assert (G : ∀ ts w', Inv w0 (bs ++ ["Verifying installations"]) w' →
                Inv w0 (bs ++ ["Verifying installations"]) (foldl report_tool w' ts)).
  { induction ts as [|t ts IH]; intros w' H'; simpl; [done |].
    by apply IH, Inv_report_tool. }
  apply G. inv_go.
Qed.

Lemma Inv_summary w0 bs w : Inv w0 bs w → Inv w0 bs (summary w).
Proof. intros H. unfold summary. inv_go. Qed.

Lemma Inv_pipeline w0 w : Inv w0 [] w → Inv w0 banners (run_steps pipeline w).
Proof.
  intros H. unfold run_steps, pipeline. cbv beta iota delta [foldl].
  apply Inv_step_scoop, Inv_step_git, Inv_step_font in H.
  do 4 eapply Inv_step_winget in H. eapply Inv_step_node in H.
  do 4 eapply Inv_step_winget in H.
  apply Inv_step_lazyvim, Inv_deploy_configs, Inv_git_defaults, Inv_verify in H.
  exact H.
Qed.

Lemma main_exit w :
  (main w).1 = match (preflight w).1 with Some code => code | None => 0 end.
Proof. unfold main. by destruct (preflight w) as [[code|] w1]. Qed.

Lemma preflight_exit w :
  (preflight w).1 =
    match executable (os w) with
    | inr _ => Some 1
    | inl _ =>
        if look_path (os w) (tick w) (PATH w) "winget"
        then if http_get (os w) (S (tick w)) then None else Some 1
        else Some 1
    end.
Proof.
  unfold preflight. destruct (executable (os w)) as [exe|err]; [| done].
  unfold commandExists, prints, writeStep, writeSuccess. cbn [foldl].
  cbn [fst snd os tick PATH print tock set_scriptRoot].
  destruct (look_path (os w) (tick w) (PATH w) "winget"); [| done].
  cbn [negb os tick PATH print tock set_scriptRoot].
  by destruct (http_get (os w) (S (tick w))).
Qed.

(** C3, as amended. The exit code is 0 or 1, and it is 1 in exactly
    three cases: the path of the executable cannot be determined, [winget]
    is not found on the search path, or the request to the clone source
    fails.  In every other run the code is 0, whatever failures the steps
    have recorded. *)
Theorem exit_codes (w : World) :
  ((main w).1 = 0 ∨ (main w).1 = 1) ∧
  ((main w).1 = 1 ↔
     (∃ err, executable (os w) = inr err) ∨
     look_path (os w) (tick w) (PATH w) "winget" = false ∨
     http_get (os w) (S (tick w)) = false).
Proof.
  rewrite main_exit, preflight_exit.
  destruct (executable (os w)) as [exe|err].
  - destruct (look_path (os w) (tick w) (PATH w) "winget").
    + destruct (http_get (os w) (S (tick w))).
      * split; [by left |]. split; [done |]. intros [[? ?]|[?|?]]; done.
      * split; [by right |]. split; [by auto | done].
    + split; [by right |]. split; [by auto | done].
  - split; [by right |]. split; [by eauto | done].
Qed.

(** C3, counterexample. In [homeless] the program cannot determine the
    path of its executable and exits with code 1, although [winget] is
    found and the network answers. *)
Lemma exit_one_with_winget_and_network :
  (main homeless).1 = 1 ∧
  look_path (os homeless) (tick homeless) (PATH homeless) "winget" = true ∧
  http_get (os homeless) (S (tick homeless)) = true.
Proof. split_and!; vm_compute; reflexivity. Qed.

(** C6. For both installers: when the output of the listing command, as
    [runCmd] returns it, contains the package identifier as a substring,
    the installer reports the package as already installed, the listing
    command is the only process it has spawned, and the failure log is
    unchanged. *)
Theorem listing_match_skips :
  (∀ (packageID displayName : string) (w : World),
     (∃ a b, (runCmd "winget" ["list"; "--id"; packageID; "--accept-source-agreements"] w).1.1
             = a +:+ packageID +:+ b) →
     console (installWingetPackage packageID displayName w)
       = console w ++ [SKIP (displayName +:+ " already installed")] ∧
     spawned (installWingetPackage packageID displayName w)
       = spawned w ++ [["winget"; "list"; "--id"; packageID; "--accept-source-agreements"]] ∧
     failures (installWingetPackage packageID displayName w) = failures w) ∧
  (∀ (pkg bucket : string) (w : World),
     (∃ a b, (runCmd "scoop" ["list"] w).1.1 = a +:+ pkg +:+ b) →
     console (installScoopPackage pkg bucket w)
       = console w ++ [SKIP (pkg +:+ " already installed (scoop)")] ∧
     spawned (installScoopPackage pkg bucket w) = spawned w ++ [["scoop"; "list"]] ∧
     failures (installScoopPackage pkg bucket w) = failures w).
Proof.
  split.
  - intros packageID displayName w H. apply Contains_spec in H.
    unfold installWingetPackage.
    destruct (runCmd "winget" _ w) as [[out e] w1] eqn:E. cbn [fst] in H. rewrite H.
    unfold runCmd, spawn in E. injection E as _ _ <-. done.
  - intros pkg bucket w H. apply Contains_spec in H.
    unfold installScoopPackage.
    destruct (runCmd "scoop" _ w) as [[out e] w1] eqn:E. cbn [fst] in H. rewrite H.
    unfold runCmd, spawn in E. injection E as _ _ <-. done.
Qed.

(** In [stocked] the listing shows both packages. *)
Lemma listing_match_skips_witness :
  (console (installWingetPackage "Git.Git" "Git" stocked)
     = console stocked ++ [SKIP "Git already installed"] ∧
   spawned (installWingetPackage "Git.Git" "Git" stocked)
     = spawned stocked ++ [["winget"; "list"; "--id"; "Git.Git"; "--accept-source-agreements"]] ∧
   failures (installWingetPackage "Git.Git" "Git" stocked) = failures stocked) ∧
  (console (installScoopPackage "JetBrainsMono-NF" "nerd-fonts" stocked)
     = console stocked ++ [SKIP "JetBrainsMono-NF already installed (scoop)"] ∧
   spawned (installScoopPackage "JetBrainsMono-NF" "nerd-fonts" stocked)
     = spawned stocked ++ [["scoop"; "list"]] ∧
   failures (installScoopPackage "JetBrainsMono-NF" "nerd-fonts" stocked) = failures stocked).
Proof.
  split.
  - apply (proj1 listing_match_skips "Git.Git" "Git" stocked).
    exists "Git  ", "  2.43.0  winget  JetBrainsMono-NF  3.1".
    vm_compute. reflexivity.
  - apply (proj2 listing_match_skips "JetBrainsMono-NF" "nerd-fonts" stocked).
    exists "Git  Git.Git  2.43.0  winget  ", "  3.1".
    vm_compute. reflexivity.
Defined.

(** * Further properties *)

Import Cases.

(** ** Bytes of a string *)

Lemma all_bytes_app P a b : all_bytes P (a +:+ b) = all_bytes P a && all_bytes P b.
Proof.
  induction a as [|c a IH]; [done |].
  rewrite append_cons. simpl. by rewrite IH, andb_assoc.
Qed.

Lemma all_bytes_middle P a r b :
  all_bytes P (a +:+ r +:+ b) = true → all_bytes P r = true.
Proof.
  rewrite !all_bytes_app. intros H.
  apply andb_true_iff in H as [_ H]. by apply andb_true_iff in H as [H _].
Qed.

(** ** extractVersion, further *)

Lemma skip_to_digit_split s :
  ∃ pre, s = pre +:+ skip_to_digit s ∧ has_digit pre = false.
Proof.
  induction s as [|c s (pre & IH & Hpre)].
  - by exists EmptyString.
  - simpl. destruct (is_digit c) eqn:Hd.
    + by exists EmptyString.
    + exists (String c pre). rewrite append_cons, <- IH. split; [done |].
      unfold has_digit in *. simpl. rewrite Hd. simpl. done.
Qed.

Lemma skip_to_digit_head s c t : skip_to_digit s = String c t → is_digit c = true.
Proof.
  induction s as [|x s IH]; simpl; [done |].
  destruct (is_digit x) eqn:Hd; [| done]. by intros [= -> _].
Qed.

Lemma skip_to_digit_none s : skip_to_digit s = EmptyString ↔ has_digit s = false.
Proof.
  unfold has_digit. induction s as [|x s IH]; simpl; [done |].
  destruct (is_digit x); simpl; [split; done | done].
Qed.

Lemma digits_and_dots_split t : ∃ post, t = digits_and_dots t +:+ post.
Proof.
  induction t as [|c t [post IH]]; [by exists EmptyString |].
  simpl. destruct (is_digit c || is_dot c).
  - exists post. by rewrite append_cons, <- IH.
  - by exists (String c t).
Qed.

Lemma digits_and_dots_all t : all_bytes version_byte (digits_and_dots t) = true.
Proof.
  induction t as [|c t IH]; [done |]. simpl.
  destruct (is_digit c || is_dot c) eqn:E; [| done]. simpl.
  unfold version_byte at 1. by rewrite E.
Qed.

Lemma digits_and_dots_fixed r : all_bytes version_byte r = true → digits_and_dots r = r.
Proof.
  induction r as [|c r IH]; [done |]. simpl. unfold version_byte at 1.
  intros H. apply andb_true_iff in H as [-> H]. by rewrite IH.
Qed.

Lemma first_version_run_digit s c t :
  skip_to_digit s = String c t → first_version_run s = String c (digits_and_dots t).
Proof.
  intros H. unfold first_version_run. rewrite H.
  apply skip_to_digit_head in H. simpl. by rewrite H.
Qed.

(** X1. [extractVersion] is idempotent: what it returns is returned
    unchanged when it is given again. *)
Theorem extractVersion_idempotent (s : string) :
  extractVersion (extractVersion s) = extractVersion s.
Proof.
  rewrite !extractVersion_spec.
  destruct (skip_to_digit s) as [|c t] eqn:E.
  - unfold first_version_run at 2 3. rewrite E. unfold first_version_run. by rewrite E.
  - rewrite (first_version_run_digit _ _ _ E).
    pose proof (skip_to_digit_head _ _ _ E) as Hd.
    unfold first_version_run. simpl. rewrite Hd. simpl. rewrite Hd. simpl.
    by rewrite digits_and_dots_fixed by apply digits_and_dots_all.
Qed.

(** The result is a piece of the input, after bytes that are no digits. *)
Lemma extractVersion_piece (s : string) :
  ∃ pre post, s = pre +:+ extractVersion s +:+ post ∧ has_digit pre = false.
Proof.
  rewrite extractVersion_spec.
  destruct (skip_to_digit_split s) as (pre & Hs & Hpre).
  destruct (skip_to_digit s) as [|c t] eqn:E.
  - unfold first_version_run. rewrite E.
    exists EmptyString, EmptyString. by rewrite append_nil_l, append_nil_r.
  - rewrite (first_version_run_digit _ _ _ E).
    destruct (digits_and_dots_split t) as [post Ht].
    exists pre, post. split; [| done].
    rewrite append_cons, <- Ht. done.
Qed.

(** X2. The result of [extractVersion] is a piece of its input; when the
    input has a digit the result starts with the first digit and holds
    digits and dots only (a dot at its end is kept), and otherwise it is
    the input. *)
Theorem extractVersion_shape (s : string) :
  (∃ pre post, s = pre +:+ extractVersion s +:+ post ∧ has_digit pre = false) ∧
  if has_digit s
  then (∃ c r, extractVersion s = String c r ∧ is_digit c = true) ∧
       all_bytes version_byte (extractVersion s) = true
  else extractVersion s = s.
Proof.
  split; [apply extractVersion_piece |].
  rewrite extractVersion_spec.
  destruct (skip_to_digit s) as [|c t] eqn:E.
  - apply skip_to_digit_none in E as Hn. rewrite Hn.
    unfold first_version_run. by rewrite E.
  - assert (Hh : has_digit s = true).
    { destruct (has_digit s) eqn:Hh; [done |].
      apply skip_to_digit_none in Hh. congruence. }
    rewrite Hh, (first_version_run_digit _ _ _ E).
    pose proof (skip_to_digit_head _ _ _ E) as Hd.
    split.
    + by exists c, (digits_and_dots t).
    + simpl. unfold version_byte at 1. rewrite Hd. simpl. apply digits_and_dots_all.
Qed.

(** ** White space and lines *)

(** X3. What [runCmd] returns is what the command printed without the
    white space characters at its two ends (the white space of
    [unicode.IsSpace], in UTF-8): the output is a sequence of white
    space characters, the result, and another such sequence; the result
    neither starts nor ends with a white space character, and is empty
    when the output is white space only.  The command line is the one
    process spawned, whatever its exit status. *)
Theorem runCmd_trimmed (name : string) (args : list string) (w : World) :
  let raw := output (run (os w) (tick w) (name :: args) (fs w)) in
  let out := (runCmd name args w).1.1 in
  (∃ a b, raw = a +:+ out +:+ b ∧ blank a = true ∧ blank b = true) ∧
  (∀ r t, space_rune r = true → out ≠ r +:+ t ∧ out ≠ t +:+ r) ∧
  (blank raw = true → out = EmptyString) ∧
  spawned (runCmd name args w).2 = spawned w ++ [name :: args].
Proof.
  simpl. split_and!.
  - apply TrimSpace_split.
  - intros r t Hr. split; [by apply TrimSpace_head | by apply TrimSpace_last].
  - apply TrimSpace_blank.
  - done.
Qed.

Lemma first_line_split s :
  ∃ rest, s = first_line s +:+ rest ∧
          (rest = EmptyString ∨ ∃ r, rest = String "010" r).
Proof.
  induction s as [|c s (rest & IH & Hrest)]; [exists EmptyString; auto |].
  simpl. destruct (nat_of_ascii c =? 10) eqn:Hc.
  - exists (String c s). split; [done |]. right. exists s.
    apply Nat.eqb_eq in Hc. f_equal.
    rewrite <- (ascii_nat_embedding c), Hc. done.
  - exists rest. by rewrite append_cons, <- IH.
Qed.

Lemma first_line_one_line s : one_line (first_line s) = true.
Proof.
  unfold one_line. induction s as [|c s IH]; [done |]. simpl.
  destruct (nat_of_ascii c =? 10) eqn:Hc; [done |]. simpl.
  unfold is_lf at 1. by rewrite Hc.
Qed.

Lemma first_line_whole s : one_line s = true → first_line s = s.
Proof.
  unfold one_line. induction s as [|c s IH]; [done |]. simpl.
  unfold is_lf at 1. destruct (nat_of_ascii c =? 10); [done |]. simpl.
  intros H. by rewrite IH.
Qed.

(** The version taken from the output of a tool. *)
Lemma version_one_line out : one_line (extractVersion (first_line out)) = true.
Proof.
  destruct (extractVersion_piece (first_line out)) as (pre & post & H & _).
  pose proof (first_line_one_line out) as Hl. rewrite H in Hl.
  by apply all_bytes_middle in Hl.
Qed.

Lemma version_in_output out :
  ∃ pre post, out = pre +:+ extractVersion (first_line out) +:+ post.
Proof.
  destruct (extractVersion_piece (first_line out)) as (pre & post & H & _).
  destruct (first_line_split out) as (rest & Hr & _).
  exists pre, (post +:+ rest). rewrite Hr at 1. rewrite H at 1.
  by rewrite !append_assoc.
Qed.

(** The line [report_tool] writes. *)
Lemma report_tool_post (w : World) (t : tool) :
  ∃ v, console (report_tool w t) = console w ++ [Text (pad16 (name t) +:+ v)] ∧
       one_line v = true ∧
       failures (report_tool w t) = failures w.
Proof.
  unfold report_tool, commandExists.
  destruct (look_path (os w) (tick w) (PATH w) (cmd t)).
  - destruct (runCmd (cmd t) [args t] (tock w)) as [[out e] w1] eqn:E.
    exists (extractVersion (first_line out)).
    unfold runCmd, spawn in E. injection E as _ _ <-. simpl.
    split_and!; try done. apply version_one_line.
  - exists "NOT FOUND". by split_and!.
Qed.

(** X4. The report of one tool is one line of the table: the name of the
    tool, padded, and a text without a line feed, which is [NOT FOUND]
    when the command is not on the search path and otherwise a piece of
    what the command printed; nothing is added to the failure log, and the
    version command is the one process spawned. *)
Theorem report_tool_line (w : World) (t : tool) :
  ∃ v, console (report_tool w t) = console w ++ [Text (pad16 (name t) +:+ v)] ∧
       one_line v = true ∧
       failures (report_tool w t) = failures w ∧
       if look_path (os w) (tick w) (PATH w) (cmd t)
       then spawned (report_tool w t) = spawned w ++ [[cmd t; args t]] ∧
            ∃ pre post, (runCmd (cmd t) [args t] (tock w)).1.1 = pre +:+ v +:+ post
       else v = "NOT FOUND" ∧ spawned (report_tool w t) = spawned w.
Proof.
  unfold report_tool, commandExists.
  destruct (look_path (os w) (tick w) (PATH w) (cmd t)).
  - destruct (runCmd (cmd t) [args t] (tock w)) as [[out e] w1] eqn:E.
    exists (extractVersion (first_line out)).
    unfold runCmd, spawn in E. injection E as _ _ <-. simpl.
    split_and!; try done; [apply version_one_line | apply version_in_output].
  - exists "NOT FOUND". by split_and!.
Qed.

Lemma prints_console ls w : console (prints ls w) = console w ++ (Text <$> ls).
Proof.
  unfold prints. revert w. induction ls as [|l ls IH]; intros w; simpl.
  - by rewrite app_nil_r.
  - rewrite IH. simpl. by rewrite <- app_assoc.
Qed.

Lemma prints_failures ls w : failures (prints ls w) = failures w.
Proof.
  unfold prints. revert w. induction ls as [|l ls IH]; intros w; simpl; [done |].
  by rewrite IH.
Qed.

Lemma report_tools_lines (ts : list tool) (w : World) :
  ∃ vs, length vs = length ts ∧ Forall (λ v, one_line v = true) vs ∧
        console (foldl report_tool w ts)
          = console w ++ zip_with (λ t v, Text (pad16 (name t) +:+ v)) ts vs ∧
        failures (foldl report_tool w ts) = failures w.
Proof.
  revert w. induction ts as [|t ts IH]; intros w.
  - exists []. simpl. by rewrite app_nil_r.
  - destruct (report_tool_post w t) as (v & C & L & F).
    destruct (IH (report_tool w t)) as (vs & Hlen & Hall & C' & F').
    exists (v :: vs). simpl. split_and!; [by rewrite Hlen | by constructor | |].
    + rewrite C', C, <- app_assoc. done.
    + by rewrite F', F.
Qed.

(** X5. The verification writes its banner, the head of the table and
    one line for each of the eleven tools, in the order of the table,
    found or not; it adds nothing to the failure log. *)
Theorem verify_reports_every_tool (w : World) :
  ∃ vs, length vs = length tools ∧ Forall (λ v, one_line v = true) vs ∧
    console (verify w)
      = console w ++
        [Step "Verifying installations"; Text "";
         Text "Tool            Version"; Text "────            ───────"] ++
        zip_with (λ t v, Text (pad16 (name t) +:+ v)) tools vs ∧
    failures (verify w) = failures w.
Proof.
  unfold verify.
  set (w1 := prints _ _).
  destruct (report_tools_lines tools w1) as (vs & Hlen & Hall & C & F).
  exists vs. split_and!; [done | done | |].
  - rewrite C. subst w1. rewrite prints_console, (app_assoc (console w)). f_equal.
    unfold refreshPath, spawn, writeStep. simpl.
    destruct (failed _); simpl; by rewrite <- app_assoc.
  - rewrite F. subst w1. rewrite prints_failures.
    unfold refreshPath, spawn, writeStep. simpl. by destruct (failed _).
Qed.

(** ** The installers and the Git settings *)

(** The body of [installWingetPackage], call by call. *)
Lemma installWingetPackage_eq (packageID displayName : string) (w : World) :
  let listing :=
    runCmd "winget" ["list"; "--id"; packageID; "--accept-source-agreements"] w in
  let install :=
    runCmdPassthrough "winget"
      ["install"; "--id"; packageID; "--exact"; "--accept-source-agreements";
       "--accept-package-agreements"; "--silent"]
      (print (Text ("Installing " +:+ displayName +:+ "...")) listing.2) in
  installWingetPackage packageID displayName w =
    if Contains listing.1.1 packageID
    then writeSkip (displayName +:+ " already installed") listing.2
    else match install.1 with
         | Some _ =>
             writeFail ("Failed to install " +:+ displayName +:+ " (" +:+ packageID +:+ ")")
                       install.2
         | None => writeSuccess (displayName +:+ " installed") (refreshPath install.2)
         end.
Proof.
  intros listing install. unfold installWingetPackage. subst install listing.
  destruct (runCmd "winget" _ w) as [[out e] w1]. cbn [fst snd].
  destruct (Contains out packageID); [done |].
  by destruct (runCmdPassthrough "winget" _ _) as [[err|] w2].
Qed.

Lemma refreshPath_post (w : World) :
  console (refreshPath w) = console w ∧ failures (refreshPath w) = failures w ∧
  spawned (refreshPath w) = spawned w ++ [refresh_command].
Proof. unfold refreshPath, spawn. by destruct (failed _). Qed.

(** X6. What [installWingetPackage] does is decided by the listing and
    by the install command.  When the listing shows the identifier,
    nothing but the listing is run and the package is reported as
    installed already.  Otherwise the install command is run, once: when
    it returns an error, the failure is reported and is one entry of the
    failure log, and the search path is as it was; when it returns none,
    the package is reported as installed and the search path is
    refreshed. *)
Theorem winget_outcomes (packageID displayName : string) (w : World) :
  let list := ["list"; "--id"; packageID; "--accept-source-agreements"] in
  let install := ["install"; "--id"; packageID; "--exact";
                  "--accept-source-agreements"; "--accept-package-agreements";
                  "--silent"] in
  let installing := Text ("Installing " +:+ displayName +:+ "...") in
  let msg := "Failed to install " +:+ displayName +:+ " (" +:+ packageID +:+ ")" in
  let listing := runCmd "winget" list w in
  let result := runCmdPassthrough "winget" install (print installing listing.2) in
  let w' := installWingetPackage packageID displayName w in
  if Contains listing.1.1 packageID then
    console w' = console w ++ [SKIP (displayName +:+ " already installed")] ∧
    spawned w' = spawned w ++ [("winget" :: list)] ∧
    failures w' = failures w ∧ PATH w' = PATH w
  else
    match result.1 with
    | Some _ =>
        console w' = console w ++ [installing; FAIL msg] ∧
        spawned w' = spawned w ++ ["winget" :: list; "winget" :: install] ∧
        failures w' = failures w ++ [msg] ∧ PATH w' = PATH w
    | None =>
        console w' = console w ++ [installing; OK (displayName +:+ " installed")] ∧
        spawned w' = spawned w ++ ["winget" :: list; "winget" :: install; refresh_command] ∧
        failures w' = failures w ∧ PATH w' = PATH (refreshPath result.2)
    end.
Proof.
  intros list install installing msg listing result w'. subst w'.
  rewrite installWingetPackage_eq. fold list install installing msg listing result.
  assert (Hl : console listing.2 = console w ∧ failures listing.2 = failures w ∧
               PATH listing.2 = PATH w ∧ spawned listing.2 = spawned w ++ ["winget" :: list])
    by done.
  assert (Hr : console result.2 = console listing.2 ++ [installing] ∧
               failures result.2 = failures listing.2 ∧ PATH result.2 = PATH listing.2 ∧
               spawned result.2 = spawned listing.2 ++ ["winget" :: install])
    by done.
  destruct Hl as (Cl & Fl & Pl & Sl). destruct Hr as (Cr & Fr & Pr & Sr).
  clearbody result listing.
  destruct (Contains listing.1.1 packageID).
  { cbn -[String.append]. by rewrite Cl, Fl, Pl, Sl. }
  destruct result.1 as [e|] eqn:E.
  - cbn -[String.append]. by rewrite Cr, Fr, Pr, Sr, Cl, Fl, Pl, Sl, <- !app_assoc.
  - destruct (refreshPath_post result.2) as (C & F & S).
    cbn -[String.append refreshPath]. rewrite C, F, S.
    by rewrite Cr, Fr, Sr, Cl, Fl, Sl, <- !app_assoc.
Qed.

(** The body of [installScoopPackage], call by call. *)
Lemma installScoopPackage_eq (pkg bucket : string) (w : World) :
  let w1 := (runCmd "scoop" ["list"] w).2 in
  let listing := runCmd "scoop" ["bucket"; "list"] w1 in
  let adding :=
    runCmd "scoop" ["bucket"; "add"; bucket]
      (print (Text ("Adding scoop bucket '" +:+ bucket +:+ "'...")) listing.2) in
  let ready :=
    if String.eqb bucket "" then w1
    else if Contains listing.1.1 bucket then listing.2 else adding.2 in
  let install :=
    runCmdPassthrough "scoop" ["install"; pkg]
      (print (Text ("Installing " +:+ pkg +:+ " via scoop...")) ready) in
  installScoopPackage pkg bucket w =
    if Contains (runCmd "scoop" ["list"] w).1.1 pkg
    then writeSkip (pkg +:+ " already installed (scoop)") w1
    else match install.1 with
         | Some _ => writeFail ("Failed to install " +:+ pkg +:+ " via scoop") install.2
         | None => writeSuccess (pkg +:+ " installed (scoop)") (refreshPath install.2)
         end.
Proof.
  intros w1 listing adding ready install. unfold installScoopPackage.
  subst install ready adding listing w1.
  destruct (runCmd "scoop" ["list"] w) as [[out e] w1]. cbn [fst snd].
  destruct (Contains out pkg); [done |].
  destruct (String.eqb bucket ""); cbn [negb].
  - by destruct (runCmdPassthrough "scoop" _ _) as [[err|] w2].
  - destruct (runCmd "scoop" ["bucket"; "list"] w1) as [[bout be] w2]. cbn [fst snd].
    destruct (Contains bout bucket); cbn [negb];
      by destruct (runCmdPassthrough "scoop" _ _) as [[err|] w3].
Qed.

(** X7. When the listing of [scoop] does not show the package, the
    install command is run whatever came of the bucket.  Before it, no
    bucket command is run for an empty bucket name, the bucket listing
    alone when it shows the bucket, and otherwise the listing and the
    command that adds the bucket, whose result is not looked at.  When
    the install command returns an error, the failure is the last line
    written and the one entry added to the failure log, and the search
    path is not refreshed; when it returns none, the package is reported
    as installed, nothing is added to the log and the search path is
    refreshed. *)
Theorem scoop_install_attempted (pkg bucket : string) (w : World) :
  Contains (runCmd "scoop" ["list"] w).1.1 pkg = false →
  let w1 := (runCmd "scoop" ["list"] w).2 in
  let listing := runCmd "scoop" ["bucket"; "list"] w1 in
  let adding :=
    runCmd "scoop" ["bucket"; "add"; bucket]
      (print (Text ("Adding scoop bucket '" +:+ bucket +:+ "'...")) listing.2) in
  let pre :=
    if String.eqb bucket "" then []
    else if Contains listing.1.1 bucket then [["scoop"; "bucket"; "list"]]
         else [["scoop"; "bucket"; "list"]; ["scoop"; "bucket"; "add"; bucket]] in
  let ready :=
    if String.eqb bucket "" then w1
    else if Contains listing.1.1 bucket then listing.2 else adding.2 in
  let result :=
    runCmdPassthrough "scoop" ["install"; pkg]
      (print (Text ("Installing " +:+ pkg +:+ " via scoop...")) ready) in
  let msg := "Failed to install " +:+ pkg +:+ " via scoop" in
  let w' := installScoopPackage pkg bucket w in
  spawned ready = spawned w ++ [["scoop"; "list"]] ++ pre ∧
  failures ready = failures w ∧
  match result.1 with
  | Some _ =>
      spawned w' = spawned w ++ [["scoop"; "list"]] ++ pre ++ [["scoop"; "install"; pkg]] ∧
      reported w w' = Some (FAIL msg) ∧
      failures w' = failures w ++ [msg] ∧ PATH w' = PATH w
  | None =>
      spawned w' = spawned w ++ [["scoop"; "list"]] ++ pre
                   ++ [["scoop"; "install"; pkg]; refresh_command] ∧
      reported w w' = Some (OK (pkg +:+ " installed (scoop)")) ∧
      failures w' = failures w ∧ PATH w' = PATH (refreshPath result.2)
  end.
Proof.
  intros H w1 listing adding pre ready result msg w'. subst w'.
  rewrite installScoopPackage_eq.
  fold w1 listing adding ready result msg. rewrite H.
  assert (Hready : spawned ready = spawned w ++ [["scoop"; "list"]] ++ pre ∧
                   failures ready = failures w ∧ PATH ready = PATH w ∧
                   ∃ out, console ready = console w ++ out ∧ fails_of out = []).
  { subst ready pre adding listing w1. unfold runCmd, spawn. cbn [fst snd].
    destruct (String.eqb bucket ""); [| destruct (Contains _ bucket)];
      cbn -[String.append]; rewrite <- ?app_assoc; split_and!; try done;
      first [by exists []; rewrite app_nil_r | by eexists]. }
  destruct Hready as (S & F & P & out & C & _).
  split; [done |]. split; [done |].
  assert (Hres : spawned result.2 = spawned ready ++ [["scoop"; "install"; pkg]] ∧
                 failures result.2 = failures ready ∧ PATH result.2 = PATH ready ∧
                 console result.2
                 = console ready ++ [Text ("Installing " +:+ pkg +:+ " via scoop...")])
    by done.
  destruct Hres as (S' & F' & P' & C').
  clearbody result ready.
  destruct result.1 as [e|].
  - cbn -[String.append]. rewrite S', S, F', F, P', P, <- !app_assoc. split_and!; try done.
    rewrite (reported_app w _ (out ++ [Text ("Installing " +:+ pkg +:+ " via scoop...");
                                       FAIL msg])); [by rewrite last_app |].
    cbn -[String.append]. rewrite C', C, <- !app_assoc. done.
  - destruct (refreshPath_post result.2) as (Cr & Fr & Sr).
    cbn -[String.append refreshPath]. rewrite Sr, Fr, S', S, F', F, <- !app_assoc.
    split_and!; try done.
    rewrite (reported_app w _ (out ++ [Text ("Installing " +:+ pkg +:+ " via scoop...");
                                       OK (pkg +:+ " installed (scoop)")]));
      [by rewrite last_app |].
    cbn -[String.append refreshPath]. rewrite Cr, C', C, <- !app_assoc. done.
Qed.

(** In [mute] the bucket cannot be added and the install is attempted all
    the same; it fails, and the failure is logged. *)
Lemma scoop_install_attempted_witness :
  spawned (installScoopPackage "JetBrainsMono-NF" "nerd-fonts" mute)
    = [["scoop"; "list"]; ["scoop"; "bucket"; "list"];
       ["scoop"; "bucket"; "add"; "nerd-fonts"];
       ["scoop"; "install"; "JetBrainsMono-NF"]] ∧
  failures (installScoopPackage "JetBrainsMono-NF" "nerd-fonts" mute)
    = ["Failed to install JetBrainsMono-NF via scoop"] ∧
  let pkg := "JetBrainsMono-NF" in
  let bucket := "nerd-fonts" in
  let w1 := (runCmd "scoop" ["list"] mute).2 in
  let listing := runCmd "scoop" ["bucket"; "list"] w1 in
  let adding :=
    runCmd "scoop" ["bucket"; "add"; bucket]
      (print (Text ("Adding scoop bucket '" +:+ bucket +:+ "'...")) listing.2) in
  let pre :=
    if String.eqb bucket "" then []
    else if Contains listing.1.1 bucket then [["scoop"; "bucket"; "list"]]
         else [["scoop"; "bucket"; "list"]; ["scoop"; "bucket"; "add"; bucket]] in
  let ready :=
    if String.eqb bucket "" then w1
    else if Contains listing.1.1 bucket then listing.2 else adding.2 in
  let result :=
    runCmdPassthrough "scoop" ["install"; pkg]
      (print (Text ("Installing " +:+ pkg +:+ " via scoop...")) ready) in
  let msg := "Failed to install " +:+ pkg +:+ " via scoop" in
  let w' := installScoopPackage pkg bucket mute in
  spawned ready = spawned mute ++ [["scoop"; "list"]] ++ pre ∧
  failures ready = failures mute ∧
  match result.1 with
  | Some _ =>
      spawned w' = spawned mute ++ [["scoop"; "list"]] ++ pre ++ [["scoop"; "install"; pkg]] ∧
      reported mute w' = Some (FAIL msg) ∧
      failures w' = failures mute ++ [msg] ∧ PATH w' = PATH mute
  | None =>
      spawned w' = spawned mute ++ [["scoop"; "list"]] ++ pre
                   ++ [["scoop"; "install"; pkg]; refresh_command] ∧
      reported mute w' = Some (OK (pkg +:+ " installed (scoop)")) ∧
      failures w' = failures mute ∧ PATH w' = PATH (refreshPath result.2)
  end.
Proof.
  split; [vm_compute; reflexivity |]. split; [vm_compute; reflexivity |].
  apply (scoop_install_attempted "JetBrainsMono-NF" "nerd-fonts" mute).
  vm_compute. reflexivity.
Defined.

(** X8. A Git setting that has a value is left alone: when
    [git config --global --get] prints anything but white space,
    [setGitConfigIfMissing] runs no other command and reports the value it
    found, whatever the exit status of the command. *)
Theorem git_config_kept (key value : string) (w : World) :
  (runCmd "git" ["config"; "--global"; "--get"; key] w).1.1 ≠ EmptyString →
  spawned (setGitConfigIfMissing key value w)
    = spawned w ++ [["git"; "config"; "--global"; "--get"; key]] ∧
  console (setGitConfigIfMissing key value w)
    = console w ++
      [SKIP ("git " +:+ key +:+ " already set to '" +:+
             (runCmd "git" ["config"; "--global"; "--get"; key] w).1.1 +:+ "'")] ∧
  failures (setGitConfigIfMissing key value w) = failures w.
Proof.
  intros H. unfold setGitConfigIfMissing.
  destruct (runCmd "git" _ w) as [[current e] w1] eqn:E. cbn [fst] in *.
  apply String.eqb_neq in H. rewrite H.
  unfold runCmd, spawn in E. injection E as _ _ <-. done.
Qed.

Lemma git_config_kept_witness :
  spawned (setGitConfigIfMissing "core.editor" "nvim" stocked)
    = spawned stocked ++ [["git"; "config"; "--global"; "--get"; "core.editor"]] ∧
  console (setGitConfigIfMissing "core.editor" "nvim" stocked)
    = console stocked ++
      [SKIP ("git " +:+ "core.editor" +:+ " already set to '" +:+
             (runCmd "git" ["config"; "--global"; "--get"; "core.editor"] stocked).1.1 +:+ "'")] ∧
  failures (setGitConfigIfMissing "core.editor" "nvim" stocked) = failures stocked.
Proof.
  apply (git_config_kept "core.editor" "nvim" stocked). vm_compute. discriminate.
Defined.

(** X9. The command that writes a Git setting is not checked: when the
    setting has no value and [git config --global key value] fails,
    [setGitConfigIfMissing] still reports the setting as set and adds
    nothing to the failure log. *)
Theorem git_config_write_unchecked (key value e : string) (w : World) :
  (runCmd "git" ["config"; "--global"; "--get"; key] w).1.1 = EmptyString →
  (runCmd "git" ["config"; "--global"; key; value]
     (runCmd "git" ["config"; "--global"; "--get"; key] w).2).1.2 = Some e →
  spawned (setGitConfigIfMissing key value w)
    = spawned w ++ [["git"; "config"; "--global"; "--get"; key];
                    ["git"; "config"; "--global"; key; value]] ∧
  console (setGitConfigIfMissing key value w)
    = console w ++ [OK ("git " +:+ key +:+ " set to '" +:+ value +:+ "'")] ∧
  failures (setGitConfigIfMissing key value w) = failures w.
Proof.
  intros H _. unfold setGitConfigIfMissing.
  destruct (runCmd "git" _ w) as [[current e0] w1] eqn:E. cbn [fst] in *.
  rewrite H. unfold runCmd, spawn in *. injection E as _ _ <-.
  cbn -[String.append]. by rewrite <- app_assoc.
Qed.

Lemma git_config_write_unchecked_witness :
  spawned (setGitConfigIfMissing "core.editor" "nvim" mute)
    = spawned mute ++ [["git"; "config"; "--global"; "--get"; "core.editor"];
                       ["git"; "config"; "--global"; "core.editor"; "nvim"]] ∧
  console (setGitConfigIfMissing "core.editor" "nvim" mute)
    = console mute ++ [OK ("git " +:+ "core.editor" +:+ " set to '" +:+ "nvim" +:+ "'")] ∧
  failures (setGitConfigIfMissing "core.editor" "nvim" mute) = failures mute.
Proof.
  apply (git_config_write_unchecked "core.editor" "nvim" "exit status 1" mute);
    vm_compute; reflexivity.
Defined.

(** ** Copies and fingerprints *)

(** X10. A copy that returns no error, between two different paths: the
    source is a file that can be read, the destination is a file with the
    content of the source, and no other path has changed; the source is
    as it was. *)
Theorem copyFile_copies (src dst : path) (w : World) :
  (copyFile src dst w).1 = None → src ≠ dst →
  ∃ f fd, fs w !! src = Some (NFile f) ∧ readable f = true ∧
          fs (copyFile src dst w).2 !! dst = Some (NFile fd) ∧
          content fd = content f ∧
          ∀ k, k ≠ dst → fs (copyFile src dst w).2 !! k = fs w !! k.
Proof.
  intros H Hne. destruct (copyFile src dst w) as [e w'] eqn:E. cbn [fst snd] in *.
  subst e. pose proof (copyFile_frame src dst w) as Fr. rewrite E in Fr. cbn [snd] in Fr.
  apply copyFile_ok in E as (f & fd & Hs & Hd & Hc & Hr & _).
  exists f, fd. rewrite <- Fr by done. done.
Qed.

Lemma copyFile_copies_witness :
  (∃ f fd, fs fresh !! src = Some (NFile f) ∧ readable f = true ∧
           fs (copyFile src tgt fresh).2 !! tgt = Some (NFile fd) ∧
           content fd = content f ∧
           ∀ k, k ≠ tgt → fs (copyFile src tgt fresh).2 !! k = fs fresh !! k) ∧
  fs (copyFile src tgt fresh).2 !! tgt = Some (NFile (File "X" later true true)).
Proof.
  split; [| vm_compute; reflexivity].
  apply (copyFile_copies src tgt fresh); [vm_compute; reflexivity | discriminate].
Defined.

(** X11. A file copied onto itself is emptied: [os.Create] truncates it
    before [io.Copy] reads it, and the copy returns no error. *)
Theorem copyFile_onto_itself (p : path) (w : World) :
  (copyFile p p w).1 = None →
  ∃ f, fs (copyFile p p w).2 !! p = Some (NFile f) ∧ content f = EmptyString.
Proof. apply copyFile_self. Qed.

Lemma copyFile_onto_itself_witness :
  fs edited !! tgt = Some (plain "Y") ∧
  ∃ f, fs (copyFile tgt tgt edited).2 !! tgt = Some (NFile f) ∧ content f = EmptyString.
Proof.
  split; [vm_compute; reflexivity |].
  apply (copyFile_onto_itself tgt edited). vm_compute. reflexivity.
Defined.

(** X12. A copy that returns an error changes no path but its
    destination and removes nothing.  The destination is as it was, or
    it is a file that holds the first bytes of the source, none of them
    when the copy failed before it wrote any: the destination is
    truncated before the source is read, the data goes through in
    pieces, and nothing restores what the destination held. *)
Theorem copyFile_failure (src dst : path) (w : World) (e : error) :
  (copyFile src dst w).1 = Some e →
  (∀ k, k ≠ dst → fs (copyFile src dst w).2 !! k = fs w !! k) ∧
  (∀ k, is_Some (fs w !! k) → is_Some (fs (copyFile src dst w).2 !! k)) ∧
  (fs (copyFile src dst w).2 !! dst = fs w !! dst ∨
   ∃ fd, fs (copyFile src dst w).2 !! dst = Some (NFile fd) ∧
         (content fd = EmptyString ∨
          ∃ fsrc, fs w !! src = Some (NFile fsrc) ∧
                  String.prefix (content fd) (content fsrc) = true)).
Proof.
  intros H. split_and!.
  - intros k Hk. by apply copyFile_frame.
  - intros k. apply copyFile_keeps.
  - by apply (copyFile_failed_dst _ _ _ e).
Qed.

(** In [stumble] the target held ["Y"] and the source holds
    ["first second"]; the copy fails after five bytes and the target is
    left with ["first"]. *)
Lemma copyFile_failure_witness :
  fs stumble !! tgt = Some (plain "Y") ∧
  fs (copyFile src tgt stumble).2 !! tgt = Some (NFile (File "first" later true true)) ∧
  (∀ k, k ≠ tgt → fs (copyFile src tgt stumble).2 !! k = fs stumble !! k) ∧
  (∀ k, is_Some (fs stumble !! k) → is_Some (fs (copyFile src tgt stumble).2 !! k)) ∧
  (fs (copyFile src tgt stumble).2 !! tgt = fs stumble !! tgt ∨
   ∃ fd, fs (copyFile src tgt stumble).2 !! tgt = Some (NFile fd) ∧
         (content fd = EmptyString ∨
          ∃ fsrc, fs stumble !! src = Some (NFile fsrc) ∧
                  String.prefix (content fd) (content fsrc) = true)).
Proof.
  split; [vm_compute; reflexivity |]. split; [vm_compute; reflexivity |].
  apply (copyFile_failure src tgt stumble (PathError "read" src ErrIO)). vm_compute. reflexivity.
Defined.

(** X13. [fileHash] changes nothing in the file system, on the terminal
    or in the failure log; it returns either no error and the SHA-256
    fingerprint of the content of a file that can be read, or an error and
    the empty string. *)
Theorem fileHash_result (p : path) (w : World) :
  fs (fileHash p w).2 = fs w ∧ console (fileHash p w).2 = console w ∧
  failures (fileHash p w).2 = failures w ∧
  match (fileHash p w).1 with
  | (h, None) =>
      ∃ f, fs w !! p = Some (NFile f) ∧ readable f = true ∧ h = sha256_hex (content f)
  | (h, Some _) => h = EmptyString
  end.
Proof.
  destruct (fileHash_quiet p w) as (_ & _ & C & L & _).
  split_and!; [apply fileHash_fs | done | done |].
  destruct (fileHash p w) as [[h [e|]] w'] eqn:E; cbn [fst].
  - apply (fileHash_error p w h e). by rewrite E.
  - by apply fileHash_computed in E.
Qed.

(** ** The fingerprint *)

Local Open Scope Z_scope.

Lemma sixteen (d : Z) :
  0 ≤ d < 16 →
  d = 0 ∨ d = 1 ∨ d = 2 ∨ d = 3 ∨ d = 4 ∨ d = 5 ∨ d = 6 ∨ d = 7 ∨
  d = 8 ∨ d = 9 ∨ d = 10 ∨ d = 11 ∨ d = 12 ∨ d = 13 ∨ d = 14 ∨ d = 15.
Proof. lia. Qed.

Lemma hex_digit_lower d : 0 ≤ d < 16 → lower_hex (hex_digit d) = true.
Proof. intros H. apply sixteen in H. repeat destruct H as [->|H]; subst; done. Qed.

Lemma hex_value_digit d : 0 ≤ d < 16 → hex_value (hex_digit d) = d.
Proof. intros H. apply sixteen in H. repeat destruct H as [->|H]; subst; done. Qed.

Lemma be_bytes_range n x : Forall (λ b, 0 ≤ b < 256) (SHA256.be_bytes n x).
Proof.
  induction n as [|n IH]; simpl; constructor; [| done].
  apply Z.mod_pos_bound. lia.
Qed.

Lemma length_be_bytes n x : length (SHA256.be_bytes n x) = n.
Proof. induction n as [|n IH]; simpl; by rewrite ?IH. Qed.

Lemma compress_length h block : length h = 8%nat → length (SHA256.compress h block) = 8%nat.
Proof.
  intros H. unfold SHA256.compress. rewrite length_zip_with, H. done.
Qed.

Lemma digest_state_length blocks h :
  length h = 8%nat → length (foldl SHA256.compress h blocks) = 8%nat.
Proof.
  revert h. induction blocks as [|b bs IH]; intros h H; simpl; [done |].
  by apply IH, compress_length.
Qed.

Lemma bind_be_bytes_length (h : list Z) :
  length (h ≫= SHA256.be_bytes 4) = (4 * length h)%nat.
Proof.
  induction h as [|x h IH]; [done |].
  rewrite bind_cons, length_app, IH, length_be_bytes. simpl. lia.
Qed.

Lemma bind_be_bytes_range (h : list Z) :
  Forall (λ b, 0 ≤ b < 256) (h ≫= SHA256.be_bytes 4).
Proof.
  induction h as [|x h IH]; [constructor |].
  rewrite bind_cons. apply Forall_app. split; [apply be_bytes_range | done].
Qed.

Lemma digest_length msg : length (SHA256.digest msg) = 32%nat.
Proof.
  unfold SHA256.digest. rewrite bind_be_bytes_length, digest_state_length; done.
Qed.

Lemma digest_range msg : Forall (λ b, 0 ≤ b < 256) (SHA256.digest msg).
Proof. apply bind_be_bytes_range. Qed.

Lemma hex_bytes_cons b bs :
  hex_bytes (b :: bs)
  = String (hex_digit (b / 16)) (String (hex_digit (b mod 16)) (hex_bytes bs)).
Proof. done. Qed.

Lemma hex_bytes_length bs : String.length (hex_bytes bs) = (2 * length bs)%nat.
Proof.
  induction bs as [|b bs IH]; [done |].
  rewrite hex_bytes_cons. simpl. rewrite IH. lia.
Qed.

Lemma hex_bytes_lower bs :
  Forall (λ b, 0 ≤ b < 256) bs → all_bytes lower_hex (hex_bytes bs) = true.
Proof.
  induction 1 as [|b bs Hb _ IH]; [done |].
  rewrite hex_bytes_cons. cbn [all_bytes].
  rewrite !hex_digit_lower, IH; [done | |].
  - apply Z.mod_pos_bound. lia.
  - split; [apply Z.div_pos; lia | apply Z.div_lt_upper_bound; lia].
Qed.

Lemma unhex_hex_bytes bs :
  Forall (λ b, 0 ≤ b < 256) bs → unhex (hex_bytes bs) = bs.
Proof.
  induction 1 as [|b bs Hb _ IH]; [done |].
  rewrite hex_bytes_cons. cbn [unhex]. rewrite IH, !hex_value_digit.
  - f_equal. pose proof (Z.div_mod b 16). lia.
  - apply Z.mod_pos_bound. lia.
  - split; [apply Z.div_pos; lia | apply Z.div_lt_upper_bound; lia].
Qed.

(** X14. A fingerprint is a string of 64 lowercase hexadecimal digits,
    whatever the content. *)
Theorem sha256_hex_format (content : string) :
  String.length (sha256_hex content) = 64%nat ∧
  all_bytes lower_hex (sha256_hex content) = true.
Proof.
  unfold sha256_hex. split.
  - by rewrite hex_bytes_length, digest_length.
  - apply hex_bytes_lower, digest_range.
Qed.

(** X15. The hexadecimal string loses nothing of the digest: read back,
    it gives the 32 bytes of the digest, so that two fingerprints are the
    same string exactly when the digests are the same. *)
Theorem fingerprint_is_digest (a b : string) :
  unhex (sha256_hex a) = SHA256.digest (bytes_of a) ∧
  (sha256_hex a = sha256_hex b ↔
   SHA256.digest (bytes_of a) = SHA256.digest (bytes_of b)).
Proof.
  assert (H : ∀ c, unhex (sha256_hex c) = SHA256.digest (bytes_of c)).
  { intros c. apply unhex_hex_bytes, digest_range. }
  split; [apply H |]. split.
  - intros E. by rewrite <- !H, E.
  - unfold sha256_hex. by intros ->.
Qed.

Local Close Scope Z_scope.

(** ** deployConfigFile, further *)

Lemma grows_keeps p m m' k : grows p m m' → is_Some (m !! k) → is_Some (m' !! k).
Proof. intros G Hk. destruct (G k) as [->|(E & _)]; [done |]. rewrite E in Hk. by destruct Hk. Qed.

Lemma deploy_backup_keeps target w k :
  is_Some (fs w !! k) → is_Some (fs (deploy_backup target w) !! k).
Proof.
  intros Hk. unfold deploy_backup. rewrite time_Now_eq.
  pose proof (copyFile_keeps target (backupPath target (clock (os w) (tick w))) (tock w) k Hk)
    as H.
  by destruct (copyFile _ _ (tock w)) as [e w1].
Qed.

Lemma deploy_copy_keeps srcRel src target w k :
  is_Some (fs w !! k) → is_Some (fs (deploy_copy srcRel src target w) !! k).
Proof.
  intros Hk. unfold deploy_copy.
  pose proof (copyFile_keeps src target w k Hk) as H.
  by destruct (copyFile src target w) as [[e|] w1].
Qed.

(** Lines 160-192 spawn nothing and leave the search path alone. *)
Lemma deploy_quiet srcRel target w :
  spawned (deployConfigFile srcRel target w) = spawned w ∧
  PATH (deployConfigFile srcRel target w) = PATH w.
Proof.
  assert (Hcopy : ∀ s t w0, spawned w0 = spawned w ∧ PATH w0 = PATH w →
            spawned (deploy_copy srcRel s t w0) = spawned w ∧
            PATH (deploy_copy srcRel s t w0) = PATH w).
  { intros s t w0 [S0 P0]. unfold deploy_copy.
    destruct (copyFile_spawns s t w0) as [S1 P1].
    destruct (copyFile s t w0) as [[e|] w1]; cbn [snd] in *; simpl; split; congruence. }
  assert (Hbk : ∀ t w0, spawned w0 = spawned w ∧ PATH w0 = PATH w →
            spawned (deploy_backup t w0) = spawned w ∧
            PATH (deploy_backup t w0) = PATH w).
  { intros t w0 [S0 P0]. unfold deploy_backup. rewrite time_Now_eq.
    destruct (copyFile_spawns t (backupPath t (clock (os w0) (tick w0))) (tock w0))
      as [S1 P1].
    destruct (copyFile _ _ (tock w0)) as [e w1]; cbn [snd] in *; simpl in *;
      split; congruence. }
  unfold deployConfigFile.
  destruct (os_Stat_quiet (Join (scriptRoot w) srcRel) w) as (_ & _ & _ & _ & S1 & P1 & _).
  destruct (os_Stat _ w) as [e1 w1]; cbn [snd] in *.
  destruct (IsNotExist e1); [done |].
  destruct (os_MkdirAll_quiet (Dir target) w1) as (_ & _ & _ & _ & S2 & P2 & _).
  destruct (os_MkdirAll _ w1) as [e2 w2]; cbn [snd] in *.
  destruct (negb (is_nil e2)); [simpl; split; congruence |].
  destruct (os_Stat_quiet target w2) as (_ & _ & _ & _ & S3 & P3 & _).
  destruct (os_Stat target w2) as [e3 w3]; cbn [snd] in *.
  destruct (is_nil e3); [| apply Hcopy; split; congruence].
  destruct (fileHash_quiet (Join (scriptRoot w) srcRel) w3) as (_ & _ & _ & _ & S4 & P4 & _).
  destruct (fileHash _ w3) as [[h1 x1] w4]; cbn [snd] in *.
  destruct (fileHash_quiet target w4) as (_ & _ & _ & _ & S5 & P5 & _).
  destruct (fileHash target w4) as [[h2 x2] w5]; cbn [snd] in *.
  destruct (is_nil x1 && is_nil x2 && String.eqb h1 h2).
  - simpl; split; congruence.
  - apply Hcopy, Hbk. split; congruence.
Qed.

(** The lines a call writes, and what it adds to the failure log. *)
Lemma deploy_report (srcRel target : path) (w : World) :
  ∃ pre l,
    console (deployConfigFile srcRel target w) = console w ++ pre ++ [l] ∧
    (pre = [] ∨ ∃ t, pre = [BackedUp target t]) ∧
    ((l = Deployed srcRel target ∨ l = IsUpToDate target) ∧
     failures (deployConfigFile srcRel target w) = failures w ∨
     ∃ m, l = FAIL m ∧ failures (deployConfigFile srcRel target w) = failures w ++ [m]).
Proof.
  rewrite deploy_phases in *.
  destruct (deploy_check srcRel target w) as [v wb] eqn:Ec.
  apply deploy_check_post in Ec as (_ & _ & _ & _ & Hv).
  assert (Hcopy : ∀ pre w0,
            console w0 = console w ++ pre → failures w0 = failures w →
            ∃ l, console (deploy_copy srcRel (Join (scriptRoot w) srcRel) target w0)
                 = console w ++ pre ++ [l] ∧
              ((l = Deployed srcRel target ∨ l = IsUpToDate target) ∧
               failures (deploy_copy srcRel (Join (scriptRoot w) srcRel) target w0)
                 = failures w ∨
               ∃ m, l = FAIL m ∧
                 failures (deploy_copy srcRel (Join (scriptRoot w) srcRel) target w0)
                   = failures w ++ [m])).
  { intros pre w0 C0 L0.
    destruct (deploy_copy_post srcRel (Join (scriptRoot w) srcRel) target w0)
      as (_ & _ & _ & _ & [(err & w1 & _ & _ & C1 & L1)|(w1 & _ & _ & C1 & L1)]).
    - eexists. rewrite C1, C0, <- app_assoc. split; [done |].
      right. eexists. split; [done |]. by rewrite L1, L0.
    - eexists. rewrite C1, C0, <- app_assoc. split; [done |].
      left. split; [by left | by rewrite L1, L0]. }
  destruct v.
  - destruct Hv as [C L]. exists [], (FAIL ("Source config not found: " +:+ show_path srcRel)).
    split_and!; try done; [by left | right; eauto].
  - destruct Hv as [C L].
    exists [], (FAIL ("Failed to create directory: " +:+ show_path (Dir target))).
    split_and!; try done; [by left | right; eauto].
  - destruct Hv as (C & L & _). exists [], (IsUpToDate target).
    split_and!; try done; [by left | left; auto].
  - destruct Hv as (C & L & _).
    destruct (deploy_backup_post target wb) as (_ & _ & _ & C1 & L1 & _).
    destruct (Hcopy [BackedUp target (clock (os wb) (tick wb))] (deploy_backup target wb))
      as (l & Cl & Hl); [by rewrite C1, C | by rewrite L1, L |].
    exists [BackedUp target (clock (os wb) (tick wb))], l.
    split_and!; try done. right. eauto.
  - destruct Hv as (C & L & _).
    destruct (Hcopy [] wb) as (l & Cl & Hl); [by rewrite C, app_nil_r | done |].
    exists [], l. split_and!; try done. by left.
Qed.

(** X16. Every call of [deployConfigFile] ends with one status line,
    after the backup message if a backup was attempted: [Deployed] or up
    to date, and the failure log is as it was, or a failure, which is the
    one entry added to the log.  The call spawns no process and leaves the
    search path alone. *)
Theorem deploy_outcome (srcRel target : path) (w : World) :
  ∃ pre l,
    console (deployConfigFile srcRel target w) = console w ++ pre ++ [l] ∧
    (pre = [] ∨ ∃ t, pre = [BackedUp target t]) ∧
    ((l = Deployed srcRel target ∨ l = IsUpToDate target) ∧
     failures (deployConfigFile srcRel target w) = failures w ∨
     ∃ m, l = FAIL m ∧ failures (deployConfigFile srcRel target w) = failures w ++ [m]) ∧
    spawned (deployConfigFile srcRel target w) = spawned w ∧
    PATH (deployConfigFile srcRel target w) = PATH w.
Proof.
  destruct (deploy_quiet srcRel target w) as [Sp Pa].
  destruct (deploy_report srcRel target w) as (pre & l & C & Hpre & Hl).
  exists pre, l. by split_and!.
Qed.

(** X17. [deployConfigFile] removes nothing, and changes nothing but the
    target, a backup path of the target, and directories it creates on the
    way to the directory of the target: every other path is as it was. *)
Theorem deploy_touches_only (srcRel target k : path) (w : World) :
  (is_Some (fs w !! k) → is_Some (fs (deployConfigFile srcRel target w) !! k)) ∧
  (fs (deployConfigFile srcRel target w) !! k = fs w !! k ∨
   k = target ∨ (∃ t, k = backupPath target t) ∨
   (fs w !! k = None ∧ fs (deployConfigFile srcRel target w) !! k = Some (NDir true) ∧
    k `prefix_of` Dir target)).
Proof.
  rewrite deploy_phases.
  destruct (deploy_check srcRel target w) as [v wb] eqn:Ec.
  apply deploy_check_post in Ec as (_ & _ & _ & G & _).
  assert (Hwb : fs wb !! k = fs w !! k ∨
                (fs w !! k = None ∧ fs wb !! k = Some (NDir true) ∧ k `prefix_of` Dir target)).
  { destruct (G k) as [E|(E1 & E2 & Hp & _)]; auto. }
  assert (Hcopy : ∀ w0, fs (deploy_copy srcRel (Join (scriptRoot w) srcRel) target w0) !! k
                        = fs w0 !! k ∨ k = target).
  { intros w0. destruct (decide (k = target)) as [->|Hne]; [by right | left].
    by destruct (deploy_copy_post srcRel (Join (scriptRoot w) srcRel) target w0)
      as (_ & _ & _ & Fr & _); rewrite Fr. }
  assert (Hbk : fs (deploy_backup target wb) !! k = fs wb !! k ∨ ∃ t, k = backupPath target t).
  { destruct (decide (k = backupPath target (clock (os wb) (tick wb)))) as [->|Hne];
      [right; eauto | left].
    by destruct (deploy_backup_post target wb) as (_ & _ & _ & _ & _ & Fr); rewrite Fr. }
  split.
  - intros Hk. eapply grows_keeps in Hk; [| exact G].
    destruct v; try done.
    + by apply deploy_copy_keeps, deploy_backup_keeps.
    + by apply deploy_copy_keeps.
  - destruct v; try (destruct Hwb as [->|?]; [by left | by do 3 right]).
    + destruct (Hcopy (deploy_backup target wb)) as [->|?]; [| by auto].
      destruct Hbk as [->|?]; [| by auto].
      destruct Hwb as [->|(? & ? & ?)]; [by left | by do 3 right].
    + destruct (Hcopy wb) as [->|?]; [| by auto].
      destruct Hwb as [->|(? & ? & ?)]; [by left | by do 3 right].
Qed.

(** X18. Without its source, a call creates nothing: it writes
    ["Source config not found"], which is the one entry added to the
    failure log, and the file system is as it was; the directory of the
    target is not created. *)
Theorem deploy_source_missing (srcRel target : path) (w : World) :
  faulty w = false → fs w !! Join (scriptRoot w) srcRel = None →
  console (deployConfigFile srcRel target w)
    = console w ++ [FAIL ("Source config not found: " +:+ show_path srcRel)] ∧
  failures (deployConfigFile srcRel target w)
    = failures w ++ ["Source config not found: " +:+ show_path srcRel] ∧
  fs (deployConfigFile srcRel target w) = fs w.
Proof.
  intros Hf H. unfold deployConfigFile. by rewrite (os_Stat_missing _ _ Hf H).
Qed.

Lemma deploy_source_missing_witness :
  fs fresh !! Dir ["C:"; "home"; "nushell"; "config.nu"] = None ∧
  console (deployConfigFile ["configs"; "nushell"; "config.nu"]
             ["C:"; "home"; "nushell"; "config.nu"] fresh)
    = console fresh ++ [FAIL ("Source config not found: "
                              +:+ show_path ["configs"; "nushell"; "config.nu"])] ∧
  failures (deployConfigFile ["configs"; "nushell"; "config.nu"]
              ["C:"; "home"; "nushell"; "config.nu"] fresh)
    = failures fresh ++ ["Source config not found: "
                         +:+ show_path ["configs"; "nushell"; "config.nu"]] ∧
  fs (deployConfigFile ["configs"; "nushell"; "config.nu"]
        ["C:"; "home"; "nushell"; "config.nu"] fresh) = fs fresh.
Proof.
  split; [vm_compute; reflexivity |].
  apply (deploy_source_missing ["configs"; "nushell"; "config.nu"]
           ["C:"; "home"; "nushell"; "config.nu"] fresh); vm_compute; reflexivity.
Defined.

(** X19. When the directory of the target cannot be created, the call
    writes ["Failed to create directory"], which is the one entry added to
    the failure log, and neither the target nor any other path that
    existed is changed: no copy is attempted. *)
Theorem deploy_no_directory (srcRel target : path) (w : World) (e : error) :
  IsNotExist (os_Stat (Join (scriptRoot w) srcRel) w).1 = false →
  (os_MkdirAll (Dir target) (os_Stat (Join (scriptRoot w) srcRel) w).2).1 = Some e →
  console (deployConfigFile srcRel target w)
    = console w ++ [FAIL ("Failed to create directory: " +:+ show_path (Dir target))] ∧
  failures (deployConfigFile srcRel target w)
    = failures w ++ ["Failed to create directory: " +:+ show_path (Dir target)] ∧
  ∀ k, is_Some (fs w !! k) ∨ ¬ k `prefix_of` Dir target →
       fs (deployConfigFile srcRel target w) !! k = fs w !! k.
Proof.
  intros H1 H2. unfold deployConfigFile.
  pose proof (os_Stat_quiet (Join (scriptRoot w) srcRel) w) as Q1.
  pose proof (os_Stat_fs (Join (scriptRoot w) srcRel) w) as F1.
  destruct (os_Stat _ w) as [e1 w1]; cbn [fst snd] in *. rewrite H1.
  pose proof (os_MkdirAll_quiet (Dir target) w1) as Q2.
  pose proof (os_MkdirAll_grows (Dir target) w1) as G2.
  destruct (os_MkdirAll _ w1) as [e2 w2]; cbn [fst snd] in *. subst e2. simpl.
  destruct Q1 as (_ & _ & C1 & L1 & _). destruct Q2 as (_ & _ & C2 & L2 & _).
  rewrite C2, C1, L2, L1. split_and!; [done | done |].
  intros k Hk. rewrite <- F1.
  destruct (G2 k) as [E|(E1 & E2 & Hp & _)]; [done |].
  destruct Hk as [Hk|Hk]; [| done]. rewrite F1 in *. rewrite E1 in Hk. by destruct Hk.
Qed.

(** In [blocked] a file stands where the directory should be. *)
Lemma deploy_no_directory_witness :
  console (deployConfigFile rel tgt blocked)
    = console blocked ++ [FAIL ("Failed to create directory: " +:+ show_path (Dir tgt))] ∧
  failures (deployConfigFile rel tgt blocked)
    = failures blocked ++ ["Failed to create directory: " +:+ show_path (Dir tgt)] ∧
  ∀ k, is_Some (fs blocked !! k) ∨ ¬ k `prefix_of` Dir tgt →
       fs (deployConfigFile rel tgt blocked) !! k = fs blocked !! k.
Proof.
  apply (deploy_no_directory rel tgt blocked (PathError "mkdir" (Dir tgt) ErrNotDir)); vm_compute; reflexivity.
Defined.

(** ** deployConfigFile: first runs and odd targets *)

(** X20. A first deploy into a directory that does not exist yet: when
    no system call fails, the source is a file that can be read, nothing
    is at the target path and its directory can be created, the call
    creates the directory, copies the source and reports [Deployed]; no
    backup message is written. *)
Theorem deploy_creates_directory (srcRel target : path) (w : World) (f : file) :
  fault_free w →
  fs w !! Join (scriptRoot w) srcRel = Some (NFile f) → readable f = true →
  fs w !! Dir target = None → fs w !! target = None →
  (os_MkdirAll (Dir target) (tock w)).1 = None →
  console (deployConfigFile srcRel target w) = console w ++ [Deployed srcRel target] ∧
  failures (deployConfigFile srcRel target w) = failures w ∧
  fs (deployConfigFile srcRel target w) !! Dir target = Some (NDir true) ∧
  ∃ ft, fs (deployConfigFile srcRel target w) !! target = Some (NFile ft) ∧
        content ft = content f.
Proof.
  intros Hff Hs Hr Hd Ht Hmk.
  assert (Hf : ∀ w', quiet w w' → faulty w' = false).
  { intros w' Q. by apply fault_free_now, (fault_free_quiet w). }
  unfold deployConfigFile.
  rewrite (os_Stat_found _ w (NFile f)) by (first [apply Hf, quiet_refl | done]).
  cbn [IsNotExist].
  pose proof (os_MkdirAll_quiet (Dir target) (tock w)) as Q2.
  pose proof (os_MkdirAll_grows (Dir target) (tock w)) as G2.
  destruct (os_MkdirAll (Dir target) (tock w)) as [e2 w2] eqn:E2.
  cbn [fst snd] in *. subst e2. cbn [is_nil negb].
  apply os_MkdirAll_created in E2; [| done].
  assert (Q : quiet w w2) by (eapply quiet_trans; [apply quiet_tock | done]).
  assert (Ht2 : fs w2 !! target = None).
  { destruct (G2 target) as [->|(_ & _ & Hp & Hne)]; [done |].
    apply prefix_length in Hp. rewrite length_Dir in Hp.
    destruct target; [done | simpl in Hp; lia]. }
  assert (Hs2 : fs w2 !! Join (scriptRoot w) srcRel = Some (NFile f)).
  { destruct (G2 (Join (scriptRoot w) srcRel)) as [->|(E & _)]; [done |].
    simpl in E. congruence. }
  rewrite (os_Stat_missing _ w2) by (first [by apply Hf | done]).
  cbn [is_nil]. unfold deploy_copy.
  destruct (copyFile_new (Join (scriptRoot w) srcRel) target (tock w2) f)
    as (w3 & E3 & tm & F3); try done;
    try (apply Hf; eauto using quiet_trans, quiet_tock).
  destruct Q as (_ & _ & C & L & _).
  pose proof (copyFile_quiet (Join (scriptRoot w) srcRel) target (tock w2)) as Q3.
  rewrite E3 in *. cbn [snd] in *.
  destruct Q3 as (_ & _ & C3 & L3 & _). simpl in C3, L3. simpl.
  unfold Deployed. rewrite C3, L3, C, L. split_and!; [done | done | |].
  - rewrite F3, lookup_insert_ne; [exact E2 |].
    intros E. rewrite <- E in E2. congruence.
  - rewrite F3, lookup_insert_eq. by eexists.
Qed.

(** The first deploy of a file into a directory that is not there yet. *)
Lemma deploy_creates_directory_witness :
  fs fresh !! ["C:"; "home"; "nushell"] = None ∧
  console (deployConfigFile rel ["C:"; "home"; "nushell"; "a.conf"] fresh)
    = console fresh ++ [Deployed rel ["C:"; "home"; "nushell"; "a.conf"]] ∧
  failures (deployConfigFile rel ["C:"; "home"; "nushell"; "a.conf"] fresh) = failures fresh ∧
  fs (deployConfigFile rel ["C:"; "home"; "nushell"; "a.conf"] fresh)
    !! Dir ["C:"; "home"; "nushell"; "a.conf"] = Some (NDir true) ∧
  ∃ ft, fs (deployConfigFile rel ["C:"; "home"; "nushell"; "a.conf"] fresh)
          !! ["C:"; "home"; "nushell"; "a.conf"] = Some (NFile ft) ∧
        content ft = content (File "X" noon true true).
Proof.
  split; [vm_compute; reflexivity |].
  apply (deploy_creates_directory rel ["C:"; "home"; "nushell"; "a.conf"] fresh
           (File "X" noon true true)).
  - intros t _. reflexivity.
  - vm_compute. reflexivity.
  - reflexivity.
  - vm_compute. reflexivity.
  - vm_compute. reflexivity.
  - vm_compute. reflexivity.
Defined.

(** X21. A directory at the target path: with no system call failing, a
    source that can be read and a free backup path in a directory that can
    be written, the call leaves an empty file at the backup path, leaves
    the directory alone and, after the backup message, records that the
    deploy failed. *)
Theorem deploy_over_directory (srcRel target : path) (w : World) (f : file) (b : bool) :
  fault_free w →
  fs w !! Join (scriptRoot w) srcRel = Some (NFile f) → readable f = true →
  fs w !! target = Some (NDir b) → fs w !! Dir target = Some (NDir true) →
  fs w !! backupPath target (clock (os w) (7 + tick w)) = None →
  (∃ m, console (deployConfigFile srcRel target w)
          = console w ++ [BackedUp target (clock (os w) (7 + tick w)); FAIL m] ∧
        failures (deployConfigFile srcRel target w) = failures w ++ [m]) ∧
  fs (deployConfigFile srcRel target w) !! target = Some (NDir b) ∧
  ∃ fb, fs (deployConfigFile srcRel target w)
          !! backupPath target (clock (os w) (7 + tick w)) = Some (NFile fb) ∧
        content fb = EmptyString.
Proof.
  intros Hff Hs Hr Ht Hd Hb.
  assert (Hne : Join (scriptRoot w) srcRel ≠ backupPath target (clock (os w) (7 + tick w)))
    by congruence.
  assert (Hf : ∀ n, io_fault (os w) (n + tick w) = false) by (intros n; apply Hff; lia).
  change (7 + tick w) with (S (S (S (S (S (S (S (tick w)))))))) in *.
  set (now := clock (os w) (S (S (S (S (S (S (S (tick w))))))))) in *.
  assert (Hbd : Dir (backupPath target now) = Dir target).
  { unfold backupPath. destruct target; [done | by apply Dir_add_suffix]. }
  unfold deployConfigFile.
  rewrite (os_Stat_found _ w (NFile f)) by (first [apply (Hf 0) | done]).
  cbn [IsNotExist].
  rewrite (os_MkdirAll_existing _ _ true) by (first [apply (Hf 1) | done]).
  cbn [is_nil negb].
  rewrite (os_Stat_found _ _ (NDir b)) by (first [apply (Hf 2) | done]).
  cbn [is_nil].
  rewrite (fileHash_ok _ _ f) by (first [apply (Hf 3) | apply (Hf 4) | done]).
  rewrite (fileHash_dir _ _ b) by (first [apply (Hf 5) | apply (Hf 6) | done]).
  cbn [is_nil andb]. unfold deploy_backup. rewrite time_Now_eq.
  cbn [os tick tock set_fs]. fold now.
  rewrite (copyFile_from_dir target (backupPath target now) _ b)
    by (first [apply (Hf 8) | apply (Hf 9) | apply (Hf 10) | by rewrite Hbd | done]).
  unfold deploy_copy.
  rewrite (copyFile_onto_dir _ _ _ f b);
    [| apply (Hf 11) | apply (Hf 12)
     | simpl; by rewrite lookup_insert_ne by (by apply not_eq_sym) | done
     | simpl; rewrite lookup_insert_ne; [done | apply backupPath_ne]].
  simpl. unfold BackedUp. fold now.
  split_and!; [eexists; split; [by rewrite <- app_assoc | done] | |].
  - rewrite lookup_insert_ne; [done | apply backupPath_ne].
  - rewrite lookup_insert_eq. by eexists.
Qed.

Lemma deploy_over_directory_witness :
  (∃ m, console (deployConfigFile rel tgt occupied)
          = console occupied ++ [BackedUp tgt (clock (os occupied) (7 + tick occupied)); FAIL m] ∧
        failures (deployConfigFile rel tgt occupied) = failures occupied ++ [m]) ∧
  fs (deployConfigFile rel tgt occupied) !! tgt = Some (NDir true) ∧
  ∃ fb, fs (deployConfigFile rel tgt occupied)
          !! backupPath tgt (clock (os occupied) (7 + tick occupied)) = Some (NFile fb) ∧
        content fb = EmptyString.
Proof.
  apply (deploy_over_directory rel tgt occupied (File "X" noon true true) true).
  - intros t _. reflexivity.
  - vm_compute. reflexivity.
  - reflexivity.
  - vm_compute. reflexivity.
  - vm_compute. reflexivity.
  - vm_compute. reflexivity.
Defined.

(** ** The time stamp of a backup *)

Lemma ten (d : nat) :
  d < 10 → d = 0 ∨ d = 1 ∨ d = 2 ∨ d = 3 ∨ d = 4 ∨ d = 5 ∨ d = 6 ∨ d = 7 ∨ d = 8 ∨ d = 9.
Proof. lia. Qed.

Lemma compare_digit_char (x y : nat) :
  x < 10 → y < 10 → Ascii.compare (digit_char x) (digit_char y) = (x ?= y).
Proof.
  intros Hx Hy. apply ten in Hx, Hy.
  repeat destruct Hx as [->|Hx]; subst; repeat destruct Hy as [->|Hy]; subst; done.
Qed.

Lemma lex_div (a b : nat) (c : comparison) :
  lex (a / 10 ?= b / 10) (lex (a mod 10 ?= b mod 10) c) = lex (a ?= b) c.
Proof.
  pose proof (Nat.div_mod_eq a 10). pose proof (Nat.div_mod_eq b 10).
  pose proof (Nat.mod_upper_bound a 10). pose proof (Nat.mod_upper_bound b 10).
  destruct (Nat.compare_spec (a / 10) (b / 10)) as [Hq|Hq|Hq]; cbn [lex].
  - destruct (Nat.compare_spec (a mod 10) (b mod 10)) as [Hr|Hr|Hr]; cbn [lex].
    + replace (a ?= b) with Eq; [done |]. symmetry. apply Nat.compare_eq_iff. lia.
    + replace (a ?= b) with Lt; [done |]. symmetry. apply Nat.compare_lt_iff. lia.
    + replace (a ?= b) with Gt; [done |]. symmetry. apply Nat.compare_gt_iff. lia.
  - replace (a ?= b) with Lt; [done |]. symmetry. apply Nat.compare_lt_iff. lia.
  - replace (a ?= b) with Gt; [done |]. symmetry. apply Nat.compare_gt_iff. lia.
Qed.

(** Numbers written on the same number of digits compare as their
    digits do. *)
Lemma compare_dec (width a b : nat) (s t : string) :
  a < 10 ^ width → b < 10 ^ width →
  String.compare (dec width a +:+ s) (dec width b +:+ t) = lex (a ?= b) (String.compare s t).
Proof.
  revert a b s t. induction width as [|k IH]; intros a b s t Ha Hb.
  - simpl in Ha, Hb. assert (a = 0) as -> by lia. assert (b = 0) as -> by lia. done.
  - cbn [dec]. rewrite !append_assoc, !append_single.
    rewrite IH.
    + cbn [String.compare].
      rewrite compare_digit_char by (apply Nat.mod_upper_bound; lia).
      rewrite <- (lex_div a b). by destruct (a mod 10 ?= b mod 10).
    + apply Nat.Div0.div_lt_upper_bound. rewrite Nat.pow_succ_r' in Ha. lia.
    + apply Nat.Div0.div_lt_upper_bound. rewrite Nat.pow_succ_r' in Hb. lia.
Qed.

Lemma length_dec width n : String.length (dec width n) = width.
Proof.
  revert n. induction width as [|k IH]; intros n; [done |].
  cbn [dec]. rewrite length_append, IH. simpl. lia.
Qed.

Lemma Format_compare (t1 t2 : Time) :
  valid_time t1 → valid_time t2 →
  String.compare (Format t1) (Format t2) = time_compare t1 t2.
Proof.
  intros (Y1 & M1 & D1 & H1 & I1 & S1) (Y2 & M2 & D2 & H2 & I2 & S2).
  unfold Format, time_compare.
  assert (E : 10 ^ 2 = 100) by done.
  rewrite compare_dec by lia. f_equal.
  rewrite compare_dec by lia. f_equal.
  rewrite compare_dec by lia. f_equal.
  rewrite !append_single. cbn [String.compare]. change (Ascii.compare "-" "-") with Eq.
  cbv beta iota.
  rewrite compare_dec by lia. f_equal.
  rewrite compare_dec by lia. f_equal.
  rewrite <- (append_nil_r (dec 2 (second t1))), <- (append_nil_r (dec 2 (second t2))).
  rewrite compare_dec by lia. by destruct (second t1 ?= second t2).
Qed.

Lemma time_compare_eq (t1 t2 : Time) : time_compare t1 t2 = Eq → t1 = t2.
Proof.
  unfold time_compare, lex. destruct t1, t2; simpl.
  repeat (match goal with
          | |- context [?a ?= ?b] =>
              destruct (Nat.compare_spec a b); try done
          end).
  intros _. by subst.
Qed.

Lemma append_inj_l (a s t : string) : a +:+ s = a +:+ t → s = t.
Proof. induction a as [|c a IH]; [done |]. rewrite !append_cons. intros [= H]. auto. Qed.

Lemma add_suffix_inj (p : path) (s t : string) : add_suffix p s = add_suffix p t → s = t.
Proof.
  induction p as [|x [|y p] IH].
  - by intros [= ->].
  - intros [= H]. by apply append_inj_l in H.
  - change (add_suffix (x :: y :: p) s) with (x :: add_suffix (y :: p) s).
    change (add_suffix (x :: y :: p) t) with (x :: add_suffix (y :: p) t).
    intros [= H]. auto.
Qed.

(** X22. The time stamp of a backup has 15 bytes and sorts as time
    does: for two times of the calendar with years of four digits at most,
    the stamps compare as strings the way the times compare; hence the
    backups of one target made at two different seconds have two different
    paths. *)
Theorem backup_stamp_sorts (target : path) (t1 t2 : Time) :
  valid_time t1 → valid_time t2 →
  String.length (Format t1) = 15 ∧
  String.compare (Format t1) (Format t2) = time_compare t1 t2 ∧
  (backupPath target t1 = backupPath target t2 → t1 = t2).
Proof.
  intros V1 V2. split_and!.
  - unfold Format. rewrite !length_append, !length_dec. done.
  - by apply Format_compare.
  - unfold backupPath. intros H. apply add_suffix_inj, append_inj_l in H.
    apply time_compare_eq. rewrite <- Format_compare, H by done.
    pose proof (String.compare_antisym (Format t2) (Format t2)) as A.
    by destruct (String.compare (Format t2) (Format t2)).
Qed.

Lemma backup_stamp_sorts_witness :
  Format Sample.noon = "20240309-120000" ∧ Format Sample.later = "20240309-140507" ∧
  String.length (Format Sample.noon) = 15 ∧
  String.compare (Format Sample.noon) (Format Sample.later)
    = time_compare Sample.noon Sample.later ∧
  (backupPath Sample.tgt Sample.noon = backupPath Sample.tgt Sample.later →
   Sample.noon = Sample.later).
Proof.
  split; [vm_compute; reflexivity |]. split; [vm_compute; reflexivity |].
  apply (backup_stamp_sorts Sample.tgt Sample.noon Sample.later);
    unfold valid_time; simpl; lia.
Defined.

(** ** The run as a whole *)

Lemma prints_same ls w :
  os (prints ls w) = os w ∧ tick (prints ls w) = tick w ∧ fs (prints ls w) = fs w ∧
  spawned (prints ls w) = spawned w ∧ PATH (prints ls w) = PATH w ∧
  scriptRoot (prints ls w) = scriptRoot w.
Proof.
  unfold prints. revert w. induction ls as [|l ls IH]; intros w; simpl; [done |].
  destruct (IH (print (Text l) w)) as (? & ? & ? & ? & ? & ?). done.
Qed.

(** X23. A run that exits with code 1 has done nothing: no process was
    spawned, the file system, the search path and the failure log are as
    they were, and no step of the pipeline has written its banner. *)
Theorem blocked_run_changes_nothing (w : World) :
  (main w).1 = 1 →
  fs (main w).2 = fs w ∧ spawned (main w).2 = spawned w ∧
  PATH (main w).2 = PATH w ∧ failures (main w).2 = failures w ∧
  ∃ out, console (main w).2 = console w ++ out ∧
         ∀ b, b ∈ banners → Step b ∉ out.
Proof.
  assert (Hno : ∀ b out, b ∈ banners → Step b ∈ out →
            Forall (λ l, match l with
                         | Step m => m = "Running preflight checks"
                         | _ => True
                         end) out → False).
  { intros b out Hb Hin Hall. rewrite Forall_forall in Hall.
    specialize (Hall _ Hin). simpl in Hall. subst b. unfold banners in Hb.
    repeat (apply elem_of_cons in Hb as [Hb|Hb]; [discriminate |]).
    by apply elem_of_nil in Hb. }
  unfold main. destruct (preflight w) as [[code|] w1] eqn:E; [| done].
  cbn [fst snd]. intros ->. revert E. unfold preflight.
  destruct (executable (os w)) as [exe|err].
  - unfold commandExists, writeStep, writeSuccess. cbn [fst snd].
    destruct (look_path _ _ _ "winget"); cbn [negb].
    + destruct (http_get _ _); cbn [negb]; [done |].
      intros [= <-]. simpl. split_and!; try done.
      eexists. rewrite <- !app_assoc. split; [done |].
      intros b Hb Hin. apply (Hno b _ Hb Hin). by repeat constructor.
    + intros [= <-]. simpl. split_and!; try done.
      eexists. rewrite <- !app_assoc. split; [done |].
      intros b Hb Hin. apply (Hno b _ Hb Hin). by repeat constructor.
  - intros [= <-]. simpl. split_and!; try done. eexists. split; [done |].
    intros b Hb Hin. apply (Hno b _ Hb Hin). by repeat constructor.
Qed.

Lemma blocked_run_changes_nothing_witness :
  (main homeless).1 = 1 ∧
  fs (main homeless).2 = fs homeless ∧ spawned (main homeless).2 = spawned homeless ∧
  PATH (main homeless).2 = PATH homeless ∧ failures (main homeless).2 = failures homeless ∧
  ∃ out, console (main homeless).2 = console homeless ++ out ∧
         ∀ b, b ∈ banners → Step b ∉ out.
Proof.
  split; [vm_compute; reflexivity |].
  apply (blocked_run_changes_nothing homeless). vm_compute. reflexivity.
Defined.

Lemma preflight_failures w : failures (preflight w).2 = failures w.
Proof.
  unfold preflight. destruct (executable (os w)) as [exe|err]; [| done].
  unfold commandExists, writeStep, writeSuccess. cbn [fst snd].
  destruct (look_path _ _ _ "winget"); cbn [negb]; [| done].
  by destruct (http_get _ _).
Qed.

(** What lines 492-514 write. *)
Lemma summary_console w :
  failures (summary w) = failures w ∧
  console (summary w)
    = console w ++ [Text ""] ++
      (Text <$> match failures w with
                | [] => [rule; "  All done! No failures."; rule]
                | _ => [rule;
                        "  Completed with "
                          +:+ dec_nat (S (length (failures w))) (length (failures w))
                          +:+ " failure(s):";
                        rule]
                       ++ ((λ m, "  - " +:+ m) <$> failures w) ++ [""]
                end) ++
      (Text <$> next_steps).
Proof.
  unfold summary. fold next_steps.
  set (w0 := print (Text "") w).
  assert (F0 : failures w0 = failures w) by done.
  assert (C0 : console w0 = console w ++ [Text ""]) by done.
  clearbody w0. rewrite <- F0.
  destruct (failures w0) as [|m fl] eqn:E.
  - change (0 <? length []) with false. cbv iota.
    rewrite !prints_failures, !prints_console, C0, E, <- !app_assoc. done.
  - change (0 <? length (m :: fl)) with true. cbv iota.
    rewrite prints_failures, prints_console.
    cbn [print failures console].
    rewrite !prints_failures, !prints_console, C0, E, <- !app_assoc.
    split; [done |]. do 2 f_equal.
    rewrite !fmap_app, <- !app_assoc. done.
Qed.

(** X24. A run that passes the preflight ends with the summary of what
    it wrote before: after the lines of the sixteen steps, ["All done"]
    when no [FAIL] line was written, and otherwise the number of [FAIL]
    lines and their messages, one each, in the order in which they were
    written; then the next steps. *)
Theorem run_ends_with_summary (w : World) :
  (preflight w).1 = None → failures w = [] →
  ∃ out,
    steps_of out = banners ∧ failures (main w).2 = fails_of out ∧
    console (main w).2
      = console (preflight w).2 ++ out ++ [Text ""] ++
        (Text <$> match fails_of out with
                  | [] => [rule; "  All done! No failures."; rule]
                  | _ => [rule;
                          "  Completed with "
                            +:+ dec_nat (S (length (fails_of out))) (length (fails_of out))
                            +:+ " failure(s):";
                          rule]
                         ++ ((λ m, "  - " +:+ m) <$> fails_of out) ++ [""]
                  end) ++
        (Text <$> next_steps).
Proof.
  intros Hp Hf. pose proof (preflight_failures w) as F1. rewrite Hf in F1.
  unfold main. destruct (preflight w) as [e w1]. cbn [fst snd] in *. subst e.
  destruct (Inv_pipeline w1 w1 (Inv_start w1)) as (out & C & F & S).
  rewrite F1, app_nil_l in F.
  destruct (summary_console (run_steps pipeline w1)) as [F' C'].
  exists out. cbn [snd]. rewrite F', C', F, C, <- !app_assoc. done.
Qed.

(** In [hostile] every step fails and the summary lists the eighteen
    failures. *)
Lemma run_ends_with_summary_witness :
  ∃ out,
    length (fails_of out) = 18 ∧
    steps_of out = banners ∧ failures (main hostile).2 = fails_of out ∧
    console (main hostile).2
      = console (preflight hostile).2 ++ out ++ [Text ""] ++
        (Text <$> match fails_of out with
                  | [] => [rule; "  All done! No failures."; rule]
                  | _ => [rule;
                          "  Completed with "
                            +:+ dec_nat (S (length (fails_of out))) (length (fails_of out))
                            +:+ " failure(s):";
                          rule]
                         ++ ((λ m, "  - " +:+ m) <$> fails_of out) ++ [""]
                  end) ++
        (Text <$> next_steps).
Proof.
  destruct (run_ends_with_summary hostile) as (out & S & F & C);
    [vm_compute; reflexivity | reflexivity |].
  exists out. split_and!; [| exact S | exact F | exact C].
  rewrite <- F. vm_compute. reflexivity.
Defined.

Lemma deploy_report_status (srcRel target : path) (w : World) :
  ∃ pre l,
    console (deployConfigFile srcRel target w) = console w ++ pre ++ [l] ∧
    (pre = [] ∨ ∃ t, pre = [BackedUp target t]) ∧
    deploy_status srcRel target l ∧
    failures (deployConfigFile srcRel target w) = failures w ++ fails_of [l].
Proof.
  destruct (deploy_report srcRel target w)
    as (pre & l & C & Hpre & [[[->| ->] F]|(m & -> & F)]);
    exists pre; eexists; (split_and!; [exact C | exact Hpre | |]);
    unfold deploy_status; simpl; rewrite ?app_nil_r; eauto.
Qed.

(** X25. The four configuration files are deployed one after the other
    and each gets a status line of its own, whatever became of the ones
    before it: after the banner come, for each file in the order of the
    source, at most a backup message and then [Deployed], up to date or a
    failure; the failure log grows by the failures among the four. *)
Theorem deploy_configs_reports_each (w : World) :
  let home := env_dir (os w) "USERPROFILE" in
  let appData := env_dir (os w) "APPDATA" in
  ∃ p1 l1 p2 l2 p3 l3 p4 l4,
    console (deploy_configs w)
      = console w ++ [Step "Deploying configuration files"]
        ++ (p1 ++ [l1]) ++ (p2 ++ [l2]) ++ (p3 ++ [l3]) ++ (p4 ++ [l4]) ∧
    Forall (λ p, p = [] ∨ ∃ m, p = [Text m]) [p1; p2; p3; p4] ∧
    deploy_status ["configs"; "wezterm"; ".wezterm.lua"] (Join home [".wezterm.lua"]) l1 ∧
    deploy_status ["configs"; "nushell"; "config.nu"] (Join appData ["nushell"; "config.nu"]) l2 ∧
    deploy_status ["configs"; "nushell"; "env.nu"] (Join appData ["nushell"; "env.nu"]) l3 ∧
    deploy_status ["configs"; "starship"; "starship.toml"]
      (Join home [".config"; "starship.toml"]) l4 ∧
    failures (deploy_configs w) = failures w ++ fails_of [l1; l2; l3; l4].
Proof.
  intros home appData. unfold deploy_configs. fold home appData.
  set (w0 := writeStep "Deploying configuration files" w).
  change (env_dir (os w0) "USERPROFILE") with home.
  change (env_dir (os w0) "APPDATA") with appData.
  destruct (deploy_report_status ["configs"; "wezterm"; ".wezterm.lua"]
              (Join home [".wezterm.lua"]) w0) as (p1 & l1 & C1 & H1 & S1 & F1).
  set (w1 := deployConfigFile _ _ w0) in *.
  destruct (deploy_report_status ["configs"; "nushell"; "config.nu"]
              (Join appData ["nushell"; "config.nu"]) w1) as (p2 & l2 & C2 & H2 & S2 & F2).
  set (w2 := deployConfigFile _ _ w1) in *.
  destruct (deploy_report_status ["configs"; "nushell"; "env.nu"]
              (Join appData ["nushell"; "env.nu"]) w2) as (p3 & l3 & C3 & H3 & S3 & F3).
  set (w3 := deployConfigFile _ _ w2) in *.
  destruct (deploy_report_status ["configs"; "starship"; "starship.toml"]
              (Join home [".config"; "starship.toml"]) w3) as (p4 & l4 & C4 & H4 & S4 & F4).
  exists p1, l1, p2, l2, p3, l3, p4, l4.
  split_and!; try done.
  - rewrite C4, C3, C2, C1. subst w0. simpl. by rewrite <- !app_assoc.
  - assert (Hp : ∀ t p, p = [] ∨ (∃ tm, p = [BackedUp t tm]) → p = [] ∨ ∃ m, p = [Text m]).
    { intros t p [->|[tm ->]]; [by left | right; unfold BackedUp; eauto]. }
    repeat (apply Forall_cons; split; [eapply Hp; eauto |]). apply Forall_nil_2.
  - change [l1; l2; l3; l4] with ([l1] ++ [l2] ++ [l3] ++ [l4]).
    rewrite !fails_of_app, F4, F3, F2, F1, <- !app_assoc. done.
Qed.

(** ** Steps 1 and 8, and the Git defaults *)

(** X26. A tool that is found is not installed again: when [scoop] is on
    the search path, step 1 spawns nothing; when [node] is, step 8 only
    asks it for its version.  When neither [node] nor [volta] is found,
    step 8 spawns nothing and records a failure. *)
Theorem found_tools_are_kept (w : World) :
  (look_path (os w) (tick w) (PATH w) "scoop" = true →
   console (step_scoop w)
     = console w ++ [Step "Step 1/13: Scoop (package manager)";
                     SKIP "Scoop already installed"] ∧
   spawned (step_scoop w) = spawned w ∧ failures (step_scoop w) = failures w) ∧
  (look_path (os w) (tick w) (PATH w) "node" = true →
   (∃ v, console (step_node w)
           = console w ++ [Step "Step 8/13: Node.js LTS (via Volta)";
                           SKIP ("Node.js already installed (" +:+ v +:+ ")")]) ∧
   spawned (step_node w) = spawned w ++ [["node"; "--version"]] ∧
   failures (step_node w) = failures w) ∧
  (look_path (os w) (tick w) (PATH w) "node" = false →
   look_path (os w) (S (tick w)) (PATH w) "volta" = false →
   spawned (step_node w) = spawned w ∧
   failures (step_node w) = failures w ++ ["Volta not found - cannot install Node.js"]).
Proof.
  split_and!.
  - intros H. unfold step_scoop, commandExists. cbn [fst snd os tick PATH writeStep print].
    rewrite H. simpl. by rewrite <- app_assoc.
  - intros H. unfold step_node, commandExists. cbn [fst snd os tick PATH writeStep print].
    rewrite H. unfold runCmd, spawn. simpl. split_and!; [| done | done].
    eexists. by rewrite <- app_assoc.
  - intros H1 H2. unfold step_node, commandExists.
    cbn [fst snd os tick PATH writeStep print tock]. rewrite H1.
    cbn [fst snd os tick PATH writeStep print tock]. by rewrite H2.
Qed.

Lemma found_tools_are_kept_witness :
  (console (step_scoop fresh)
     = console fresh ++ [Step "Step 1/13: Scoop (package manager)";
                         SKIP "Scoop already installed"] ∧
   spawned (step_scoop fresh) = spawned fresh ∧ failures (step_scoop fresh) = failures fresh) ∧
  ((∃ v, console (step_node fresh)
           = console fresh ++ [Step "Step 8/13: Node.js LTS (via Volta)";
                               SKIP ("Node.js already installed (" +:+ v +:+ ")")]) ∧
   spawned (step_node fresh) = spawned fresh ++ [["node"; "--version"]] ∧
   failures (step_node fresh) = failures fresh) ∧
  (spawned (step_node hostile) = spawned hostile ∧
   failures (step_node hostile)
     = failures hostile ++ ["Volta not found - cannot install Node.js"]).
Proof.
  destruct (found_tools_are_kept fresh) as (H1 & H2 & _).
  destruct (found_tools_are_kept hostile) as (_ & _ & H3).
  split; [apply H1 | split; [apply H2 | apply H3]]; reflexivity.
Defined.

(** The line [setGitConfigIfMissing] writes is never a failure. *)
Lemma setGitConfigIfMissing_report (key value : string) (w : World) :
  ∃ l, console (setGitConfigIfMissing key value w) = console w ++ [l] ∧
       (∃ m, l = SKIP m ∨ l = OK m) ∧
       failures (setGitConfigIfMissing key value w) = failures w.
Proof.
  unfold setGitConfigIfMissing.
  destruct (runCmd "git" _ w) as [[current e] w1] eqn:E.
  unfold runCmd, spawn in E. injection E as _ _ <-.
  destruct (negb (current =? "")%string).
  - eexists. split_and!; [done | eauto | done].
  - eexists. split_and!; [done | eauto | done].
Qed.

(** X27. The Git defaults never fail when [git] is found: each of the
    six settings gets one line, already set or set, whatever the commands
    return, and the failure log is as it was.  Without [git] the step
    spawns nothing and records one failure. *)
Theorem git_defaults_report (w : World) :
  if look_path (os w) (tick w) (PATH w) "git"
  then ∃ ls, length ls = 6 ∧ Forall (λ l, ∃ m, l = SKIP m ∨ l = OK m) ls ∧
             console (git_defaults w)
               = console w ++ Step "Configuring Git defaults" :: ls ∧
             failures (git_defaults w) = failures w
  else console (git_defaults w)
         = console w ++ [Step "Configuring Git defaults";
                         FAIL "Git not found - skipping git config"] ∧
       failures (git_defaults w) = failures w ++ ["Git not found - skipping git config"] ∧
       spawned (git_defaults w) = spawned w.
Proof.
  unfold git_defaults, commandExists. cbn [fst snd os tick PATH writeStep print].
  destruct (look_path (os w) (tick w) (PATH w) "git").
  - set (w0 := tock _).
    destruct (setGitConfigIfMissing_report "core.editor" "nvim" w0) as (l1 & C1 & S1 & F1).
    set (w1 := setGitConfigIfMissing _ _ w0) in *.
    destruct (setGitConfigIfMissing_report "core.autocrlf" "true" w1) as (l2 & C2 & S2 & F2).
    set (w2 := setGitConfigIfMissing _ _ w1) in *.
    destruct (setGitConfigIfMissing_report "init.defaultBranch" "main" w2) as (l3 & C3 & S3 & F3).
    set (w3 := setGitConfigIfMissing _ _ w2) in *.
    destruct (setGitConfigIfMissing_report "pull.rebase" "true" w3) as (l4 & C4 & S4 & F4).
    set (w4 := setGitConfigIfMissing _ _ w3) in *.
    destruct (setGitConfigIfMissing_report "diff.colorMoved" "default" w4) as (l5 & C5 & S5 & F5).
    set (w5 := setGitConfigIfMissing _ _ w4) in *.
    destruct (setGitConfigIfMissing_report "merge.conflictstyle" "diff3" w5)
      as (l6 & C6 & S6 & F6).
    exists [l1; l2; l3; l4; l5; l6]. split_and!; [done | | |].
    + repeat (apply Forall_cons; split; [done |]). apply Forall_nil_2.
    + rewrite C6, C5, C4, C3, C2, C1. subst w0. simpl. by rewrite <- !app_assoc.
    + by rewrite F6, F5, F4, F3, F2, F1.
  - simpl. by rewrite <- app_assoc.
Qed.

(** ** Step 13 *)

Lemma follows_refl w : follows w w.
Proof. split_and!; [done | done |]. exists []. by rewrite app_nil_r. Qed.

Lemma follows_quiet w0 w w' : quiet w w' → follows w0 w → follows w0 w'.
Proof.
  intros (O & _ & C & _ & _ & _ & T) (O0 & T0 & out & C0).
  split_and!; [congruence | lia |]. exists out. congruence.
Qed.

Lemma follows_print w0 l w : follows w0 w → follows w0 (print l w).
Proof.
  intros (O0 & T0 & out & C0). split_and!; [done | done |].
  exists (out ++ [l]). simpl. by rewrite C0, app_assoc.
Qed.

Lemma follows_writeFail w0 m w : follows w0 w → follows w0 (writeFail m w).
Proof. intros H. by apply (follows_print _ (FAIL m)) in H. Qed.

Lemma follows_spawn w0 c w : follows w0 w → follows w0 (spawn c w).2.
Proof. intros (O0 & T0 & out & C0). split_and!; simpl; [done | lia | by exists out]. Qed.

Lemma follows_commandExists w0 n w : follows w0 w → follows w0 (commandExists n w).2.
Proof. apply follows_quiet, quiet_tock. Qed.

Lemma follows_os_Stat w0 p w : follows w0 w → follows w0 (os_Stat p w).2.
Proof. apply follows_quiet, os_Stat_quiet. Qed.

Lemma follows_time_Now w0 w : follows w0 w → follows w0 (time_Now w).2.
Proof. apply follows_quiet, time_Now_quiet. Qed.

Lemma follows_os_Rename w0 a b w : follows w0 w → follows w0 (os_Rename a b w).2.
Proof.
  intros (O0 & T0 & out & C0). unfold os_Rename.
  repeat case_match; (split_and!; simpl; [done | lia | by exists out]).
Qed.

Lemma reported_last w w' l :
  (∃ out, console w' = console w ++ out) → reported w (print l w') = Some l.
Proof.
  intros [out C]. unfold reported. simpl. rewrite C, <- app_assoc, drop_app_length.
  apply last_snoc.
Qed.

Lemma reported_writeFail w w' m :
  (∃ out, console w' = console w ++ out) → reported w (writeFail m w') = Some (FAIL m).
Proof. intros H. by apply (reported_last _ _ (FAIL m)) in H. Qed.

(** X28. LazyVim in place is left alone: when the marker file of its
    configuration is found, step 13 writes that it is configured, spawns
    nothing and changes nothing in the file system. *)
Theorem lazyvim_left_alone (w : World) (n : node) :
  faulty w = false →
  fs w !! Join (Join (env_dir (os w) "LOCALAPPDATA") ["nvim"]) ["lua"; "config"; "lazy.lua"]
    = Some n →
  console (step_lazyvim w)
    = console w ++ [Step "Step 13/13: LazyVim (Neovim distribution)";
                    SKIP "LazyVim already configured"] ∧
  fs (step_lazyvim w) = fs w ∧ spawned (step_lazyvim w) = spawned w ∧
  failures (step_lazyvim w) = failures w.
Proof.
  intros Hf Hm. unfold step_lazyvim.
  rewrite (os_Stat_found _ (writeStep _ w) n Hf Hm). simpl.
  by rewrite <- app_assoc.
Qed.

Lemma lazyvim_left_alone_witness :
  console (step_lazyvim configured)
    = console configured ++ [Step "Step 13/13: LazyVim (Neovim distribution)";
                             SKIP "LazyVim already configured"] ∧
  fs (step_lazyvim configured) = fs configured ∧
  spawned (step_lazyvim configured) = spawned configured ∧
  failures (step_lazyvim configured) = failures configured.
Proof.
  apply (lazyvim_left_alone configured (plain "return {}")); vm_compute; reflexivity.
Defined.

(** X29. After a clone that step 13 reports, and with no system call
    failing, nothing is left of the [.git] directory of the starter. *)
Theorem lazyvim_git_dir_removed (w : World) (k : path) :
  fault_free w →
  reported w (step_lazyvim w)
    = Some (OK ("LazyVim starter cloned to "
                +:+ show_path (Join (env_dir (os w) "LOCALAPPDATA") ["nvim"]))) →
  Join (Join (env_dir (os w) "LOCALAPPDATA") ["nvim"]) [".git"] `prefix_of` k →
  fs (step_lazyvim w) !! k = None.
Proof.
  intros Hff Hrep Hk. revert Hrep. unfold step_lazyvim, writeSkip.
  set (w0 := writeStep _ w).
  assert (F0 : follows w w0) by apply follows_print, follows_refl.
  change (env_dir (os w0)) with (env_dir (os w)).
  set (dir := Join (env_dir (os w) "LOCALAPPDATA") ["nvim"]) in *.
  pose proof (follows_os_Stat w (Join dir ["lua"; "config"; "lazy.lua"]) w0 F0) as F1.
  destruct (os_Stat _ w0) as [e1 w1]. cbn [snd] in F1.
  destruct (is_nil e1).
  { rewrite (reported_last w w1 (SKIP _)) by apply F1. done. }
  pose proof (follows_commandExists w "git" w1 F1) as F2.
  destruct (commandExists "git" w1) as [[|] w2]; cbn [snd] in F2;
    [| rewrite reported_writeFail by apply F2; done].
  pose proof (follows_os_Stat w dir w2 F2) as F3.
  destruct (os_Stat dir w2) as [e3 w3]. cbn [snd] in F3.
  set (w4 := if is_nil e3 then _ else w3).
  assert (F4 : follows w w4).
  { subst w4. destruct (is_nil e3); [| done].
    pose proof (follows_time_Now w w3 F3) as F.
    destruct (time_Now w3) as [now w3']. cbn [snd] in F.
    by apply follows_os_Rename, follows_print. }
  clearbody w4.
  pose proof (follows_spawn w ["git"; "clone"; "https://github.com/LazyVim/starter"; show_path dir]
                (print (Text "Cloning LazyVim starter...") w4)
                (follows_print _ _ _ F4)) as F6.
  unfold runCmdPassthrough.
  destruct (spawn _ (print (Text "Cloning LazyVim starter...") w4)) as [r w6].
  cbn [snd] in F6. destruct (failed (proc_err r));
    [rewrite reported_writeFail by apply F6; done |].
  intros _. unfold os_RemoveAll.
  destruct F6 as (O6 & T6 & _).
  assert (Hf6 : faulty w6 = false) by (unfold faulty; rewrite O6; apply Hff; lia).
  rewrite Hf6. simpl. apply map_lookup_filter_None. right. intros n _ Hn.
  by apply Hn.
Qed.

(** In [bare] the clone brings a [.git] directory, which is removed. *)
Lemma lazyvim_git_dir_removed_witness :
  fs (step_lazyvim bare) !! marker = Some (plain "return {}") ∧
  fs (step_lazyvim bare) !! (nvim ++ [".git"; "config"]) = None.
Proof.
  split; [vm_compute; reflexivity |].
  apply (lazyvim_git_dir_removed bare (nvim ++ [".git"; "config"])).
  - intros t _. reflexivity.
  - vm_compute. reflexivity.
  - by exists ["config"].
Defined.

(** ** Moving a directory *)

Lemma rebase_under (old new rest : path) : rebase old new (old ++ rest) = new ++ rest.
Proof.
  unfold rebase. rewrite bool_decide_eq_true_2 by (by exists rest).
  by rewrite drop_app_length.
Qed.

Lemma rebase_other (old new k : path) : ¬ old `prefix_of` k → rebase old new k = k.
Proof. intros H. unfold rebase. by rewrite bool_decide_eq_false_2. Qed.

Lemma rebase_cases (old new k : path) :
  (∃ rest, k = old ++ rest ∧ rebase old new k = new ++ rest) ∨
  (¬ old `prefix_of` k ∧ rebase old new k = k).
Proof.
  destruct (decide (old `prefix_of` k)) as [[rest ->]|Hn].
  - left. exists rest. by rewrite rebase_under.
  - right. by rewrite rebase_other.
Qed.

(** Moving a tree onto a free name confuses no two paths. *)
Lemma rebase_inj (old new : path) (m : fsys) (k1 k2 : path) :
  (∀ k, new `prefix_of` k → m !! k = None) →
  is_Some (m !! k1) → is_Some (m !! k2) →
  rebase old new k1 = rebase old new k2 → k1 = k2.
Proof.
  intros Hfree H1 H2.
  destruct (rebase_cases old new k1) as [(r1 & -> & ->)|(N1 & ->)],
           (rebase_cases old new k2) as [(r2 & -> & ->)|(N2 & ->)].
  - intros E. by apply app_inv_head in E as ->.
  - intros E. rewrite Hfree in H2 by (by exists r1). by destruct H2.
  - intros E. rewrite Hfree in H1 by (by exists r2). by destruct H1.
  - done.
Qed.

Lemma move_tree_lookup (old new : path) (m : fsys) (k' : path) (v : node) :
  (∀ k, new `prefix_of` k → m !! k = None) →
  move_tree old new m !! k' = Some v ↔ ∃ k, m !! k = Some v ∧ rebase old new k = k'.
Proof.
  intros Hfree. unfold move_tree. rewrite map_fold_foldr.
  assert (E : ∀ l : list (path * node),
            foldr (uncurry (λ k v (acc : fsys), <[rebase old new k := v]> acc)) ∅ l
            = list_to_map (prod_map (rebase old new) id <$> l)).
  { induction l as [|[k v0] l IH]; [done |]. simpl. by rewrite IH. }
  rewrite E. clear E.
  rewrite <- elem_of_list_to_map.
  - rewrite list_elem_of_fmap. split.
    + intros ([k v0] & [= -> ->] & Hin). apply elem_of_map_to_list in Hin. eauto.
    + intros (k & Hk & <-). exists (k, v). split; [done |]. by apply elem_of_map_to_list.
  - rewrite <- list_fmap_compose.
    change (fst ∘ prod_map (rebase old new) id) with (rebase old new ∘ (fst : path * node → path)).
    rewrite list_fmap_compose. apply NoDup_fmap_2_strong; [| apply NoDup_fst_map_to_list].
    intros k1 k2 H1 H2. apply (rebase_inj old new m); [done | |].
    + apply list_elem_of_fmap in H1 as ([k v1] & -> & H1).
      apply elem_of_map_to_list in H1. by exists v1.
    + apply list_elem_of_fmap in H2 as ([k v2] & -> & H2).
      apply elem_of_map_to_list in H2. by exists v2.
Qed.

(** What was under the old name is under the new one, and nothing is
    left under the old one. *)
Lemma move_tree_moved (old new rest : path) (m : fsys) :
  (∀ k, new `prefix_of` k → m !! k = None) →
  length new = length old → new ≠ old →
  move_tree old new m !! (new ++ rest) = m !! (old ++ rest) ∧
  move_tree old new m !! (old ++ rest) = None.
Proof.
  intros Hfree Hlen Hne. split.
  - apply option_eq. intros v. rewrite move_tree_lookup by done. split.
    + intros (k & Hk & E).
      destruct (rebase_cases old new k) as [(r & -> & Er)|(N & Er)]; rewrite Er in E.
      * by apply app_inv_head in E as ->.
      * subst k. rewrite Hfree in Hk by (by exists rest). done.
    + intros H. exists (old ++ rest). by rewrite rebase_under.
  - apply eq_None_not_Some. intros [v H]. apply move_tree_lookup in H as (k & Hk & E); [| done].
    destruct (rebase_cases old new k) as [(r & -> & Er)|(N & Er)]; rewrite Er in E.
    + apply (f_equal (take (length old))) in E.
      rewrite <- Hlen in E at 1. rewrite !take_app_length in E. done.
    + subst k. apply N. by exists rest.
Qed.

Lemma length_backupPath (p : path) (t : Time) :
  p ≠ [] → length (backupPath p t) = length p.
Proof.
  intros H. unfold backupPath. rewrite length_add_suffix.
  destruct p; [done | simpl; lia].
Qed.

(** X30. A clone that fails leaves the old configuration of Neovim
    under its backup name and nothing where it was: step 13 moves the
    directory before it clones and does not move it back.  The failure is
    one entry of the failure log. *)
Theorem lazyvim_failed_clone (w : World) (n : node) (e : string) (rest : path) :
  let dir := Join (env_dir (os w) "LOCALAPPDATA") ["nvim"] in
  let backup := backupPath dir (clock (os w) (3 + tick w)) in
  fault_free w →
  fs w !! Join dir ["lua"; "config"; "lazy.lua"] = None →
  look_path (os w) (1 + tick w) (PATH w) "git" = true →
  fs w !! dir = Some n →
  (∀ k, backup `prefix_of` k → fs w !! k = None) →
  (∀ m, let r := run (os w) (5 + tick w)
                   ["git"; "clone"; "https://github.com/LazyVim/starter"; show_path dir] m in
        proc_err r = Some e ∧ fs_after r = m) →
  failures (step_lazyvim w) = failures w ++ ["Failed to clone LazyVim starter"] ∧
  fs (step_lazyvim w) !! (backup ++ rest) = fs w !! (dir ++ rest) ∧
  fs (step_lazyvim w) !! (dir ++ rest) = None.
Proof.
  intros dir backup Hff Hmarker Hgit Hdir Hfree Hclone.
  assert (Hf : ∀ w', os w' = os w → tick w ≤ tick w' → faulty w' = false).
  { intros w' O T. unfold faulty. rewrite O. apply Hff. lia. }
  assert (Hbk : fs w !! backup = None) by (by apply Hfree).
  change (1 + tick w) with (S (tick w)) in Hgit.
  change (5 + tick w) with (S (S (S (S (S (tick w)))))) in Hclone.
  change (3 + tick w) with (S (S (S (tick w)))) in (value of backup).
  unfold step_lazyvim.
  set (w0 := writeStep _ w).
  change (env_dir (os w0)) with (env_dir (os w)). fold dir.
  rewrite (os_Stat_missing _ w0) by (first [by apply Hf | done]).
  cbn [is_nil]. unfold commandExists. cbn [fst snd os tick PATH tock w0 writeStep print].
  rewrite Hgit.
  rewrite (os_Stat_found dir _ n) by (first [apply Hf; [done | simpl; lia] | done]).
  cbn [is_nil]. rewrite time_Now_eq. cbn [os tick tock print]. fold backup.
  unfold os_Rename. rewrite Hf by (first [done | simpl; lia]).
  subst w0. cbn [fs os tick tock print writeStep]. fold backup.
  rewrite Hdir, Hbk.
  match goal with
  | |- context [match n with NFile _ => ?x | NDir _ => _ end] =>
      replace (match n with NFile _ | _ => x end) with x by (by destruct n)
  end.
  cbn [snd]. unfold runCmdPassthrough, spawn.
  cbn [os tick fs set_fs tock print console writeStep].
  destruct (Hclone (move_tree dir backup (fs w))) as [He Hm].
  rewrite He, Hm. simpl.
  split; [done |].
  apply move_tree_moved; [done | | apply backupPath_ne].
  apply length_backupPath. unfold dir, Join. by destruct (env_dir _ _).
Qed.

(** In [own_config] the clone fails: [init.lua] is under the backup name
    and nothing is left under [nvim]. *)
Lemma lazyvim_failed_clone_witness :
  fs own_config !! (nvim ++ ["init.lua"]) = Some (plain "-- mine") ∧
  failures (step_lazyvim own_config)
    = failures own_config ++ ["Failed to clone LazyVim starter"] ∧
  fs (step_lazyvim own_config) !! (backupPath nvim later ++ ["init.lua"])
    = fs own_config !! (nvim ++ ["init.lua"]) ∧
  fs (step_lazyvim own_config) !! (nvim ++ ["init.lua"]) = None.
Proof.
  split; [vm_compute; reflexivity |].
  apply (lazyvim_failed_clone own_config (NDir true) "exit status 1" ["init.lua"]).
  - intros t _. reflexivity.
  - vm_compute. reflexivity.
  - reflexivity.
  - vm_compute. reflexivity.
  - intros k [r ->]. unfold own_config, boot, disk, fs.
    (rewrite !lookup_insert_ne; [apply lookup_empty | | | | | |];
      intros E; vm_compute in E; discriminate).
  - intros m. split; reflexivity.
Defined.

(** ** The run, step by step *)

Lemma Rep_print w0 bs l w : is_report l = true → Inv w0 bs w → Rep w0 (print l w).
Proof.
  intros Hl (out & C & _). exists (out ++ [l]). simpl.
  rewrite C, <- app_assoc, existsb_app. simpl. rewrite Hl.
  split; [done |]. by rewrite orb_true_r.
Qed.

Lemma Rep_writeSkip w0 bs m w : Inv w0 bs w → Rep w0 (writeSkip m w).
Proof. by apply Rep_print. Qed.

Lemma Rep_writeSuccess w0 bs m w : Inv w0 bs w → Rep w0 (writeSuccess m w).
Proof. by apply Rep_print. Qed.

Lemma Rep_writeFail w0 bs m w : Inv w0 bs w → Rep w0 (writeFail m w).
Proof. intros H. by apply (Rep_print w0 bs (FAIL m)) in H. Qed.

(** A report stays on the terminal. *)
Lemma Rep_ext w0 w bs w' : Rep w0 w → Inv w bs w' → Rep w0 w'.
Proof.
  intros (out & C & R) (out' & C' & _). exists (out ++ out').
  rewrite C', C, <- app_assoc, existsb_app, R. done.
Qed.

Ltac rep_leaf :=
  solve [ first [eapply Rep_writeSkip | eapply Rep_writeFail | eapply Rep_writeSuccess];
          eauto 30 with inv ].

Ltac rep_go :=
  repeat first
    [ rep_leaf
    | match goal with
      | |- context [match ?c with _ => _ end] =>
          lazymatch type of c with
          | (_ * World)%type => inv_call c
          | _ => destruct c
          end
      | |- context [if ?b then _ else _] => destruct b
      end ].

Lemma Rep_installWingetPackage w0 bs id nm w :
  Inv w0 bs w → Rep w0 (installWingetPackage id nm w).
Proof. intros H. unfold installWingetPackage. rep_go. Qed.

Lemma Rep_installScoopPackage w0 bs pkg bucket w :
  Inv w0 bs w → Rep w0 (installScoopPackage pkg bucket w).
Proof. intros H. unfold installScoopPackage. rep_go. Qed.

Lemma Rep_setGitConfigIfMissing w0 bs k v w :
  Inv w0 bs w → Rep w0 (setGitConfigIfMissing k v w).
Proof. intros H. unfold setGitConfigIfMissing. rep_go. Qed.

Lemma Rep_deployConfigFile w0 bs r t w :
  Inv w0 bs w → Rep w0 (deployConfigFile r t w).
Proof.
  intros (out & C & _).
  destruct (deploy_report r t w) as (pre & l & Cl & _ & Hl).
  exists (out ++ pre ++ [l]). rewrite Cl, C, <- app_assoc. split; [done |].
  assert (Hrep : is_report l = true).
  { destruct Hl as [[[-> | ->] _]|(m & -> & _)]; done. }
  rewrite !existsb_app. simpl. rewrite Hrep. by rewrite !orb_true_r.
Qed.

(** What a step writes: its banner first, no other banner, a report, and
    the failures it adds to the log. *)
Lemma step_shape w w' b w'' :
  w' = writeStep b w → Inv w' [] w'' → Rep w' w'' →
  ∃ body, console w'' = console w ++ Step b :: body ∧ steps_of body = [] ∧
          existsb is_report body = true ∧
          failures w'' = failures w ++ fails_of body.
Proof.
  intros -> (out & C & F & S) (out' & C' & R).
  rewrite C in C'. apply app_inv_head in C'. subst out'.
  exists out. simpl in *. by rewrite C, <- app_assoc.
Qed.

Ltac shape_go :=
  match goal with
  | |- context [writeStep ?b ?w] =>
      let w' := fresh "w'" in
      let E := fresh "E" in
      let H := fresh "H" in
      remember (writeStep b w) as w' eqn:E;
      apply (step_shape w w' b _ E); clear E;
      pose proof (Inv_start w') as H; [inv_go | rep_go]
  end.

Lemma shape_step_scoop w :
  ∃ body, console (step_scoop w)
          = console w ++ Step "Step 1/13: Scoop (package manager)" :: body ∧
    steps_of body = [] ∧ existsb is_report body = true ∧
    failures (step_scoop w) = failures w ++ fails_of body.
Proof. unfold step_scoop. shape_go. Qed.

Lemma shape_step_font w :
  ∃ body, console (step_font w)
          = console w ++ Step "Step 3/13: JetBrainsMono Nerd Font" :: body ∧
    steps_of body = [] ∧ existsb is_report body = true ∧
    failures (step_font w) = failures w ++ fails_of body.
Proof.
  unfold step_font.
  apply (step_shape w _ _ _ eq_refl);
    [eapply Inv_installScoopPackage | eapply Rep_installScoopPackage]; apply Inv_start.
Qed.

Lemma shape_step_winget b id nm w :
  ∃ body, console (step_winget b id nm w) = console w ++ Step b :: body ∧
    steps_of body = [] ∧ existsb is_report body = true ∧
    failures (step_winget b id nm w) = failures w ++ fails_of body.
Proof.
  unfold step_winget.
  apply (step_shape w _ _ _ eq_refl);
    [eapply Inv_installWingetPackage | eapply Rep_installWingetPackage]; apply Inv_start.
Qed.

Lemma shape_step_node w :
  ∃ body, console (step_node w)
          = console w ++ Step "Step 8/13: Node.js LTS (via Volta)" :: body ∧
    steps_of body = [] ∧ existsb is_report body = true ∧
    failures (step_node w) = failures w ++ fails_of body.
Proof. unfold step_node. shape_go. Qed.

Lemma shape_step_lazyvim w :
  ∃ body, console (step_lazyvim w)
          = console w ++ Step "Step 13/13: LazyVim (Neovim distribution)" :: body ∧
    steps_of body = [] ∧ existsb is_report body = true ∧
    failures (step_lazyvim w) = failures w ++ fails_of body.
Proof. unfold step_lazyvim. shape_go. Qed.

Lemma shape_step_git w :
  ∃ body, console (step_git w) = console w ++ Step "Step 2/13: Git" :: body ∧
    steps_of body = [] ∧ existsb is_report body = true ∧
    failures (step_git w) = failures w ++ fails_of body.
Proof.
  unfold step_git. remember (writeStep "Step 2/13: Git" w) as w' eqn:E.
  apply (step_shape w w' _ _ E); clear E; pose proof (Inv_start w') as H; [inv_go |].
  set (w1 := installWingetPackage "Git.Git" "Git" w').
  assert (R1 : Rep w' w1) by (by eapply Rep_installWingetPackage).
  clearbody w1. clear H. pose proof (Inv_start w1) as H.
  eapply (Rep_ext w' w1); [exact R1 |]. inv_go.
Qed.

Lemma shape_deploy_configs w :
  ∃ body, console (deploy_configs w)
          = console w ++ Step "Deploying configuration files" :: body ∧
    steps_of body = [] ∧ existsb is_report body = true ∧
    failures (deploy_configs w) = failures w ++ fails_of body.
Proof.
  unfold deploy_configs. remember (writeStep "Deploying configuration files" w) as w' eqn:E.
  apply (step_shape w w' _ _ E); clear E; pose proof (Inv_start w') as H; [inv_go |].
  eapply Rep_deployConfigFile. eauto 30 with inv.
Qed.

Lemma shape_git_defaults w :
  ∃ body, console (git_defaults w) = console w ++ Step "Configuring Git defaults" :: body ∧
    steps_of body = [] ∧ existsb is_report body = true ∧
    failures (git_defaults w) = failures w ++ fails_of body.
Proof.
  unfold git_defaults. remember (writeStep "Configuring Git defaults" w) as w' eqn:E.
  apply (step_shape w w' _ _ E); clear E; pose proof (Inv_start w') as H; [inv_go |].
  inv_call (commandExists "git" w'). destruct b.
  - eapply Rep_setGitConfigIfMissing. eauto 30 with inv.
  - rep_leaf.
Qed.

Lemma Inv_report_tools w0 bs ts w :
  Inv w0 bs w → Inv w0 bs (foldl report_tool w ts).
Proof.
  revert w. induction ts as [|t ts IH]; intros w H; simpl; [done |].
  by apply IH, Inv_report_tool.
Qed.

Lemma shape_verify w :
  ∃ body, console (verify w) = console w ++ Step "Verifying installations" :: body ∧
    steps_of body = [] ∧ existsb is_report body = true ∧
    failures (verify w) = failures w ++ fails_of body.
Proof.
  unfold verify. remember (writeStep "Verifying installations" w) as w' eqn:E.
  apply (step_shape w w' _ _ E); clear E; pose proof (Inv_start w') as H.
  { apply Inv_report_tools. inv_go. }
  set (w1 := prints _ (refreshPath w')).
  assert (R1 : Rep w' w1).
  { eexists. subst w1. rewrite prints_console.
    destruct (refreshPath_post w') as (-> & _). split; [done |]. done. }
  clearbody w1. eapply (Rep_ext w' w1); [exact R1 |].
  apply Inv_report_tools, Inv_start.
Qed.

(** Every step of the pipeline has this shape, under the banner of its
    rank. *)
Lemma pipeline_shape n step :
  pipeline !! n = Some step →
  ∃ b, banners !! n = Some b ∧
    ∀ w, ∃ body, console (step w) = console w ++ Step b :: body ∧
      steps_of body = [] ∧ existsb is_report body = true ∧
      failures (step w) = failures w ++ fails_of body.
Proof.
  intros H. unfold pipeline in H.
  destruct n as [|n]; cbn [lookup list_lookup] in H;
    [apply (inj Some) in H; subst step; eexists; split; [reflexivity | intros w; apply shape_step_scoop] |].
  destruct n as [|n]; cbn [lookup list_lookup] in H;
    [apply (inj Some) in H; subst step; eexists; split; [reflexivity | intros w; apply shape_step_git] |].
  destruct n as [|n]; cbn [lookup list_lookup] in H;
    [apply (inj Some) in H; subst step; eexists; split; [reflexivity | intros w; apply shape_step_font] |].
  destruct n as [|n]; cbn [lookup list_lookup] in H;
    [apply (inj Some) in H; subst step; eexists; split; [reflexivity | intros w; apply shape_step_winget] |].
  destruct n as [|n]; cbn [lookup list_lookup] in H;
    [apply (inj Some) in H; subst step; eexists; split; [reflexivity | intros w; apply shape_step_winget] |].
  destruct n as [|n]; cbn [lookup list_lookup] in H;
    [apply (inj Some) in H; subst step; eexists; split; [reflexivity | intros w; apply shape_step_winget] |].
  destruct n as [|n]; cbn [lookup list_lookup] in H;
    [apply (inj Some) in H; subst step; eexists; split; [reflexivity | intros w; apply shape_step_winget] |].
  destruct n as [|n]; cbn [lookup list_lookup] in H;
    [apply (inj Some) in H; subst step; eexists; split; [reflexivity | intros w; apply shape_step_node] |].
  destruct n as [|n]; cbn [lookup list_lookup] in H;
    [apply (inj Some) in H; subst step; eexists; split; [reflexivity | intros w; apply shape_step_winget] |].
  destruct n as [|n]; cbn [lookup list_lookup] in H;
    [apply (inj Some) in H; subst step; eexists; split; [reflexivity | intros w; apply shape_step_winget] |].
  destruct n as [|n]; cbn [lookup list_lookup] in H;
    [apply (inj Some) in H; subst step; eexists; split; [reflexivity | intros w; apply shape_step_winget] |].
  destruct n as [|n]; cbn [lookup list_lookup] in H;
    [apply (inj Some) in H; subst step; eexists; split; [reflexivity | intros w; apply shape_step_winget] |].
  destruct n as [|n]; cbn [lookup list_lookup] in H;
    [apply (inj Some) in H; subst step; eexists; split; [reflexivity | intros w; apply shape_step_lazyvim] |].
  destruct n as [|n]; cbn [lookup list_lookup] in H;
    [apply (inj Some) in H; subst step; eexists; split; [reflexivity | intros w; apply shape_deploy_configs] |].
  destruct n as [|n]; cbn [lookup list_lookup] in H;
    [apply (inj Some) in H; subst step; eexists; split; [reflexivity | intros w; apply shape_git_defaults] |].
  destruct n as [|n]; cbn [lookup list_lookup] in H;
    [apply (inj Some) in H; subst step; eexists; split; [reflexivity | intros w; apply shape_verify] |].
  done.
Qed.

Lemma run_steps_app a b w : run_steps (a ++ b) w = run_steps b (run_steps a w).
Proof. apply foldl_app. Qed.

Lemma run_steps_take_S n step w :
  pipeline !! n = Some step →
  run_steps (take (S n) pipeline) w = step (run_steps (take n pipeline) w).
Proof. intros H. by rewrite (take_S_r _ _ _ H), run_steps_app. Qed.

Ltac chain_expr H e :=
  lazymatch e with
  | step_scoop ?x => chain_expr H x; apply Inv_step_scoop in H
  | step_git ?x => chain_expr H x; apply Inv_step_git in H
  | step_font ?x => chain_expr H x; apply Inv_step_font in H
  | step_winget ?b ?i ?n ?x => chain_expr H x; apply (Inv_step_winget _ _ b i n) in H
  | step_node ?x => chain_expr H x; apply Inv_step_node in H
  | step_lazyvim ?x => chain_expr H x; apply Inv_step_lazyvim in H
  | deploy_configs ?x => chain_expr H x; apply Inv_deploy_configs in H
  | git_defaults ?x => chain_expr H x; apply Inv_git_defaults in H
  | verify ?x => chain_expr H x; apply Inv_verify in H
  | _ => idtac
  end.

Ltac chain H :=
  cbv beta iota zeta delta [run_steps foldl drop pipeline];
  lazymatch goal with
  | |- Inv _ _ ?e => chain_expr H e
  end;
  exact H.

(** The steps that are left write their banners, in order. *)
Lemma Inv_suffix k w0 w :
  Inv w0 [] w → Inv w0 (drop k banners) (run_steps (drop k pipeline) w).
Proof.
  intros H.
  do 16 (destruct k as [|k]; [chain H |]).
  by destruct k.
Qed.

(** *** Errors become entries of the failure log *)

Lemma logged_writeFail m w w' out :
  console w' = console w ++ out → fails_of out = [] → failures w' = failures w →
  logged m w (writeFail m w').
Proof.
  intros C F L. exists out. simpl. by rewrite C, L, <- app_assoc.
Qed.

Lemma winget_error_logged (packageID displayName : string) (w : World) :
  let listing :=
    runCmd "winget" ["list"; "--id"; packageID; "--accept-source-agreements"] w in
  let install :=
    runCmdPassthrough "winget"
      ["install"; "--id"; packageID; "--exact"; "--accept-source-agreements";
       "--accept-package-agreements"; "--silent"]
      (print (Text ("Installing " +:+ displayName +:+ "...")) listing.2) in
  Contains listing.1.1 packageID = false → install.1 ≠ None →
  logged ("Failed to install " +:+ displayName +:+ " (" +:+ packageID +:+ ")") w
         (installWingetPackage packageID displayName w).
Proof.
  intros listing install Hl He. rewrite installWingetPackage_eq.
  fold listing install. rewrite Hl. destruct install.1 as [e|] eqn:E; [| done].
  by apply (logged_writeFail _ _ _ [Text ("Installing " +:+ displayName +:+ "...")]).
Qed.

Lemma scoop_error_logged (pkg bucket : string) (w : World) :
  let w1 := (runCmd "scoop" ["list"] w).2 in
  let listing := runCmd "scoop" ["bucket"; "list"] w1 in
  let adding :=
    runCmd "scoop" ["bucket"; "add"; bucket]
      (print (Text ("Adding scoop bucket '" +:+ bucket +:+ "'...")) listing.2) in
  let ready :=
    if String.eqb bucket "" then w1
    else if Contains listing.1.1 bucket then listing.2 else adding.2 in
  let install :=
    runCmdPassthrough "scoop" ["install"; pkg]
      (print (Text ("Installing " +:+ pkg +:+ " via scoop...")) ready) in
  Contains (runCmd "scoop" ["list"] w).1.1 pkg = false → install.1 ≠ None →
  logged ("Failed to install " +:+ pkg +:+ " via scoop") w (installScoopPackage pkg bucket w).
Proof.
  intros w1 listing adding ready install Hl He. rewrite installScoopPackage_eq.
  fold w1 listing adding ready install. rewrite Hl.
  destruct install.1 as [e|] eqn:E; [| done].
  assert (Hready : failures ready = failures w ∧
                   ∃ out, console ready = console w ++ out ∧ fails_of out = []).
  { subst ready adding listing w1. unfold runCmd, spawn. cbn [fst snd].
    destruct (String.eqb bucket ""); [| destruct (Contains _ bucket)];
      cbn -[String.append]; (split; [done |]);
      first [by exists []; rewrite app_nil_r | by eexists]. }
  destruct Hready as (F & out & C & Hout).
  apply (logged_writeFail _ _ _ (out ++ [Text ("Installing " +:+ pkg +:+ " via scoop...")])).
  - subst install. unfold runCmdPassthrough, spawn. cbn -[String.append].
    by rewrite C, <- app_assoc.
  - by rewrite fails_of_app, Hout.
  - subst install. unfold runCmdPassthrough, spawn. by cbn -[String.append].
Qed.

Lemma bootstrap_error_logged (w : World) (e : string) :
  look_path (os w) (tick w) (PATH w) "scoop" = false →
  proc_err (run (os w) (S (tick w))
              ["powershell"; "-NoProfile"; "-Command";
               "Invoke-RestMethod get.scoop.sh | Invoke-Expression"] (fs w)) = Some e →
  logged ("Failed to install Scoop: " +:+ e) w (step_scoop w).
Proof.
  intros Hs He. unfold step_scoop, commandExists, runCmdPassthrough, spawn.
  cbn [fst snd os tick PATH fs writeStep print tock]. rewrite Hs.
  cbn [fst snd os tick PATH fs writeStep print tock]. rewrite He.
  apply (logged_writeFail _ _ _ [Step "Step 1/13: Scoop (package manager)";
                                 Text "Installing Scoop..."]);
    [simpl; by rewrite <- app_assoc | done | done].
Qed.

Lemma volta_error_logged (w : World) :
  look_path (os w) (tick w) (PATH w) "node" = false →
  look_path (os w) (S (tick w)) (PATH w) "volta" = true →
  proc_err (run (os w) (S (S (tick w))) ["volta"; "install"; "node"] (fs w)) ≠ None →
  logged "Failed to install Node.js via Volta" w (step_node w).
Proof.
  intros Hn Hv He. unfold step_node, commandExists, runCmdPassthrough, spawn.
  cbn [fst snd os tick PATH fs writeStep print tock]. rewrite Hn.
  cbn [fst snd os tick PATH fs writeStep print tock]. rewrite Hv.
  cbn [fst snd os tick PATH fs writeStep print tock].
  destruct (proc_err _) as [e|]; [| done]. cbn [failed].
  apply (logged_writeFail _ _ _ [Step "Step 8/13: Node.js LTS (via Volta)";
                                 Text "Installing Node.js LTS via Volta..."]);
    [simpl; by rewrite <- app_assoc | done | done].
Qed.

Lemma os_Rename_same a b w :
  os (os_Rename a b w).2 = os w ∧ console (os_Rename a b w).2 = console w ∧
  failures (os_Rename a b w).2 = failures w.
Proof. unfold os_Rename. by repeat case_match. Qed.

Lemma clone_error_logged (w : World) :
  let dir := Join (env_dir (os w) "LOCALAPPDATA") ["nvim"] in
  let marker :=
    os_Stat (Join dir ["lua"; "config"; "lazy.lua"])
            (writeStep "Step 13/13: LazyVim (Neovim distribution)" w) in
  marker.1 ≠ None → (commandExists "git" marker.2).1 = true →
  (∀ t m, proc_err (run (os w) t ["git"; "clone"; "https://github.com/LazyVim/starter";
                                   show_path dir] m) ≠ None) →
  logged "Failed to clone LazyVim starter" w (step_lazyvim w).
Proof.
  intros dir marker Hm Hg Hc. unfold step_lazyvim.
  set (w1 := writeStep _ w) in *.
  change (env_dir (os w1)) with (env_dir (os w)). fold dir. fold marker.
  pose proof (os_Stat_quiet (Join dir ["lua"; "config"; "lazy.lua"]) w1) as Q2.
  fold marker in Q2. destruct marker as [[e|] w2]; [| done]. cbn [fst snd is_nil] in *.
  destruct Q2 as (O2 & _ & C2 & L2 & _).
  unfold commandExists in *. cbn [fst snd] in *. rewrite Hg.
  pose proof (os_Stat_quiet dir (tock w2)) as Q3.
  destruct (os_Stat dir (tock w2)) as [e3 w3]. cbn [snd] in Q3.
  destruct Q3 as (O3 & _ & C3 & L3 & _).
  cbn [os console failures tock] in O3, C3, L3.
  set (w4 := if is_nil e3 then _ else w3).
  assert (H4 : os w4 = os w ∧ failures w4 = failures w ∧
               ∃ out, console w4 = console w ++ out ∧ fails_of out = []).
  { subst w4. destruct (is_nil e3).
    - rewrite time_Now_eq.
      destruct (os_Rename_same dir (backupPath dir (clock (os w3) (tick w3)))
                  (print (Text ("Backing up existing nvim config to " +:+
                                show_path (backupPath dir (clock (os w3) (tick w3)))))
                         (tock w3))) as (O & C & L).
      rewrite O, C, L. cbn [os console failures print tock].
      rewrite O3, O2, C3, C2, L3, L2. split_and!; try done.
      eexists. subst w1. cbn [console writeStep print tock]. rewrite <- app_assoc.
      split; [done | done].
    - rewrite O3, O2, C3, C2, L3, L2. split_and!; try done.
      eexists. subst w1. cbn [console writeStep print tock]. split; [done | done]. }
  clearbody w4. destruct H4 as (O4 & L4 & out & C4 & Hout).
  unfold runCmdPassthrough, spawn. cbn [fst snd os tick fs print].
  rewrite O4. specialize (Hc (tick w4) (fs w4)).
  destruct (proc_err _) as [err|]; [| done]. cbn [failed].
  apply (logged_writeFail _ _ _ (out ++ [Text "Cloning LazyVim starter..."])).
  - cbn [console print]. by rewrite C4, <- app_assoc.
  - by rewrite fails_of_app, Hout.
  - done.
Qed.

(** What becomes of an error in [deployConfigFile]: a source that is not
    found, a directory that cannot be created, and a copy that fails. *)
Lemma deploy_error_logged (srcRel target : path) (w : World) (v : verdict) (wb : World) :
  deploy_check srcRel target w = (v, wb) →
  match v with
  | SourceMissing =>
      logged ("Source config not found: " +:+ show_path srcRel) w
             (deployConfigFile srcRel target w)
  | NoDirectory =>
      logged ("Failed to create directory: " +:+ show_path (Dir target)) w
             (deployConfigFile srcRel target w)
  | UpToDate => failures (deployConfigFile srcRel target w) = failures w
  | Differs _ _ _ _ =>
      match (copyFile (Join (scriptRoot w) srcRel) target (deploy_backup target wb)).1 with
      | Some err =>
          logged ("Failed to deploy " +:+ show_path srcRel +:+ ": " +:+ Error err) w
                 (deployConfigFile srcRel target w)
      | None => failures (deployConfigFile srcRel target w) = failures w
      end
  | NoTarget =>
      match (copyFile (Join (scriptRoot w) srcRel) target wb).1 with
      | Some err =>
          logged ("Failed to deploy " +:+ show_path srcRel +:+ ": " +:+ Error err) w
                 (deployConfigFile srcRel target w)
      | None => failures (deployConfigFile srcRel target w) = failures w
      end
  end.
Proof.
  intros Ec. rewrite deploy_phases, Ec.
  apply deploy_check_post in Ec as (_ & _ & _ & _ & Hv).
  assert (Hcopy : ∀ w0 out, console w0 = console w ++ out → fails_of out = [] →
            failures w0 = failures w →
            match (copyFile (Join (scriptRoot w) srcRel) target w0).1 with
            | Some err =>
                logged ("Failed to deploy " +:+ show_path srcRel +:+ ": " +:+ Error err) w
                       (deploy_copy srcRel (Join (scriptRoot w) srcRel) target w0)
            | None => failures (deploy_copy srcRel (Join (scriptRoot w) srcRel) target w0)
                      = failures w
            end).
  { intros w0 out C0 Ho L0.
    destruct (deploy_copy_post srcRel (Join (scriptRoot w) srcRel) target w0)
      as (_ & _ & _ & _ & [(err & w1 & Hc & _ & C1 & L1)|(w1 & Hc & _ & C1 & L1)]);
      rewrite Hc; cbn [fst].
    - exists out. by rewrite C1, L1, C0, L0, <- app_assoc.
    - by rewrite L1. }
  destruct v.
  - destruct Hv as [C L]. exists []. by rewrite C, L.
  - destruct Hv as [C L]. exists []. by rewrite C, L.
  - by destruct Hv as (_ & L & _).
  - destruct Hv as (C & L & _).
    destruct (deploy_backup_post target wb) as (_ & _ & _ & C1 & L1 & _).
    apply (Hcopy _ [BackedUp target (clock (os wb) (tick wb))]);
      [by rewrite C1, C | done | by rewrite L1, L].
  - destruct Hv as (C & L & _).
    apply (Hcopy _ []); [by rewrite C, app_nil_r | done | done].
Qed.



(** ** Runs *)

(** The test vectors of FIPS 180-4 and a message of two blocks. *)
Example sha256_abc :
  sha256_hex "abc" = "ba7816bf8f01cfea414140de5dae2223b00361a396177a9cb410ff61f20015ad".
Proof. vm_compute. reflexivity. Qed.

Example sha256_empty :
  sha256_hex "" = "e3b0c44298fc1c149afbf4c8996fb92427ae41e4649b934ca495991b7852b855".
Proof. vm_compute. reflexivity. Qed.

Example sha256_two_blocks :
  sha256_hex "aaaaaaaaaaaaaaaaaaaaaaaaaaaaaaaaaaaaaaaaaaaaaaaaaaaaaaaaaaaaaaaaaaaaaa"
  = "6bd5e5034855a11241f0dee8fc72850ffd9955b28347a86428b5fa19119f6ad0".
Proof. vm_compute. reflexivity. Qed.

Example sha256_round_constants :
  SHA256.K !! 0%nat = Some 0x428a2f98%Z ∧ SHA256.K !! 63%nat = Some 0xc67178f2%Z ∧
  SHA256.H0 !! 0%nat = Some 0x6a09e667%Z ∧ length SHA256.K = 64.
Proof. repeat split. Qed.

(** The scenario of the specification: a first deploy creates the target
    without a backup, a second one finds it up to date and changes
    nothing, and a deploy over an edited target backs the edit up and puts
    the source's content back. *)
Example end_to_end :
  let w1 := deployConfigFile rel tgt fresh in
  let w2 := deployConfigFile rel tgt w1 in
  let w3 := deployConfigFile rel tgt edited in
  (console w1 = [Deployed rel tgt] ∧
   map_to_list (fs w1) = map_to_list (<[tgt := NFile (File "X" later true true)]> (fs fresh))) ∧
  (console w2 = [Deployed rel tgt; IsUpToDate tgt] ∧ map_to_list (fs w2) = map_to_list (fs w1)) ∧
  (console w3 = [BackedUp tgt later; Deployed rel tgt] ∧
   fs w3 !! tgt = Some (NFile (File "X" later true true)) ∧
   fs w3 !! backupPath tgt later = Some (NFile (File "Y" later true true))).
Proof. intros w1 w2 w3. split_and!; vm_compute; reflexivity. Qed.

(** What [extractVersion] makes of the first line of [git --version]. *)
Example extractVersion_git :
  extractVersion (first_line "git version 2.43.0.windows.1") = "2.43.0.".
Proof. vm_compute. reflexivity. Qed.
